(** * pycoustics: the browser client's PCM encoder, session hook and canvases

    A shallow embedding of the TypeScript/JavaScript client of pycoustics:

    - [audio-processor.js] (the AudioWorklet [PCMProcessor]),
    - [frontend/src/hooks/useAudioStream.ts] in its two revisions (the
      ScriptProcessorNode one and the AudioWorklet one),
    - [frontend/src/components/VuMeter.tsx], [SpectrumAnalyzer.tsx] and
      [PanningViewer.tsx] (what they draw on their canvas).

    JavaScript numbers are IEEE-754 binary64 values.  They are modelled with
    the [spec_float] type of the standard library at precision 53, so the
    arithmetic of the encoder ([Math.min], [Math.max], [<], [*], the store
    into an [Int16Array]) is the bit-exact one, roundings included. *)

From Stdlib Require Import ZArith QArith Qminmax Lia Bool String SpecFloat.
From stdpp Require Import base list.

Open Scope Z_scope.

(** ** JavaScript numbers *)

Definition prec : Z := 53.
Definition emax : Z := 1024.

(** A JavaScript Number: a binary64 float. *)
Definition number : Type := spec_float.

(** An integer literal of the source ([1], [-1], [0x8000], [32767.0], ...). *)
Definition of_int (z : Z) : number := binary_normalize prec emax z 0 false.

(** A [Float32Array] element read as a Number: the binary32 value [x32]
    converted (exactly) to binary64. *)
Definition Float32_to_Number (x32 : spec_float) : number :=
  match x32 with
  | S754_finite s m e => binary_round prec emax s m e
  | _ => x32
  end.

(** [Math.fround], the rounding done by a store into a [Float32Array]: to the
    nearest binary32 value, read back as a Number.  The client never calls it;
    it says what a channel can hold. *)
Definition Math_fround (x : number) : number :=
  match x with
  | S754_finite s m e => Float32_to_Number (binary_round 24 128 s m e)
  | _ => x
  end.

(** The binary32 value such a store keeps of the Number [x]. *)
Definition narrow (x : number) : spec_float :=
  match x with
  | S754_finite s m e => binary_round 24 128 s m e
  | _ => x
  end.

(** [ToNumber]: [undefined] (here [None], what an out-of-range read of a typed
    array yields) becomes NaN. *)
Definition ToNumber (v : option number) : number :=
  match v with
  | Some x => x
  | None => S754_nan
  end.

(** [Math.min(a, b)]: NaN if either argument is NaN, and [-0] below [+0]. *)
Definition Math_min (a b : number) : number :=
  match SFcompare a b with
  | None => S754_nan
  | Some Lt => a
  | Some Gt => b
  | Some Eq => match a with S754_zero true => a | _ => b end
  end.

(** [Math.max(a, b)]: NaN if either argument is NaN, and [+0] above [-0]. *)
Definition Math_max (a b : number) : number :=
  match SFcompare a b with
  | None => S754_nan
  | Some Lt => b
  | Some Gt => a
  | Some Eq => match a with S754_zero false => a | _ => b end
  end.

(** [a < b] *)
Definition lt (a b : number) : bool := SFltb a b.

(** [a * b] *)
Definition mul (a b : number) : number := SFmul prec emax a b.

(** [a / b] *)
Definition div (a b : number) : number := SFdiv prec emax a b.

(** The integral part of a finite number, the fraction discarded (truncation
    toward zero); [0] on zeros, infinities and NaN. *)
Definition truncate (x : number) : Z :=
  match x with
  | S754_finite s m e => cond_Zopp s (Z.shiftl (Zpos m) e)
  | _ => 0
  end.

(** [ToInt16], the conversion done by a store into an [Int16Array]: NaN, zeros
    and infinities give 0; anything else is truncated and wrapped modulo 2^16
    into [-32768, 32767]. *)
Definition ToInt16 (x : number) : Z :=
  match x with
  | S754_finite _ _ _ =>
      let int16bit := truncate x mod 65536 in
      if 32768 <=? int16bit then int16bit - 65536 else int16bit
  | _ => 0
  end.

(** ** The sample mapping

    The four occurrences
    [let s = Math.max(-1, Math.min(1, input[i]));
     pcmData[pcmIndex++] = s < 0 ? s * 0x8000 : s * 0x7FFF;]
    (audio-processor.js lines 21-22 and 25-26, useAudioStream.ts lines 107-108
    and 111-112) are the same expression; [pcm_sample] is the Int16 value it
    stores for the element [v] read from the channel. *)
Definition pcm_sample (v : option number) : Z :=
  let s := Math_max (of_int (-1)) (Math_min (of_int 1) (ToNumber v)) in
  ToInt16 (if lt s (of_int 0) then mul s (of_int 0x8000) else mul s (of_int 0x7FFF)).

(** A [Float32Array], as the Numbers its elements read as.  Each element is a
    binary32 value; the type does not say so, so what is stated of every list
    of Numbers holds of every channel, and a statement that builds a channel
    stores its elements with [Math_fround]. *)
Abbreviation Float32Array := (list number).

(** ** audio-processor.js: [PCMProcessor.process] *)

(** One iteration of the [for] loop (lines 19-27) on the state
    [(pcmData, pcmIndex)]. *)
Definition process_iteration (inputL inputR : Float32Array) (st : list Z * nat) (i : nat)
  : list Z * nat :=
  let '(pcmData, pcmIndex) := st in
  (* Channel L *)
  let pcmData := <[pcmIndex := pcm_sample (inputL !! i)]> pcmData in
  let pcmIndex := S pcmIndex in
  (* Channel R *)
  let pcmData := <[pcmIndex := pcm_sample (inputR !! i)]> pcmData in
  let pcmIndex := S pcmIndex in
  (pcmData, pcmIndex).

(** [process(inputs, outputs, parameters)]: the returned boolean and the
    buffer posted to the main thread, if any. *)
Definition process (inputs : list (list Float32Array)) : bool * option (list Z) :=
  match inputs !! 0%nat with
  | None => (true, None)
  | Some input =>
      match input !! 0%nat with
      | None => (true, None)                       (* input.length === 0 *)
      | Some inputL =>
          let inputR :=
            if (1 <? length input)%nat then default inputL (input !! 1%nat) else inputL in
          let length := length inputL in
          let pcmData := replicate (length * 2) 0 in
          let pcmIndex := 0%nat in
          let '(pcmData, _) :=
            foldl (process_iteration inputL inputR) (pcmData, pcmIndex) (seq 0 length) in
          (true, Some pcmData)
      end
  end.

(** ** The exact (rational) reading of the sample mapping *)

(** The rational value of a finite float; [0] on everything else. *)
Definition B2Q (x : spec_float) : Q :=
  match x with
  | S754_finite s m e =>
      match e with
      | Zneg p => cond_Zopp s (Zpos m) # (2 ^ p)
      | _ => inject_Z (cond_Zopp s (Zpos m * 2 ^ e))
      end
  | _ => 0%Q
  end.

(** Clamp to [-1, 1]. *)
Definition clamp (q : Q) : Q := Qmax (-1) (Qmin 1 q).

(** Truncation of a rational toward zero. *)
Definition Qtruncate (q : Q) : Z := Z.quot (Qnum q) (Zpos (Qden q)).

(** Rounding of a rational to the nearest integer (halves away from zero),
    for comparison only. *)
Definition Qround_nearest (q : Q) : Z :=
  Z.quot (2 * Qnum q + Z.sgn (Qnum q) * Zpos (Qden q)) (2 * Zpos (Qden q)).

(** Clamp, scale by 32768 below zero and by 32767 otherwise, truncate. *)
Definition clamp_scale_truncate (q : Q) : Z :=
  let c := clamp q in
  Qtruncate (if Qlt_le_dec c 0 then c * 32768 else c * 32767)%Q.

(** ** The server-side decode of a frame

    Modelled from the spec: the decoder of the SampleCodec runs on the server,
    whose code is not part of the client sources.  Spec 4.1: "parse it as a
    sequence of 16-bit signed integers; de-interleave into two equal-length
    per-channel sequences of normalized floats in [-1,1] via
    [sample / 32768.0] for negative and [sample / 32767.0] for non-negative
    values"; "Fails (rejects the frame) if the buffer length is not a positive
    even multiple of the sample size".  The division is the binary64 one. *)
Definition decode_sample (sample : Z) : number :=
  if sample <? 0 then div (of_int sample) (of_int 32768)
  else div (of_int sample) (of_int 32767).

(** Modelled from the spec: the de-interleaving of the decoder (spec 4.1),
    L at even positions and R at odd ones. *)
Fixpoint deinterleave (frame : list Z) : list Z * list Z :=
  match frame with
  | l :: r :: rest => let '(L, R) := deinterleave rest in (l :: L, r :: R)
  | _ => ([], [])
  end.

(** Modelled from the spec: the decoder of spec 4.1 on a frame given as its
    16-bit samples; [None] is the rejection of an empty or odd-length frame.
    The channels are the binary64 quotients, not yet stored anywhere. *)
Definition decode (frame : list Z) : option (list number * list number) :=
  if (length frame =? 0)%nat || Nat.odd (length frame) then None
  else let '(L, R) := deinterleave frame in
       Some (map decode_sample L, map decode_sample R).

(** The decoded frame as channels of the encoder: each decoded sample stored
    into a [Float32Array], which keeps its nearest binary32 value. *)
Definition decode32 (frame : list Z) : option (Float32Array * Float32Array) :=
  match decode frame with
  | Some (L, R) => Some (map Math_fround L, map Math_fround R)
  | None => None
  end.

(** A sample fits the 16-bit signed range. *)
Definition is_int16 (sample : Z) : bool := (-32768 <=? sample) && (sample <=? 32767).

(** ** JSON documents and JavaScript values exchanged on the socket *)

#[warnings="-register-all"]
Inductive json : Type :=
  | JNull
  | JBool (b : bool)
  | JNum (x : number)
  | JStr (s : string)
  | JArr (items : list json)
  | JObj (fields : list (string * json)).

(** The own property [key] of an object literal or of a parsed JSON object
    ([None] is [undefined]). *)
Fixpoint field (key : string) (fields : list (string * json)) : option json :=
  match fields with
  | [] => None
  | (k, v) :: rest => if String.eqb k key then Some v else field key rest
  end.

(** [data.key] for a non-null [data]: only objects carry the properties read
    by the client. *)
Definition property (data : json) (key : string) : option json :=
  match data with
  | JObj fields => field key fields
  | _ => None
  end.

(** JavaScript truthiness of a Number: neither zero nor NaN. *)
Definition number_truthy (x : number) : bool :=
  match x with
  | S754_zero _ | S754_nan => false
  | _ => true
  end.

(** JavaScript truthiness, [undefined] being [None]. *)
Definition truthy (v : option json) : bool :=
  match v with
  | None | Some JNull => false
  | Some (JBool b) => b
  | Some (JNum x) => number_truthy x
  | Some (JStr s) => negb (String.eqb s EmptyString)
  | Some (JArr _) | Some (JObj _) => true
  end.

(** [v === 'text'] *)
Definition is_string (v : option json) (text : string) : bool :=
  match v with
  | Some (JStr s) => String.eqb s text
  | _ => false
  end.

(** ** The WebSocket and the hook state *)

Inductive ReadyState : Type := CONNECTING | OPEN | CLOSING | CLOSED.

Definition ReadyState_eqb (a b : ReadyState) : bool :=
  match a, b with
  | CONNECTING, CONNECTING | OPEN, OPEN | CLOSING, CLOSING | CLOSED, CLOSED => true
  | _, _ => false
  end.

(** What [send] was given: [Text v] is the string [JSON.stringify(v)],
    [Binary pcm] the buffer of an [Int16Array]. *)
Inductive message : Type :=
  | Text (v : json)
  | Binary (pcm : list Z).

(** A WebSocket object: its [readyState] and what it has transmitted so far,
    oldest first. *)
Record WebSocket : Type := mkWebSocket {
  readyState : ReadyState;
  sent : list message
}.

(** The two properties of the [AudioContext] the hook reads. *)
Record AudioContext : Type := mkAudioContext {
  sampleRate : number;
  channelCount : number            (* destination.channelCount *)
}.

(** The state of one [useAudioStream] instance: the six [useState] cells, the
    refs, and the WebSocket objects created so far ([socketRef] points into
    them). [capturing] says that the capture node is installed and running. *)
Record Hook : Type := mkHook {
  isConnected : bool;
  isRecording : bool;
  rms : option json;
  spectrum : option json;
  panning : option json;
  lastRecording : option (option json * option json);   (* null | {id, filename} *)
  sockets : list WebSocket;
  socketRef : option nat;
  audioContextRef : option AudioContext;
  capturing : bool
}.

Definition setIsConnected (b : bool) (h : Hook) : Hook :=
  mkHook b (isRecording h) (rms h) (spectrum h) (panning h) (lastRecording h)
         (sockets h) (socketRef h) (audioContextRef h) (capturing h).
Definition setIsRecording (b : bool) (h : Hook) : Hook :=
  mkHook (isConnected h) b (rms h) (spectrum h) (panning h) (lastRecording h)
         (sockets h) (socketRef h) (audioContextRef h) (capturing h).
Definition setRms (v : option json) (h : Hook) : Hook :=
  mkHook (isConnected h) (isRecording h) v (spectrum h) (panning h) (lastRecording h)
         (sockets h) (socketRef h) (audioContextRef h) (capturing h).
Definition setSpectrum (v : option json) (h : Hook) : Hook :=
  mkHook (isConnected h) (isRecording h) (rms h) v (panning h) (lastRecording h)
         (sockets h) (socketRef h) (audioContextRef h) (capturing h).
Definition setPanning (v : option json) (h : Hook) : Hook :=
  mkHook (isConnected h) (isRecording h) (rms h) (spectrum h) v (lastRecording h)
         (sockets h) (socketRef h) (audioContextRef h) (capturing h).
Definition setLastRecording (v : option (option json * option json)) (h : Hook) : Hook :=
  mkHook (isConnected h) (isRecording h) (rms h) (spectrum h) (panning h) v
         (sockets h) (socketRef h) (audioContextRef h) (capturing h).
Definition set_sockets (l : list WebSocket) (h : Hook) : Hook :=
  mkHook (isConnected h) (isRecording h) (rms h) (spectrum h) (panning h) (lastRecording h)
         l (socketRef h) (audioContextRef h) (capturing h).
Definition set_socketRef (r : option nat) (h : Hook) : Hook :=
  mkHook (isConnected h) (isRecording h) (rms h) (spectrum h) (panning h) (lastRecording h)
         (sockets h) r (audioContextRef h) (capturing h).
Definition set_audioContextRef (c : option AudioContext) (h : Hook) : Hook :=
  mkHook (isConnected h) (isRecording h) (rms h) (spectrum h) (panning h) (lastRecording h)
         (sockets h) (socketRef h) c (capturing h).
Definition set_capturing (b : bool) (h : Hook) : Hook :=
  mkHook (isConnected h) (isRecording h) (rms h) (spectrum h) (panning h) (lastRecording h)
         (sockets h) (socketRef h) (audioContextRef h) b.

(** The state after the [useState]/[useRef] initialisers (lines 18-29). *)
Definition useAudioStream : Hook :=
  mkHook false false (Some (JNum (of_int (-100)))) (Some (JArr [])) (Some (JNum (of_int 0)))
         None [] None None false.

(** [ws.send(m)] on the socket numbered [i]: transmitted when the socket is
    [OPEN], discarded otherwise (every call of the hook is made on an [OPEN]
    socket, so the exception of a [CONNECTING] one does not arise). *)
Definition send (i : nat) (m : message) (h : Hook) : Hook :=
  match sockets h !! i with
  | Some ws =>
      match readyState ws with
      | OPEN => set_sockets (<[i := mkWebSocket OPEN (sent ws ++ [m])]> (sockets h)) h
      | _ => h
      end
  | None => h
  end.

(** [socketRef.current?.readyState === WebSocket.OPEN], with the socket. *)
Definition open_socket (h : Hook) : option nat :=
  match socketRef h with
  | Some i =>
      match sockets h !! i with
      | Some ws => if ReadyState_eqb (readyState ws) OPEN then Some i else None
      | None => None
      end
  | None => None
  end.

(** [audioContextRef.current?.sampleRate || 44100] and the like. *)
Definition or_default (v : option number) (d : Z) : number :=
  match v with
  | Some x => if number_truthy x then x else of_int d
  | None => of_int d
  end.

(** The [init] document of [onopen] and the [start_record] one. *)
Definition session_document (action : string) (h : Hook) : json :=
  let sampleRate := or_default (sampleRate <$> audioContextRef h) 44100 in
  let channels := or_default (channelCount <$> audioContextRef h) 2 in
  JObj [("action", JStr action); ("sample_rate", JNum sampleRate); ("channels", JNum channels)]%string.

(** [connectWebSocket] (lines 31-69 of useAudioStream.ts, 31-68 of its worklet
    revision): a new [CONNECTING] socket unless the current one is open. *)
Definition connectWebSocket (h : Hook) : Hook :=
  match open_socket h with
  | Some _ => h
  | None =>
      let ws := mkWebSocket CONNECTING [] in
      set_socketRef (Some (length (sockets h))) (set_sockets (sockets h ++ [ws]) h)
  end.

(** [ws.onopen] of the socket numbered [i]. *)
Definition onopen (i : nat) (h : Hook) : Hook :=
  let h := setIsConnected true h in
  send i (Text (session_document "init" h)) h.

(** [ws.onclose] *)
Definition onclose (h : Hook) : Hook := setIsConnected false h.

(** [ws.onmessage]: [data] is the result of [JSON.parse(event.data)], [None]
    when it throws; reading [.type] of [null] throws too. *)
Definition onmessage (data : option json) (h : Hook) : Hook :=
  match data with
  | None | Some JNull => h
  | Some data =>
      if is_string (property data "type") "meter" then
        let h := setRms (property data "rms") h in
        let h := if truthy (property data "spectrum")
                 then setSpectrum (property data "spectrum") h else h in
        match property data "panning" with
        | Some _ => setPanning (property data "panning") h     (* !== undefined *)
        | None => h
        end
      else if is_string (property data "type") "recording_saved" then
        let h := setLastRecording (Some (property data "id", property data "filename")) h in
        setIsRecording false h
      else h
  end.

(** [startRecording] *)
Definition startRecording (h : Hook) : Hook :=
  match open_socket h with
  | Some i => setIsRecording true (send i (Text (session_document "start_record" h)) h)
  | None => h
  end.

(** [stopRecording] *)
Definition stopRecording (h : Hook) : Hook :=
  match open_socket h with
  | Some i => send i (Text (JObj [("action", JStr "stop_record")]%string)) h
  | None => h
  end.

(** The document of [setSettings]. *)
Definition set_params (gain : number) (filter : bool) (cutoff integrationTime : number) : json :=
  JObj [("action", JStr "set_params");
        ("gain", JNum gain);
        ("filter_enabled", JBool filter);
        ("cutoff_freq", JNum cutoff);
        ("integration_time", JNum integrationTime)]%string.

(** [setSettings(gain, filter, cutoff, integrationTime)] *)
Definition setSettings (gain : number) (filter : bool) (cutoff integrationTime : number)
    (h : Hook) : Hook :=
  match open_socket h with
  | Some i => send i (Text (set_params gain filter cutoff integrationTime)) h
  | None => h
  end.

(** ** useAudioStream.ts: the ScriptProcessorNode capture path *)

(** One iteration of the [for] loop of [onaudioprocess] (lines 105-113). *)
Definition onaudioprocess_iteration (inputL inputR : Float32Array) (st : list Z * nat)
    (i : nat) : list Z * nat :=
  let '(pcmData, pcmIndex) := st in
  let pcmData := <[pcmIndex := pcm_sample (inputL !! i)]> pcmData in
  let pcmIndex := S pcmIndex in
  let pcmData := <[pcmIndex := pcm_sample (inputR !! i)]> pcmData in
  let pcmIndex := S pcmIndex in
  (pcmData, pcmIndex).

(** [processorRef.current.onaudioprocess] (lines 92-117); [inputBuffer] is the
    [AudioBuffer] as its channels, [getChannelData(0)] of a buffer without
    channels throws. *)
Definition onaudioprocess (inputBuffer : list Float32Array) (h : Hook) : Hook :=
  match open_socket h with
  | Some current =>
      match inputBuffer !! 0%nat with
      | None => h
      | Some inputL =>
          let inputR :=
            if (1 <? length inputBuffer)%nat then default inputL (inputBuffer !! 1%nat)
            else inputL in
          if negb (length inputL =? length inputR)%nat then h
          else
            let length := length inputL in
            let pcmData := replicate (length * 2) 0 in
            let pcmIndex := 0%nat in
            let '(pcmData, _) :=
              foldl (onaudioprocess_iteration inputL inputR) (pcmData, pcmIndex)
                    (seq 0 length) in
            send current (Binary pcmData) h
      end
  | None => h
  end.

(** ** The AudioWorklet capture path (the worklet revision of the hook) *)

(** [workletNodeRef.current.port.onmessage] (lines 101-105). *)
Definition port_onmessage (data : list Z) (h : Hook) : Hook :=
  match open_socket h with
  | Some current => send current (Binary data) h
  | None => h
  end.

(** One render quantum: [process] runs in the worklet on the node's single
    input, and what it posts reaches [port.onmessage]. *)
Definition worklet_block (input : list Float32Array) (h : Hook) : Hook :=
  match process [input] with
  | (_, Some data) => port_onmessage data h
  | (_, None) => h
  end.

(** ** The hook as a transition system *)

Inductive Revision : Type := ScriptProcessor | AudioWorklet.

Inductive event : Type :=
  | Mount                                   (* the effect: connectWebSocket() *)
  | Unmount                                 (* its cleanup: the two close() calls *)
  | WsOpen (i : nat)                        (* socket i is established *)
  | WsClose (i : nat)                       (* socket i is closed *)
  | WsMessage (i : nat) (data : option json)  (* socket i delivers a message *)
  | StartAudio                              (* startAudio(), up to its first await *)
  | MediaGranted (ctx : AudioContext) (loaded : bool)
      (* startAudio() resumes with the stream: the context is created and the
         capture node set up; [loaded = false] is the worklet revision failing
         to load audio-processor.js, which returns before creating the node *)
  | AudioBlock (input : list Float32Array)  (* the capture node delivers a block *)
  | StartRecording
  | StopRecording
  | SetSettings (gain : number) (filter : bool) (cutoff integrationTime : number).

(** [close()] of a socket: towards [CLOSING] unless already closing or closed. *)
Definition close (ws : WebSocket) : WebSocket :=
  match readyState ws with
  | CONNECTING | OPEN => mkWebSocket CLOSING (sent ws)
  | _ => ws
  end.

Definition set_readyState (r : ReadyState) (ws : WebSocket) : WebSocket :=
  mkWebSocket r (sent ws).

(** One event.  The browser fires [open] on a [CONNECTING] socket only (having
    made it [OPEN]), delivers messages on a socket that is [OPEN] or [CLOSING]
    only, and closes a socket once; an event that cannot occur leaves the state
    as it is. *)
Definition step (rev : Revision) (h : Hook) (ev : event) : Hook :=
  match ev with
  | Mount => connectWebSocket h
  | Unmount =>
      let h := match socketRef h with
               | Some i => set_sockets (alter close i (sockets h)) h
               | None => h
               end in
      set_capturing false h
  | WsOpen i =>
      match sockets h !! i with
      | Some ws =>
          match readyState ws with
          | CONNECTING => onopen i (set_sockets (<[i := set_readyState OPEN ws]> (sockets h)) h)
          | _ => h
          end
      | None => h
      end
  | WsClose i =>
      match sockets h !! i with
      | Some ws =>
          match readyState ws with
          | CLOSED => h
          | _ => onclose (set_sockets (<[i := set_readyState CLOSED ws]> (sockets h)) h)
          end
      | None => h
      end
  | WsMessage i data =>
      match sockets h !! i with
      | Some ws =>
          match readyState ws with
          | OPEN | CLOSING => onmessage data h
          | _ => h
          end
      | None => h
      end
  | StartAudio => match socketRef h with None => connectWebSocket h | Some _ => h end
  | MediaGranted ctx loaded =>
      let h := set_audioContextRef (Some ctx) h in
      match rev with
      | ScriptProcessor => set_capturing true h
      | AudioWorklet => if loaded then set_capturing true h else h
      end
  | AudioBlock input =>
      if capturing h then
        match rev with
        | ScriptProcessor => onaudioprocess input h
        | AudioWorklet => worklet_block input h
        end
      else h
  | StartRecording => startRecording h
  | StopRecording => stopRecording h
  | SetSettings gain filter cutoff integrationTime =>
      setSettings gain filter cutoff integrationTime h
  end.

(** The state after a sequence of events, from the initial one. *)
Definition run (rev : Revision) (evs : list event) : Hook :=
  foldl (step rev) useAudioStream evs.

Definition is_WsMessage (ev : event) : bool :=
  match ev with WsMessage _ _ => true | _ => false end.
Definition is_StartRecording (ev : event) : bool :=
  match ev with StartRecording => true | _ => false end.

(** [socketRef.current?.readyState === WebSocket.OPEN], as a boolean. *)
Definition socket_is_open (h : Hook) : bool :=
  match open_socket h with Some _ => true | None => false end.

(** [startRecording] has been called on an open socket: some [StartRecording]
    of the trace [evs], run from the state [h], found the socket open. *)
Fixpoint startRecording_on_open (rev : Revision) (h : Hook) (evs : list event) : bool :=
  match evs with
  | [] => false
  | ev :: evs =>
      (is_StartRecording ev && socket_is_open h)
      || startRecording_on_open rev (step rev h ev) evs
  end.

(** The [init] document is the first thing a socket has transmitted, if it has
    transmitted anything. *)
Definition init_first (ws : WebSocket) : Prop :=
  match sent ws with
  | [] => True
  | m :: _ => exists sample_rate channels,
      m = Text (JObj [("action", JStr "init"); ("sample_rate", JNum sample_rate);
                      ("channels", JNum channels)]%string)
  end.

(** ** VuMeter.tsx *)

(** [a + b] *)
Definition add (a b : number) : number := SFadd prec emax a b.

(** Lines 17-18: the fraction of the track that is filled. *)
Definition VuMeter_normalized (dbLevel : number) : number :=
  let normalized := div (add dbLevel (of_int 60)) (of_int 60) in
  Math_max (of_int 0) (Math_min (of_int 1) normalized).

(** Line 37, [ctx.fillRect(0, 0, width * normalized, height)]: the arguments of
    the call that draws the bar, for a canvas of [width] by [height]. *)
Definition VuMeter_bar (dbLevel : number) (width height : Z)
  : number * number * number * number :=
  let normalized := VuMeter_normalized dbLevel in
  (of_int 0, of_int 0, mul (of_int width) normalized, of_int height).

(** The canvas of line 49: [<canvas width={600} height={60}>]. *)
Definition canvas_width : Z := 600.
Definition canvas_height : Z := 60.

(** ** SpectrumAnalyzer.tsx *)

(** [a - b] *)
Definition sub (a b : number) : number := SFsub prec emax a b.

(** Lines 33-35 and 43: the arguments of the [fillRect] call that draws the bar
    of [value], the element at index [i]. *)
Definition SpectrumAnalyzer_bar (width height : Z) (barWidth value : number) (i : nat)
  : number * number * number * number :=
  let barHeight := mul value (of_int height) in
  let x := mul (of_int (Z.of_nat i)) barWidth in
  let y := sub (of_int height) barHeight in
  (x, y, sub barWidth (of_int 1), barHeight).

(** Lines 27-44: the [fillRect] calls that draw the bars, in order, on a canvas
    of [width] by [height]; [data] is [None] for [undefined] or [null]. *)
Definition SpectrumAnalyzer_bars (data : option (list number)) (width height : Z)
  : list (number * number * number * number) :=
  match data with
  | None => []
  | Some data =>
      if (length data =? 0)%nat then []
      else
        let barWidth := div (of_int width) (of_int (Z.of_nat (length data))) in
        imap (fun i value => SpectrumAnalyzer_bar width height barWidth value i) data
  end.

(** The canvas of line 51: [<canvas width={600} height={100}>]. *)
Definition spectrum_width : Z := 600.
Definition spectrum_height : Z := 100.

(** ** PanningViewer.tsx *)

(** [Math.PI], the binary64 number nearest to pi. *)
Definition Math_PI : number := S754_finite false 7074237752028440 (-51).

(** Lines 35 and 52-62: the arguments of
    [ctx.arc(x, y, 6, 0, 2 * Math.PI)], the indicator point. *)
Definition PanningViewer_indicator (pan : number) (width height : Z)
  : number * number * number * number * number :=
  let centerY := div (of_int height) (of_int 2) in
  let padding := of_int 20 in
  let trackWidth := sub (of_int width) (mul (of_int 2) padding) in
  let normalizedPan := div (add pan (of_int 1)) (of_int 2) in
  let x := add padding (mul normalizedPan trackWidth) in
  let y := centerY in
  (x, y, of_int 6, of_int 0, mul (of_int 2) Math_PI).

(** The canvas of line 80: [<canvas width={600} height={50}>]. *)
Definition panning_width : Z := 600.
Definition panning_height : Z := 50.

(** ** Auxiliary notions used by the statements *)

(** Neither an infinity nor NaN. *)
Definition is_finite (x : number) : bool :=
  match x with
  | S754_zero _ | S754_finite _ _ _ => true
  | _ => false
  end.

(** The second channel read by both capture paths:
    [input.length > 1 ? input[1] : inputL]. *)
Definition second_channel (input : list Float32Array) (inputL : Float32Array)
  : Float32Array :=
  if (1 <? length input)%nat then default inputL (input !! 1%nat) else inputL.

(** The interleaved buffer of [n] frames, written as a list comprehension. *)
Definition interleaved (inputL inputR : Float32Array) (n : nat) : list Z :=
  flat_map (fun i => [pcm_sample (inputL !! i); pcm_sample (inputR !! i)]) (seq 0 n).

(** What a binary64 float holding a binary32 value looks like: a full 53-bit
    mantissa whose 29 low bits are zero, and an exponent in the binary32
    range. *)
Definition binary32_in_64 (m : positive) (e : Z) : Prop :=
  Zpos (digits2_pos m) = 53 /\ (2 ^ 29 | Zpos m) /\ -201 <= e <= 75.

(** The integer the sample mapping stores for the normal float
    [(-1)^s * m * 2^e]. *)
Definition expected_sample (s : bool) (m : positive) (e : Z) : Z :=
  if -52 <=? e then (if s then -32768 else 32767)
  else if s then - (Zpos m * 32768 / 2 ^ (- e)) else Zpos m * 32767 / 2 ^ (- e).

(** What every result of a rounding looks like: never NaN, at most 53 bits. *)
Definition rounded (x : number) : Prop :=
  match x with
  | S754_nan => False
  | S754_finite _ m _ => Zpos m < 2 ^ 53
  | _ => True
  end.

(** [n] consecutive integers from [lo]. *)
Fixpoint count_up (n : nat) (lo : Z) : list Z :=
  match n with
  | O => []
  | S k => lo :: count_up k (lo + 1)
  end.

(** Every 16-bit sample, from -32768 up. *)
Definition int16_samples : list Z := count_up (Z.to_nat 65536) (-32768).

(** What the encoder stores for the decoded [sample] read from a channel. *)
Definition roundtrip32 (sample : Z) : Z :=
  pcm_sample (Some (Math_fround (decode_sample sample))).

(** The number of samples of a list that do not come back as they were. *)
Fixpoint lost_samples (samples : list Z) : Z :=
  match samples with
  | [] => 0
  | sample :: rest => (if roundtrip32 sample =? sample then 0 else 1) + lost_samples rest
  end.

(** The check of one sample, with the decoded value [x] and the binary32
    value [x32] a channel keeps of it: at double precision [sample] comes back
    as it was; [x32] is a valid finite binary32 value, and the exact reading of
    the encoder on it gives [sample] back when [sample <= 0], and [sample] or
    [sample - 1] otherwise.  The second component says whether it gives
    [sample] back. *)
Definition sweep_sample (sample : Z) : bool * bool :=
  let x := decode_sample sample in
  let x32 := narrow x in
  let r := clamp_scale_truncate (B2Q x32) in
  ((pcm_sample (Some x) =? sample) && valid_binary 24 128 x32 && is_finite x32
   && (if sample <=? 0 then r =? sample else (sample - 1 <=? r) && (r <=? sample)),
   r =? sample).

(** The check of a list of samples, counting those that do not come back. *)
Fixpoint sweep (samples : list Z) (ok : bool) (lost : Z) : bool * Z :=
  match samples with
  | [] => (ok, lost)
  | sample :: rest =>
      let '(checked, same) := sweep_sample sample in
      sweep rest (ok && checked) (if same then lost else lost + 1)
  end.

(** The four cells that only [onmessage] writes. *)
Definition meter_cells (h : Hook)
  : option json * option json * option json * option (option json * option json) :=
  (rms h, spectrum h, panning h, lastRecording h).

(** [data.type] of what [JSON.parse] returned, when that is an object. *)
Definition message_type (data : option json) : option json :=
  match data with
  | Some (JObj fields) => field "type" fields
  | _ => None
  end.

(** The invariant of a socket: nothing is transmitted before it opens, and
    what it transmits starts with [init]. *)
Definition socket_inv (ws : WebSocket) : Prop :=
  match sent ws with
  | [] => readyState ws <> OPEN
  | _ :: _ => init_first ws /\ readyState ws <> CONNECTING
  end.

Definition hook_inv (h : Hook) : Prop := Forall socket_inv (sockets h).

(** A session in which the user starts a recording before the server has sent
    anything. *)
Definition trace_startRecording : list event := [Mount; WsOpen 0; StartRecording].

(** Sample inputs: the binary32 values 0.5 and -0.25, and a frame. *)
Definition half32 : spec_float := S754_finite false 8388608 (-24).
Definition minus_quarter32 : spec_float := S754_finite true 8388608 (-25).
Definition sample_frame : list Z := [0; 1; -1; 32767; -32768; 12345].

(** ** Notions used by the properties of the wire, the sockets and the canvases *)

(** The control documents of the protocol, as the hook builds them. *)
Definition is_control_document (v : json) : Prop :=
  (exists action sample_rate channels,
      (action = "init" \/ action = "start_record")%string /\
      number_truthy sample_rate = true /\ number_truthy channels = true /\
      v = JObj [("action", JStr action); ("sample_rate", JNum sample_rate);
                ("channels", JNum channels)]%string) \/
  v = JObj [("action", JStr "stop_record")]%string \/
  (exists gain filter cutoff integrationTime,
      v = set_params gain filter cutoff integrationTime).

(** What the hook may put on the wire. *)
Definition wire_format (m : message) : Prop :=
  match m with
  | Text v => is_control_document v
  | Binary pcm => Nat.even (length pcm) = true /\ Forall (fun s => is_int16 s = true) pcm
  end.

Definition wire_inv (h : Hook) : Prop :=
  Forall (fun ws => Forall wire_format (sent ws)) (sockets h).

Definition is_MediaGranted (ev : event) : bool :=
  match ev with MediaGranted _ _ => true | _ => false end.

(** [socketRef.current] is the socket created last. *)
Definition current_is_last (h : Hook) : Prop :=
  match socketRef h with
  | None => sockets h = []
  | Some i => S i = length (sockets h)
  end.

Definition is_Binary (m : message) : bool :=
  match m with Binary _ => true | Text _ => false end.

(** Nothing captured yet: no context, no capture node, no audio frame sent. *)
Definition nothing_captured (h : Hook) : Prop :=
  audioContextRef h = None /\ capturing h = false /\
  Forall (fun ws => Forall (fun m => is_Binary m = false) (sent ws)) (sockets h).

(** The events through which the hook transmits on [socketRef.current]. *)
Definition transmits (ev : event) : bool :=
  match ev with
  | AudioBlock _ | StartRecording | StopRecording | SetSettings _ _ _ _ => true
  | _ => false
  end.

(** The numeric value of a [readyState]: a socket only moves upwards. *)
Definition lifecycle (r : ReadyState) : nat :=
  match r with CONNECTING => 0 | OPEN => 1 | CLOSING => 2 | CLOSED => 3 end.

(** What one event does to socket [i]: its state does not move back, and its
    log is as before or one message longer. *)
Definition log_step (rev : Revision) (h : Hook) (ev : event) (i : nat) (ws : WebSocket) : Prop :=
  exists ws', sockets (step rev h ev) !! i = Some ws' /\
    (lifecycle (readyState ws) <= lifecycle (readyState ws'))%nat /\
    (sent ws' = sent ws \/
     exists m, sent ws' = sent ws ++ [m] /\ readyState ws' = OPEN /\
       (ev = WsOpen i /\ readyState ws = CONNECTING \/
        transmits ev = true /\ socketRef h = Some i /\ readyState ws = OPEN)).

(** A [start_record] document, whatever its parameters. *)
Definition is_start_record (m : message) : Prop :=
  exists sample_rate channels,
    m = Text (JObj [("action", JStr "start_record"); ("sample_rate", JNum sample_rate);
                    ("channels", JNum channels)]%string).

(** A recording was requested: some socket has transmitted [start_record]. *)
Definition start_record_sent (h : Hook) : Prop :=
  exists (i : nat) (ws : WebSocket) (m : message),
    sockets h !! i = Some ws /\ In m (sent ws) /\ is_start_record m.

(** A connection was established: some socket has transmitted something. *)
Definition has_opened (h : Hook) : Prop :=
  exists (i : nat) (ws : WebSocket) (m : message), sockets h !! i = Some ws /\ In m (sent ws).

(** [lo <= x <= hi] for a finite [x] with a non-positive exponent, stated on
    integers: the mantissa against the bounds scaled by [2 ^ (- e)]. *)
Definition between (lo hi : Z) (x : number) : Prop :=
  match x with
  | S754_zero _ => lo <= 0 <= hi
  | S754_finite s m e => e <= 0 /\ lo * 2 ^ (- e) <= cond_Zopp s (Zpos m) <= hi * 2 ^ (- e)
  | _ => False
  end.

(** Zero or below: a zero of either sign, a negative number, or -Infinity. *)
Definition nonpositive (x : number) : Prop :=
  match x with
  | S754_zero _ | S754_finite true _ _ | S754_infinity true => True
  | _ => False
  end.

(** [lo <= m * 2 ^ e], on integers. *)
Definition scaled_le (lo m e : Z) : Prop :=
  if e <=? 0 then lo * 2 ^ (- e) <= m else lo <= m * 2 ^ e.

(** At least the integer [lo]: +Infinity, or a positive number not below it. *)
Definition at_least (lo : Z) (x : number) : Prop :=
  match x with
  | S754_infinity false => True
  | S754_finite false m e => scaled_le lo (Zpos m) e
  | _ => False
  end.

(** A session that captures one block: the socket opens, the microphone is
    granted, and a block of one frame (0.5 on its only channel) arrives. *)
Definition trace_capture : list event :=
  [Mount; WsOpen 0; MediaGranted (mkAudioContext (of_int 44100) (of_int 2)) true;
   AudioBlock [[Float32_to_Number half32]]].

(** The [init] document with the defaults. *)
Definition init_defaults : json :=
  JObj [("action", JStr "init"); ("sample_rate", JNum (of_int 44100));
        ("channels", JNum (of_int 2))]%string.


(** * Properties *)

(** ** The interleaving loops *)

Section Interleaving.

Variables inputL inputR : Float32Array.

Lemma interleaved_S (n : nat) :
  interleaved inputL inputR (S n)
  = interleaved inputL inputR n ++ [pcm_sample (inputL !! n); pcm_sample (inputR !! n)].
Proof.
  unfold interleaved. rewrite seq_S, flat_map_app. simpl. reflexivity.
Qed.

Lemma length_interleaved (n : nat) : length (interleaved inputL inputR n) = (n * 2)%nat.
Proof.
  induction n as [|n IH]; [reflexivity|].
  rewrite interleaved_S, length_app, IH. simpl. lia.
Qed.

Lemma interleaved_lookup (n i : nat) :
  (i < n)%nat ->
  interleaved inputL inputR n !! (2 * i)%nat = Some (pcm_sample (inputL !! i)) /\
  interleaved inputL inputR n !! (2 * i + 1)%nat = Some (pcm_sample (inputR !! i)).
Proof.
  induction n as [|n IH]; [lia|]. intros Hi.
  rewrite interleaved_S.
  destruct (decide (i = n)) as [->|Hne].
  - rewrite !lookup_app_r by (rewrite length_interleaved; lia).
    rewrite length_interleaved.
    replace (2 * n - n * 2)%nat with 0%nat by lia.
    replace (2 * n + 1 - n * 2)%nat with 1%nat by lia. split; reflexivity.
  - rewrite !lookup_app_l by (rewrite length_interleaved; lia).
    apply IH. lia.
Qed.

(** Two consecutive stores into the zero-filled rest of the buffer. *)
Lemma insert_two_tail (pre : list Z) (a b : Z) (k : nat) :
  <[S (length pre) := b]> (<[length pre := a]> (pre ++ replicate (S k * 2) 0))
  = (pre ++ [a; b]) ++ replicate (k * 2) 0.
Proof.
  simpl. rewrite insert_app_r_alt by lia. rewrite Nat.sub_diag. simpl.
  rewrite insert_app_r_alt by lia.
  replace (S (length pre) - length pre)%nat with 1%nat by lia. simpl.
  rewrite <- app_assoc. reflexivity.
Qed.

(** After [k] iterations the first [2k] slots are written, the index is
    [2k], and the rest is still zero: the loop invariant of [process]. *)
Lemma process_loop (n k : nat) :
  (k <= n)%nat ->
  foldl (process_iteration inputL inputR) (replicate (n * 2) 0, 0%nat) (seq 0 k)
  = (interleaved inputL inputR k ++ replicate ((n - k) * 2) 0, (k * 2)%nat).
Proof.
  induction k as [|k IH]; intros Hk.
  - simpl. rewrite Nat.sub_0_r. reflexivity.
  - rewrite seq_S, foldl_app, IH, interleaved_S by lia.
    cbn [foldl Nat.add]. unfold process_iteration.
    replace (n - k)%nat with (S (n - S k)) by lia.
    pose proof (insert_two_tail (interleaved inputL inputR k) (pcm_sample (inputL !! k))
                  (pcm_sample (inputR !! k)) (n - S k)) as H.
    rewrite length_interleaved in H. rewrite H.
    f_equal; lia.
Qed.

(** The same invariant for the loop of [onaudioprocess]. *)
Lemma onaudioprocess_loop (n k : nat) :
  (k <= n)%nat ->
  foldl (onaudioprocess_iteration inputL inputR) (replicate (n * 2) 0, 0%nat) (seq 0 k)
  = (interleaved inputL inputR k ++ replicate ((n - k) * 2) 0, (k * 2)%nat).
Proof.
  induction k as [|k IH]; intros Hk.
  - simpl. rewrite Nat.sub_0_r. reflexivity.
  - rewrite seq_S, foldl_app, IH, interleaved_S by lia.
    cbn [foldl Nat.add]. unfold onaudioprocess_iteration.
    replace (n - k)%nat with (S (n - S k)) by lia.
    pose proof (insert_two_tail (interleaved inputL inputR k) (pcm_sample (inputL !! k))
                  (pcm_sample (inputR !! k)) (n - S k)) as H.
    rewrite length_interleaved in H. rewrite H.
    f_equal; lia.
Qed.

End Interleaving.

Lemma interleaved_cons (l r : number) (L R : Float32Array) (n : nat) :
  interleaved (l :: L) (r :: R) (S n)
  = pcm_sample (Some l) :: pcm_sample (Some r) :: interleaved L R n.
Proof.
  unfold interleaved. cbn [seq flat_map]. rewrite <- seq_shift, flat_map_concat_map, map_map.
  rewrite <- flat_map_concat_map. reflexivity.
Qed.

(** What [process] posts. *)
Lemma process_spec (input : list Float32Array) (rest : list (list Float32Array)) :
  process (input :: rest) =
  match input !! 0%nat with
  | None => (true, None)
  | Some inputL =>
      (true, Some (interleaved inputL (second_channel input inputL) (length inputL)))
  end.
Proof.
  unfold process. simpl. destruct (input !! 0%nat) as [inputL|]; [|reflexivity].
  fold (second_channel input inputL).
  rewrite process_loop by lia. rewrite Nat.sub_diag. simpl. rewrite app_nil_r. reflexivity.
Qed.

Lemma open_socket_Some (h : Hook) (i : nat) :
  open_socket h = Some i ->
  socketRef h = Some i /\ exists ws, sockets h !! i = Some ws /\ readyState ws = OPEN.
Proof.
  unfold open_socket. destruct (socketRef h) as [j|]; [|discriminate].
  destruct (sockets h !! j) as [ws|] eqn:E; [|discriminate].
  destruct (readyState ws) eqn:R; try discriminate. intros [= <-]. eauto.
Qed.

Lemma send_open (h : Hook) (i : nat) (ws : WebSocket) (m : message) :
  sockets h !! i = Some ws -> readyState ws = OPEN ->
  send i m h = set_sockets (<[i := mkWebSocket OPEN (sent ws ++ [m])]> (sockets h)) h.
Proof. intros E R. unfold send. rewrite E, R. reflexivity. Qed.

(** What [onaudioprocess] sends. *)
Lemma onaudioprocess_spec (input : list Float32Array) (h : Hook) :
  onaudioprocess input h =
  match open_socket h, input !! 0%nat with
  | Some current, Some inputL =>
      if (length inputL =? length (second_channel input inputL))%nat
      then send current (Binary (interleaved inputL (second_channel input inputL)
                                             (length inputL))) h
      else h
  | _, _ => h
  end.
Proof.
  unfold onaudioprocess, second_channel.
  destruct (open_socket h) as [current|]; [|reflexivity].
  destruct (input !! 0%nat) as [inputL|]; [|reflexivity].
  set (inputR := if (1 <? length input)%nat then default inputL (input !! 1%nat) else inputL).
  destruct (length inputL =? length inputR)%nat; [|reflexivity].
  cbn [negb]. rewrite onaudioprocess_loop by lia.
  rewrite Nat.sub_diag. cbn [Nat.mul replicate]. rewrite app_nil_r. reflexivity.
Qed.

(** Whatever is stored is a 16-bit value. *)
Lemma ToInt16_range (x : number) : is_int16 (ToInt16 x) = true.
Proof.
  unfold is_int16, ToInt16. apply andb_true_iff.
  destruct x as [s|s| |s m e]; try (split; reflexivity).
  generalize (truncate (S754_finite s m e)). intros t.
  destruct (Z.leb_spec 32768 (t mod 65536)); rewrite Z.leb_le, Z.leb_le;
    Z.div_mod_to_equations; lia.
Qed.

Lemma pcm_sample_int16 (v : option number) : is_int16 (pcm_sample v) = true.
Proof. apply ToInt16_range. Qed.

Lemma interleaved_int16 (inputL inputR : Float32Array) (n : nat) :
  Forall (fun s => is_int16 s = true) (interleaved inputL inputR n).
Proof.
  induction n as [|n IH]; [constructor|].
  rewrite interleaved_S. apply Forall_app. split; [exact IH|].
  repeat constructor; apply pcm_sample_int16.
Qed.

(** ** The buffers the two capture paths emit *)




(** C4.  When the capture source provides a single channel [inputL], both
    paths fill the L slot and the R slot of every frame with the same sample:
    [process] posts, and on an open socket both the worklet path and
    [onaudioprocess] send, the buffer whose index [2i] and index [2i + 1] both
    hold the encoding of [inputL[i]]; when the socket is not open nothing is
    sent. *)
Theorem mono_is_duplicated (inputL : Float32Array) (rest : list (list Float32Array))
    (h : Hook) :
  exists pcm : list Z,
    process ([inputL] :: rest) = (true, Some pcm) /\
    worklet_block [inputL] h =
      match open_socket h with
      | Some current => send current (Binary pcm) h
      | None => h
      end /\
    onaudioprocess [inputL] h =
      match open_socket h with
      | Some current => send current (Binary pcm) h
      | None => h
      end /\
    length pcm = (2 * length inputL)%nat /\
    forall i, (i < length inputL)%nat ->
              pcm !! (2 * i)%nat = Some (pcm_sample (inputL !! i)) /\
              pcm !! (2 * i + 1)%nat = Some (pcm_sample (inputL !! i)).
Proof.
  exists (interleaved inputL inputL (length inputL)).
  split; [rewrite process_spec; reflexivity|]. split; [|split; [|split]].
  - unfold worklet_block. rewrite process_spec. reflexivity.
  - rewrite onaudioprocess_spec. cbn [lookup list_lookup]. unfold second_channel.
    cbn [length Nat.ltb Nat.leb]. rewrite Nat.eqb_refl. reflexivity.
  - rewrite length_interleaved. lia.
  - intros i Hi. apply interleaved_lookup. exact Hi.
Qed.

Lemma mono_is_duplicated_witness :
  exists pcm : list Z,
    process [[[of_int 1; of_int (-1)]]] = (true, Some pcm) /\
    onaudioprocess [[of_int 1; of_int (-1)]] (run ScriptProcessor [Mount; WsOpen 0])
    = send 0 (Binary pcm) (run ScriptProcessor [Mount; WsOpen 0]) /\
    pcm !! 2%nat = Some (pcm_sample (Some (of_int (-1)))) /\
    pcm !! 3%nat = Some (pcm_sample (Some (of_int (-1)))).
Proof.
  destruct (mono_is_duplicated [of_int 1; of_int (-1)] []
              (run ScriptProcessor [Mount; WsOpen 0]))
    as (pcm & Hp & _ & Hs & _ & Hi).
  exists pcm. split; [exact Hp|]. split; [exact Hs|]. apply (Hi 1%nat). simpl. lia.
Defined.

(** C8.  On a pair of channels of equal length the handler of the
    ScriptProcessorNode revision and the AudioWorklet path (the worklet's
    [process] followed by [port.onmessage]) do the same thing to the session:
    nothing when the socket is not open, and otherwise both send the one buffer
    that [process] posts. *)
Theorem capture_paths_agree (inputL inputR : Float32Array) (h : Hook) :
  length inputL = length inputR ->
  onaudioprocess [inputL; inputR] h = worklet_block [inputL; inputR] h /\
  exists pcm : list Z,
    process [[inputL; inputR]] = (true, Some pcm) /\
    forall current, open_socket h = Some current ->
      onaudioprocess [inputL; inputR] h = send current (Binary pcm) h /\
      worklet_block [inputL; inputR] h = send current (Binary pcm) h.
Proof.
  intros Hlen.
  assert (Hs : onaudioprocess [inputL; inputR] h =
               match open_socket h with
               | Some current =>
                   send current (Binary (interleaved inputL inputR (length inputL))) h
               | None => h
               end).
  { rewrite onaudioprocess_spec. cbn [lookup list_lookup]. unfold second_channel.
    cbn [length Nat.ltb Nat.leb lookup list_lookup default]. rewrite Hlen, Nat.eqb_refl.
    reflexivity. }
  assert (Hw : worklet_block [inputL; inputR] h =
               match open_socket h with
               | Some current =>
                   send current (Binary (interleaved inputL inputR (length inputL))) h
               | None => h
               end).
  { unfold worklet_block. rewrite process_spec. cbn [lookup list_lookup].
    unfold second_channel, port_onmessage. reflexivity. }
  split; [rewrite Hs, Hw; reflexivity|].
  exists (interleaved inputL inputR (length inputL)). split.
  - rewrite process_spec. reflexivity.
  - intros current Ho. rewrite Hs, Hw, Ho. split; reflexivity.
Qed.

Lemma capture_paths_agree_witness :
  length [of_int 1; of_int 0] = length [of_int (-1); of_int 1] /\
  onaudioprocess [[of_int 1; of_int 0]; [of_int (-1); of_int 1]]
                 (run ScriptProcessor [Mount; WsOpen 0])
  = worklet_block [[of_int 1; of_int 0]; [of_int (-1); of_int 1]]
                  (run ScriptProcessor [Mount; WsOpen 0]).
Proof.
  split; [reflexivity|].
  apply (capture_paths_agree [of_int 1; of_int 0] [of_int (-1); of_int 1]
           (run ScriptProcessor [Mount; WsOpen 0])).
  reflexivity.
Defined.

(** ** The session hook *)

(** Unfolds the handlers down to record constructions. *)
Ltac unfold_handlers :=
  unfold step, startRecording, stopRecording, setSettings, onaudioprocess, worklet_block,
    port_onmessage, onopen, onclose, onmessage, connectWebSocket, send,
    setIsConnected, setIsRecording, setRms, setSpectrum, setPanning, setLastRecording,
    set_sockets, set_socketRef, set_audioContextRef, set_capturing in *.

(** Splits on every scrutinee of the goal. *)
Ltac split_cases :=
  repeat match goal with
         | |- context [match ?x with _ => _ end] => destruct x eqn:?
         | |- context [if ?x then _ else _] => destruct x eqn:?
         end.

Lemma run_app (rev : Revision) (evs : list event) (ev : event) :
  run rev (evs ++ [ev]) = step rev (run rev evs) ev.
Proof. unfold run. rewrite foldl_app. reflexivity. Qed.

(** Only an incoming message writes the meter cells. *)
Lemma step_meter_cells (rev : Revision) (h : Hook) (ev : event) :
  is_WsMessage ev = false -> meter_cells (step rev h ev) = meter_cells h.
Proof.
  intros Hev. destruct ev; try discriminate Hev; unfold meter_cells.
  all: unfold_handlers; split_cases; reflexivity.
Qed.

(** Only an incoming message or [startRecording] can leave [isRecording]
    other than [false]. *)
Lemma step_isRecording (rev : Revision) (h : Hook) (ev : event) :
  is_WsMessage ev = false -> is_StartRecording ev = false ->
  isRecording h = false -> isRecording (step rev h ev) = false.
Proof.
  intros Hev Hsr Hrec. destruct ev; try discriminate Hev; try discriminate Hsr.
  all: unfold_handlers; split_cases; cbn; assumption.
Qed.

(** Without an incoming message, [isRecording] changes in one way only: a
    call of [startRecording] that finds the socket open sets it. *)
Lemma step_isRecording_started (rev : Revision) (h : Hook) (ev : event) :
  is_WsMessage ev = false ->
  isRecording (step rev h ev)
  = isRecording h || (is_StartRecording ev && socket_is_open h).
Proof.
  intros Hev. destruct ev; try discriminate Hev; cbn [is_StartRecording andb].
  all: rewrite ?orb_false_r; try (unfold_handlers; split_cases; reflexivity).
  cbn [step]. unfold startRecording, socket_is_open. destruct (open_socket h); cbn.
  - symmetry. apply orb_true_r.
  - symmetry. apply orb_false_r.
Qed.

Lemma foldl_isRecording_started (rev : Revision) (evs : list event) (h : Hook) :
  forallb (fun ev => negb (is_WsMessage ev)) evs = true ->
  isRecording (foldl (step rev) h evs)
  = isRecording h || startRecording_on_open rev h evs.
Proof.
  revert h. induction evs as [|ev evs IH]; intros h Hmsg.
  - cbn. rewrite orb_false_r. reflexivity.
  - cbn [forallb] in Hmsg. apply andb_true_iff in Hmsg as [Hev Hmsg].
    apply negb_true_iff in Hev. cbn [foldl startRecording_on_open].
    rewrite IH by exact Hmsg. rewrite step_isRecording_started by exact Hev.
    rewrite orb_assoc. reflexivity.
Qed.

Lemma startRecording_on_open_never (rev : Revision) (evs : list event) (h : Hook) :
  forallb (fun ev => negb (is_StartRecording ev)) evs = true ->
  startRecording_on_open rev h evs = false.
Proof.
  revert h. induction evs as [|ev evs IH]; intros h Hsr; [reflexivity|].
  cbn [forallb] in Hsr. apply andb_true_iff in Hsr as [Hev Hsr].
  apply negb_true_iff in Hev. cbn [startRecording_on_open].
  rewrite Hev, IH by exact Hsr. reflexivity.
Qed.

(** C9, as amended.  As long as no message has been received from the server
    the hook reports rms = -100, panning = 0, spectrum = [] and
    lastRecording = null; and isRecording is [true] exactly when
    [startRecording] has been called on an open socket: it is [false] until
    then (in particular as long as [startRecording] has not been called at
    all, or only while the socket was not open), and [true] from then on. *)
Theorem initial_values_until_first_message (rev : Revision) (evs : list event) :
  forallb (fun ev => negb (is_WsMessage ev)) evs = true ->
  let h := run rev evs in
  rms h = Some (JNum (of_int (-100))) /\
  panning h = Some (JNum (of_int 0)) /\
  spectrum h = Some (JArr []) /\
  lastRecording h = None /\
  isRecording h = startRecording_on_open rev useAudioStream evs /\
  (forallb (fun ev => negb (is_StartRecording ev)) evs = true -> isRecording h = false).
Proof.
  intros Hmsg h.
  assert (Hrec : isRecording h = startRecording_on_open rev useAudioStream evs)
    by (unfold h, run; rewrite foldl_isRecording_started by exact Hmsg; reflexivity).
  assert (Hcells : meter_cells h = meter_cells useAudioStream).
  { unfold h. clear Hrec h. induction evs as [|ev evs IH] using rev_ind; [reflexivity|].
    rewrite forallb_app in Hmsg. apply andb_true_iff in Hmsg as [Hmsg Hev].
    cbn in Hev. rewrite andb_true_r in Hev. apply negb_true_iff in Hev.
    rewrite run_app, step_meter_cells by exact Hev. apply IH, Hmsg. }
  unfold meter_cells in Hcells. injection Hcells as -> -> -> ->.
  repeat split; try reflexivity; [exact Hrec|].
  intros Hsr. rewrite Hrec. apply startRecording_on_open_never, Hsr.
Qed.

Lemma initial_values_until_first_message_witness :
  forallb (fun ev => negb (is_WsMessage ev)) [Mount; StartRecording; WsOpen 0; StopRecording]
  = true /\
  rms (run AudioWorklet [Mount; StartRecording; WsOpen 0; StopRecording])
  = Some (JNum (of_int (-100))) /\
  isRecording (run AudioWorklet [Mount; StartRecording; WsOpen 0; StopRecording]) = false.
Proof.
  split; [reflexivity|].
  destruct (initial_values_until_first_message AudioWorklet
              [Mount; StartRecording; WsOpen 0; StopRecording] eq_refl)
    as (Hr & _ & _ & _ & Hrec & _).
  split; [exact Hr|]. rewrite Hrec. reflexivity.
Defined.

(** C9, as stated, fails: after mount, connection and a call of
    [startRecording], no message has been received from the server and
    isRecording is [true] (in both revisions of the hook). *)
Lemma isRecording_before_any_message :
  forallb (fun ev => negb (is_WsMessage ev)) trace_startRecording = true /\
  isRecording (run ScriptProcessor trace_startRecording) = true /\
  isRecording (run AudioWorklet trace_startRecording) = true.
Proof. vm_compute. repeat split. Qed.

(** *** Nothing is transmitted before [init] *)

Lemma socket_inv_init_first (ws : WebSocket) : socket_inv ws -> init_first ws.
Proof.
  unfold socket_inv, init_first. destruct (sent ws); [trivial|]. intros [H _]. exact H.
Qed.

Lemma socket_inv_connecting (ws : WebSocket) :
  socket_inv ws -> readyState ws = CONNECTING -> sent ws = [].
Proof.
  unfold socket_inv. destruct (sent ws); [reflexivity|]. intros [_ H] E. contradiction.
Qed.

Lemma send_inv (i : nat) (m : message) (h : Hook) : hook_inv h -> hook_inv (send i m h).
Proof.
  unfold hook_inv, send. intros H.
  destruct (sockets h !! i) as [ws|] eqn:E; [|exact H].
  destruct (readyState ws) eqn:R; try exact H. cbn.
  apply Forall_insert; [exact H|].
  pose proof (proj1 (Forall_lookup _ _) H i ws E) as Hws.
  unfold socket_inv, init_first in *. cbn. destruct (sent ws) as [|m0 l]; cbn.
  - congruence.
  - destruct Hws as [Hi _]. split; [exact Hi|discriminate].
Qed.

Lemma onmessage_sockets (data : option json) (h : Hook) :
  sockets (onmessage data h) = sockets h.
Proof. unfold onmessage. split_cases; reflexivity. Qed.

Lemma connectWebSocket_inv (h : Hook) : hook_inv h -> hook_inv (connectWebSocket h).
Proof.
  unfold hook_inv, connectWebSocket. intros H. destruct (open_socket h); [exact H|]. cbn.
  apply Forall_app. split; [exact H|]. constructor; [|constructor]. cbn. discriminate.
Qed.

Lemma onaudioprocess_inv (input : list Float32Array) (h : Hook) :
  hook_inv h -> hook_inv (onaudioprocess input h).
Proof.
  intros H. unfold onaudioprocess. split_cases; try exact H. apply send_inv, H.
Qed.

Lemma worklet_block_inv (input : list Float32Array) (h : Hook) :
  hook_inv h -> hook_inv (worklet_block input h).
Proof.
  intros H. unfold worklet_block, port_onmessage. split_cases; try exact H. apply send_inv, H.
Qed.

(** Every event preserves the socket invariant. *)
Lemma step_inv (rev : Revision) (h : Hook) (ev : event) :
  hook_inv h -> hook_inv (step rev h ev).
Proof.
  intros H. destruct ev; cbn [step].
  - apply connectWebSocket_inv, H.
  - unfold hook_inv in *. destruct (socketRef h) as [i|]; cbn; [|exact H].
    apply Forall_alter; [exact H|]. intros ws Hlook Hws.
    unfold close. destruct (readyState ws) eqn:R; try exact Hws.
    all: unfold socket_inv, init_first in *; cbn; rewrite R in Hws.
    all: destruct (sent ws); [discriminate|]; destruct Hws as [Hi Hc].
    all: split; [exact Hi|discriminate].
  - destruct (sockets h !! i) as [ws|] eqn:E; [|exact H].
    destruct (readyState ws) eqn:R; try exact H.
    pose proof (proj1 (Forall_lookup _ _) H i ws E) as Hws.
    pose proof (socket_inv_connecting ws Hws R) as Hsent.
    unfold onopen, send. cbn. rewrite list_lookup_insert_eq by (eapply lookup_lt_Some; exact E).
    cbn. unfold hook_inv. cbn. rewrite list_insert_insert_eq.
    apply Forall_insert; [exact H|]. rewrite Hsent. unfold socket_inv, init_first. cbn.
    split; [|discriminate]. eexists _, _. reflexivity.
  - destruct (sockets h !! i) as [ws|] eqn:E; [|exact H].
    pose proof (proj1 (Forall_lookup _ _) H i ws E) as Hws.
    assert (Hclosed : hook_inv (onclose (set_sockets
                                 (<[i:=set_readyState CLOSED ws]> (sockets h)) h))).
    { unfold hook_inv. cbn. apply Forall_insert; [exact H|].
      unfold socket_inv, init_first in *. cbn. destruct (sent ws); [discriminate|].
      destruct Hws as [Hi _]. split; [exact Hi|discriminate]. }
    destruct (readyState ws); try exact Hclosed. exact H.
  - destruct (sockets h !! i) as [ws|]; [|exact H].
    destruct (readyState ws); try exact H; unfold hook_inv; rewrite onmessage_sockets; exact H.
  - destruct (socketRef h); [exact H|]. apply connectWebSocket_inv, H.
  - destruct rev; [|destruct loaded]; exact H.
  - destruct (capturing h); [|exact H].
    destruct rev; [apply onaudioprocess_inv|apply worklet_block_inv]; exact H.
  - unfold startRecording. destruct (open_socket h); [|exact H].
    unfold hook_inv. cbn. apply send_inv, H.
  - unfold stopRecording. destruct (open_socket h); [|exact H]. apply send_inv, H.
  - unfold setSettings. destruct (open_socket h); [|exact H]. apply send_inv, H.
Qed.

Lemma run_inv (rev : Revision) (evs : list event) : hook_inv (run rev evs).
Proof.
  induction evs as [|ev evs IH] using rev_ind.
  - constructor.
  - rewrite run_app. apply step_inv, IH.
Qed.

(** C5.  In every state the hook can reach (either revision, any sequence of
    events), every WebSocket that has transmitted anything has transmitted the
    [init] document first; and when a connecting socket opens, its [onopen]
    makes [init], with its [sample_rate] and [channels] fields, the one message
    transmitted so far on it. *)
Theorem init_is_first_message (rev : Revision) (evs : list event) (i : nat)
    (ws : WebSocket) :
  sockets (run rev evs) !! i = Some ws ->
  init_first ws /\
  (readyState ws = CONNECTING ->
   exists sample_rate channels,
     sockets (step rev (run rev evs) (WsOpen i)) !! i =
     Some (mkWebSocket OPEN
             [Text (JObj [("action", JStr "init"); ("sample_rate", JNum sample_rate);
                          ("channels", JNum channels)]%string)])).
Proof.
  intros E. pose proof (proj1 (Forall_lookup _ _) (run_inv rev evs) i ws E) as Hws.
  split; [apply socket_inv_init_first, Hws|]. intros R.
  pose proof (socket_inv_connecting ws Hws R) as Hsent.
  cbn [step]. rewrite E, R. unfold onopen, send. cbn.
  rewrite list_lookup_insert_eq by (eapply lookup_lt_Some; exact E). cbn.
  rewrite list_insert_insert_eq, list_lookup_insert_eq by (eapply lookup_lt_Some; exact E).
  rewrite Hsent. eexists _, _. reflexivity.
Qed.

Lemma init_is_first_message_witness :
  sockets (run ScriptProcessor [Mount]) !! 0%nat = Some (mkWebSocket CONNECTING []) /\
  init_first (mkWebSocket CONNECTING []) /\
  exists sample_rate channels,
    sockets (step ScriptProcessor (run ScriptProcessor [Mount]) (WsOpen 0)) !! 0%nat =
    Some (mkWebSocket OPEN
            [Text (JObj [("action", JStr "init"); ("sample_rate", JNum sample_rate);
                         ("channels", JNum channels)]%string)]).
Proof.
  split; [reflexivity|].
  destruct (init_is_first_message ScriptProcessor [Mount] 0 (mkWebSocket CONNECTING [])
              eq_refl) as [Hfirst Hopen].
  split; [exact Hfirst|]. apply Hopen. reflexivity.
Defined.






(** ** Binary64 rounding *)

Section Rounding.

(** *** Digits *)

Lemma digits2_pos_bounds (p : positive) :
  2 ^ (Zpos (digits2_pos p) - 1) <= Zpos p < 2 ^ Zpos (digits2_pos p).
Proof.
  induction p as [p IH|p IH|]; cbn [digits2_pos]; [| |simpl; lia].
  all: rewrite Pos2Z.inj_succ; assert (Hd : 0 < Zpos (digits2_pos p)) by lia.
  all: revert IH Hd; generalize (Zpos (digits2_pos p)); intros d IH Hd.
  all: replace (Z.succ d - 1) with d by lia.
  all: replace (2 ^ Z.succ d) with (2 * 2 ^ d) by (rewrite Z.pow_succ_r; lia).
  all: assert (E : 2 ^ d = 2 * 2 ^ (d - 1))
         by (rewrite <- Z.pow_succ_r by lia; f_equal; lia).
  - rewrite (Pos2Z.inj_xI p). lia.
  - rewrite (Pos2Z.inj_xO p). lia.
Qed.

Lemma digits2_pos_unique (p : positive) (d : Z) :
  2 ^ (d - 1) <= Zpos p < 2 ^ d -> Zpos (digits2_pos p) = d.
Proof.
  intros [Hlo Hhi]. pose proof (digits2_pos_bounds p) as [Hlo' Hhi'].
  assert (0 < d).
  { destruct (Z_lt_le_dec 0 d); [assumption|].
    assert (2 ^ d <= 2 ^ 0)
      by (destruct (Z_lt_le_dec d 0);
          [rewrite Z.pow_neg_r by lia; simpl; lia | apply Z.pow_le_mono_r; lia]).
    simpl in *. lia. }
  destruct (Z_lt_le_dec (Zpos (digits2_pos p)) d) as [Hlt|Hge].
  - assert (2 ^ Zpos (digits2_pos p) <= 2 ^ (d - 1)) by (apply Z.pow_le_mono_r; lia). lia.
  - destruct (Z_lt_le_dec d (Zpos (digits2_pos p))) as [Hlt|Hge']; [|lia].
    assert (2 ^ d <= 2 ^ (Zpos (digits2_pos p) - 1)) by (apply Z.pow_le_mono_r; lia). lia.
Qed.

Lemma Zdigits2_mul_pow2 (a : positive) (n : Z) :
  0 <= n -> Zdigits2 (Zpos a * 2 ^ n) = Zpos (digits2_pos a) + n.
Proof.
  intros Hn. pose proof (digits2_pos_bounds a) as [Hlo Hhi].
  assert (Hp : 0 < 2 ^ n) by (apply Z.pow_pos_nonneg; lia).
  destruct (Zpos a * 2 ^ n) as [|q|q] eqn:E; try lia.
  cbn [Zdigits2]. apply digits2_pos_unique. rewrite <- E.
  replace (Zpos (digits2_pos a) + n - 1) with (Zpos (digits2_pos a) - 1 + n) by lia.
  rewrite !Z.pow_add_r by lia.
  split; [apply Z.mul_le_mono_nonneg_r; lia | apply Z.mul_lt_mono_pos_r; lia].
Qed.

Lemma Zdigits2_bound (m : Z) : 0 <= m -> 0 <= Zdigits2 m /\ m < 2 ^ Zdigits2 m.
Proof.
  intros Hm. destruct m as [|p|p]; try lia; cbn [Zdigits2].
  - cbn. lia.
  - pose proof (digits2_pos_bounds p). lia.
Qed.

Lemma Zdigits2_le (m k : Z) : 0 <= m -> 0 <= k -> m < 2 ^ k -> Zdigits2 m <= k.
Proof.
  intros Hm Hk Hlt. destruct m as [|p|p]; try lia; cbn [Zdigits2]; [lia|].
  pose proof (digits2_pos_bounds p) as [Hlo _].
  destruct (Z_le_gt_dec (Zpos (digits2_pos p)) k) as [|Hgt]; [assumption|exfalso].
  assert (2 ^ k <= 2 ^ (Zpos (digits2_pos p) - 1)) by (apply Z.pow_le_mono_r; lia). lia.
Qed.

Lemma pow2_pos (k : Z) : 0 <= k -> 0 < 2 ^ k.
Proof. intros. apply Z.pow_pos_nonneg; lia. Qed.

(** A bound of the form [c * 2 ^ k], [c <= 1024], bounds the digits. *)
Lemma Zdigits2_scaled (m c k : Z) :
  0 <= m -> 0 <= k -> c <= 1024 -> m <= c * 2 ^ k -> Zdigits2 m <= 11 + k.
Proof.
  intros Hm Hk Hc Hle. apply Zdigits2_le; [lia|lia|].
  rewrite Z.pow_add_r by lia. change (2 ^ 11) with 2048.
  pose proof (pow2_pos k Hk). nia.
Qed.

(** *** Right shifts *)

Lemma iter_pos_nat {A} (f : A -> A) (p : positive) (x : A) :
  SpecFloat.iter_pos f p x = Nat.iter (Pos.to_nat p) f x.
Proof.
  revert x. induction p as [p IH|p IH|]; intros x; cbn [SpecFloat.iter_pos].
  - rewrite !IH, Pos2Nat.inj_xI. rewrite <- Nat.iter_add, <- Nat.iter_succ_r. f_equal. lia.
  - rewrite !IH, Pos2Nat.inj_xO. rewrite <- Nat.iter_add. f_equal. lia.
  - reflexivity.
Qed.

Lemma shr_1_exact (m : Z) :
  0 <= m -> shr_1 (Build_shr_record (2 * m) false false) = Build_shr_record m false false.
Proof.
  intros Hm. destruct m as [|p|p]; try lia; reflexivity.
Qed.

Lemma shr_iter_exact (n : nat) (m : Z) :
  0 <= m ->
  Nat.iter n shr_1 (Build_shr_record (m * 2 ^ Z.of_nat n) false false)
  = Build_shr_record m false false.
Proof.
  revert m. induction n as [|n IH]; intros m Hm.
  - simpl. f_equal. lia.
  - rewrite Nat.iter_succ_r. rewrite Nat2Z.inj_succ, Z.pow_succ_r by lia.
    replace (m * (2 * 2 ^ Z.of_nat n)) with (2 * (m * 2 ^ Z.of_nat n)) by lia.
    rewrite shr_1_exact by (apply Z.mul_nonneg_nonneg; [lia | apply Z.pow_nonneg; lia]).
    apply IH. assumption.
Qed.

(** Shifting out [n] zero bits loses nothing. *)
Lemma shr_exact (m e n : Z) :
  0 <= m -> 0 <= n ->
  shr (Build_shr_record (m * 2 ^ n) false false) e n
  = (Build_shr_record m false false, e + n).
Proof.
  intros Hm Hn. destruct n as [|p|p]; try lia.
  - simpl. rewrite Z.mul_1_r, Z.add_0_r. reflexivity.
  - cbn [shr]. rewrite iter_pos_nat.
    rewrite <- (positive_nat_Z p) at 1. rewrite shr_iter_exact by assumption. reflexivity.
Qed.

Lemma shr_1_m (mrs : shr_record) :
  0 <= shr_m mrs -> shr_m (shr_1 mrs) = shr_m mrs / 2.
Proof.
  destruct mrs as [m r s]. cbn [shr_m]. intros Hm.
  destruct m as [|[p|p|]|p]; try lia; cbn [shr_1 shr_m].
  - reflexivity.
  - rewrite (Pos2Z.inj_xI p). apply (Z.div_unique _ 2 _ 1); lia.
  - rewrite (Pos2Z.inj_xO p). apply (Z.div_unique _ 2 _ 0); lia.
  - reflexivity.
Qed.

Lemma shr_iter_m (n : nat) (mrs : shr_record) :
  0 <= shr_m mrs -> shr_m (Nat.iter n shr_1 mrs) = shr_m mrs / 2 ^ Z.of_nat n.
Proof.
  intros Hm. induction n as [|n IH].
  - cbn. rewrite Z.div_1_r. reflexivity.
  - rewrite Nat.iter_succ, shr_1_m.
    + rewrite IH, Nat2Z.inj_succ, Z.pow_succ_r, Z.div_div
        by (try apply Z.pow_pos_nonneg; lia).
      f_equal. lia.
    + rewrite IH. apply Z.div_pos; [exact Hm|apply Z.pow_pos_nonneg; lia].
Qed.

(** In general a shift divides the mantissa, rounding down. *)
Lemma shr_m_spec (mrs : shr_record) (e n : Z) :
  0 <= shr_m mrs ->
  shr_m (fst (shr mrs e n)) = shr_m mrs / 2 ^ Z.max n 0 /\
  snd (shr mrs e n) = e + Z.max n 0.
Proof.
  intros Hm. destruct n as [|p|p]; cbn [shr fst snd].
  - cbn. rewrite Z.div_1_r. split; [reflexivity|lia].
  - rewrite iter_pos_nat, shr_iter_m, positive_nat_Z by exact Hm.
    rewrite Z.max_l by lia. split; reflexivity.
  - rewrite Z.max_r by lia. cbn. rewrite Z.div_1_r. split; [reflexivity|lia].
Qed.

Lemma shr_record_of_loc_m (m : Z) (l : location) : shr_m (shr_record_of_loc m l) = m.
Proof. destruct l as [|[]]; reflexivity. Qed.

Lemma round_nearest_even_bounds (m : Z) (l : location) :
  m <= round_nearest_even m l <= m + 1.
Proof.
  unfold round_nearest_even. destruct l as [|[]]; try lia. destruct (Z.even m); lia.
Qed.

(** *** [binary_round_aux] *)

(** A mantissa that is a canonical one shifted left is not rounded. *)
Lemma binary_round_aux_exact (sx : bool) (a : positive) (e n : Z) :
  0 <= n ->
  fexp prec emax (Zpos (digits2_pos a) + e) = e ->
  e <= emax - prec ->
  binary_round_aux prec emax sx (Zpos a * 2 ^ n) (e - n) loc_Exact = S754_finite sx a e.
Proof.
  intros Hn Hcan Hmax. unfold binary_round_aux, shr_fexp.
  rewrite Zdigits2_mul_pow2 by assumption.
  replace (Zpos (digits2_pos a) + n + (e - n)) with (Zpos (digits2_pos a) + e) by lia.
  rewrite Hcan. replace (e - (e - n)) with n by lia.
  cbn [shr_record_of_loc]. rewrite shr_exact by lia.
  cbn [shr_m loc_of_shr_record round_nearest_even Zdigits2].
  replace (e - n + n) with e by lia. rewrite Hcan, Z.sub_diag. cbn [shr shr_m].
  apply Z.leb_le in Hmax. rewrite Hmax. reflexivity.
Qed.

(** The two shifts and the rounding of [binary_round_aux], seen on the
    mantissa: [m1] is the rounded mantissa after the first shift. *)
Lemma binary_round_aux_spec (sx : bool) (mx ex : Z) (lx : location) :
  0 <= mx ->
  let n1 := Z.max (fexp prec emax (Zdigits2 mx + ex) - ex) 0 in
  let e1 := ex + n1 in
  exists m1 : Z,
    mx / 2 ^ n1 <= m1 <= mx / 2 ^ n1 + 1 /\
    let n2 := Z.max (fexp prec emax (Zdigits2 m1 + e1) - e1) 0 in
    binary_round_aux prec emax sx mx ex lx =
    match m1 / 2 ^ n2 with
    | Z0 => S754_zero sx
    | Zpos m => if e1 + n2 <=? emax - prec then S754_finite sx m (e1 + n2)
                else S754_infinity sx
    | Zneg _ => S754_nan
    end.
Proof.
  intros Hmx n1 e1. unfold binary_round_aux, shr_fexp.
  pose proof (shr_m_spec (shr_record_of_loc mx lx) ex
                (fexp prec emax (Zdigits2 mx + ex) - ex)) as H1.
  rewrite shr_record_of_loc_m in H1. specialize (H1 Hmx). fold n1 in H1.
  destruct (shr (shr_record_of_loc mx lx) ex (fexp prec emax (Zdigits2 mx + ex) - ex))
    as [mrs1 e1'] eqn:E1.
  cbn [fst snd] in H1. destruct H1 as [Hm1 He1]. fold e1 in He1. subst e1'.
  set (m1 := round_nearest_even (shr_m mrs1) (loc_of_shr_record mrs1)).
  exists m1.
  pose proof (round_nearest_even_bounds (shr_m mrs1) (loc_of_shr_record mrs1)) as Hb.
  fold m1 in Hb. rewrite Hm1 in Hb. split; [exact Hb|].
  assert (Hm1pos : 0 <= m1).
  { assert (0 <= mx / 2 ^ n1) by (apply Z.div_pos; [lia|apply Z.pow_pos_nonneg; lia]).
    lia. }
  cbn zeta.
  pose proof (shr_m_spec (shr_record_of_loc m1 loc_Exact) e1
                (fexp prec emax (Zdigits2 m1 + e1) - e1)) as H2.
  rewrite shr_record_of_loc_m in H2. specialize (H2 Hm1pos).
  destruct (shr (shr_record_of_loc m1 loc_Exact) e1
              (fexp prec emax (Zdigits2 m1 + e1) - e1)) as [mrs2 e2] eqn:E2.
  cbn [fst snd] in H2. destruct H2 as [Hm2 He2].
  rewrite Hm2, He2. reflexivity.
Qed.

(** Whatever is rounded comes out with at most 53 bits, and is not NaN. *)
Lemma binary_round_aux_rounded (sx : bool) (mx ex : Z) (lx : location) :
  0 <= mx -> rounded (binary_round_aux prec emax sx mx ex lx).
Proof.
  intros Hmx. destruct (binary_round_aux_spec sx mx ex lx Hmx) as (m1 & Hm1 & ->).
  assert (Hm1pos : 0 <= m1).
  { assert (0 <= mx / 2 ^ Z.max (fexp prec emax (Zdigits2 mx + ex) - ex) 0)
      by (apply Z.div_pos; [lia|apply Z.pow_pos_nonneg; lia]). lia. }
  set (e1 := ex + Z.max (fexp prec emax (Zdigits2 mx + ex) - ex) 0).
  set (n2 := Z.max (fexp prec emax (Zdigits2 m1 + e1) - e1) 0).
  assert (Hn2 : 0 <= n2 /\ Zdigits2 m1 - 53 <= n2) by (unfold n2, fexp, prec; lia).
  assert (Hq : 0 <= m1 / 2 ^ n2 < 2 ^ 53).
  { split; [apply Z.div_pos; [lia|apply Z.pow_pos_nonneg; lia]|].
    apply Z.div_lt_upper_bound; [apply Z.pow_pos_nonneg; lia|].
    destruct (Zdigits2_bound m1 Hm1pos) as [Hd0 Hd].
    rewrite <- Z.pow_add_r by lia.
    assert (2 ^ Zdigits2 m1 <= 2 ^ (n2 + 53)) by (apply Z.pow_le_mono_r; lia). lia. }
  destruct (m1 / 2 ^ n2) as [|q|q]; cbn [rounded]; try lia.
  destruct (e1 + n2 <=? emax - prec); cbn [rounded]; [lia|trivial].
Qed.

Lemma binary_round_rounded (sx : bool) (mx : positive) (ex : Z) :
  rounded (binary_round prec emax sx mx ex).
Proof.
  unfold binary_round. destruct (shl_align mx ex _) as [mz ez].
  apply binary_round_aux_rounded. lia.
Qed.

End Rounding.

(** ** The literals of the source *)

Lemma of_int_1 : of_int 1 = S754_finite false 4503599627370496 (-52).
Proof. vm_compute. reflexivity. Qed.
Lemma of_int_m1 : of_int (-1) = S754_finite true 4503599627370496 (-52).
Proof. vm_compute. reflexivity. Qed.
Lemma of_int_0 : of_int 0 = S754_zero false.
Proof. vm_compute. reflexivity. Qed.
Lemma of_int_0x8000 : of_int 0x8000 = S754_finite false 4503599627370496 (-37).
Proof. vm_compute. reflexivity. Qed.
Lemma of_int_0x7FFF : of_int 0x7FFF = S754_finite false 9006924376834048 (-38).
Proof. vm_compute. reflexivity. Qed.
Lemma of_int_60 : of_int 60 = S754_finite false 8444249301319680 (-47).
Proof. vm_compute. reflexivity. Qed.
Lemma of_int_canvas_width : of_int canvas_width = S754_finite false 5277655813324800 (-43).
Proof. vm_compute. reflexivity. Qed.

(** ** The sample mapping on binary32 samples *)

Lemma Pos_iter_xO (m d : positive) : Zpos (Pos.iter xO m d) = Zpos m * 2 ^ Zpos d.
Proof.
  induction d as [|d IH] using Pos.peano_ind.
  - simpl. lia.
  - rewrite Pos.iter_succ, Pos2Z.inj_xO, IH, Pos2Z.inj_succ, Z.pow_succ_r by lia. lia.
Qed.

Lemma valid_binary32 (m : positive) (e : Z) :
  bounded 24 128 m e = true ->
  Zpos (digits2_pos m) <= 24 /\ -149 <= e <= 104 /\
  (Zpos (digits2_pos m) = 24 \/ e = -149).
Proof.
  unfold bounded, canonical_mantissa, fexp, emin. intros H.
  apply andb_true_iff in H as [H1 H2]. apply Z.eqb_eq in H1. apply Z.leb_le in H2. lia.
Qed.

(** Reading a [Float32Array] element is exact, and yields a normal binary64
    float with 29 zero bits at the end of its mantissa. *)
Lemma Float32_to_Number_finite (s : bool) (m : positive) (e : Z) :
  bounded 24 128 m e = true ->
  exists m' k, Float32_to_Number (S754_finite s m e) = S754_finite s m' (e - k) /\
    0 <= k /\ Zpos m' = Zpos m * 2 ^ k /\ binary32_in_64 m' (e - k).
Proof.
  intros Hb. apply valid_binary32 in Hb as (Hd & He & _).
  set (d := Zpos (digits2_pos m)) in *.
  assert (Hd0 : 0 < d) by (unfold d; lia).
  unfold Float32_to_Number, binary_round, shl_align.
  fold d. unfold fexp, emin, prec, emax.
  replace (Z.max (d + e - 53) (3 - 1024 - 53)) with (d + e - 53) by lia.
  replace (d + e - 53 - e) with (Z.neg (Z.to_pos (53 - d))) by lia.
  set (k := Z.to_pos (53 - d)).
  assert (Hk : Zpos k = 53 - d) by (unfold k; lia).
  exists (Pos.iter xO m k), (Zpos k).
  assert (Hm' : Zpos (Pos.iter xO m k) = Zpos m * 2 ^ Zpos k) by apply Pos_iter_xO.
  assert (Hdig : Zpos (digits2_pos (Pos.iter xO m k)) = 53).
  { pose proof (Zdigits2_mul_pow2 m (Zpos k) ltac:(lia)) as H. rewrite <- Hm' in H.
    cbn [Zdigits2] in H. rewrite H. fold d. lia. }
  split; [|split; [lia|split; [exact Hm'|]]].
  - pose proof (binary_round_aux_exact s (Pos.iter xO m k) (e - Zpos k) 0 ltac:(lia)) as H.
    rewrite Z.mul_1_r, Z.sub_0_r in H. replace (d + e - 53) with (e - Zpos k) by lia.
    apply H.
    + rewrite Hdig. unfold fexp, emin, prec, emax. lia.
    + unfold prec, emax. lia.
  - split; [exact Hdig|split; [|lia]].
    rewrite Hm'. exists (Zpos m * 2 ^ (Zpos k - 29)).
    rewrite <- Z.mul_assoc, <- Z.pow_add_r by lia. do 2 f_equal. lia.
Qed.

Section Normal.

Variable m : positive.
Hypothesis normal : Zpos (digits2_pos m) = 53.

Lemma normal_mantissa : 4503599627370496 <= Zpos m < 9007199254740992.
Proof. pose proof (digits2_pos_bounds m) as B. rewrite normal in B. exact B. Qed.

(** The clamp of a normal float is decided by its sign and exponent. *)
Lemma clamp_normal (s : bool) (e : Z) :
  Math_max (of_int (-1)) (Math_min (of_int 1) (S754_finite s m e)) =
  if -52 <=? e then of_int (if s then -1 else 1) else S754_finite s m e.
Proof.
  pose proof normal_mantissa as Hd.
  unfold Math_min, Math_max. destruct s; rewrite ?of_int_1, ?of_int_m1.
  all: unfold SFcompare; change (Pos.compare_cont Eq) with Pos.compare.
  all: destruct (Z.leb_spec (-52) e) as [Hle|Hlt].
  all: destruct (Z.compare_spec (-52) e) as [He|He|He]; try (exfalso; lia).
  all: try reflexivity.
  all: subst e; destruct (Pos.compare_spec 4503599627370496 m) as [Hm|Hm|Hm].
  all: try (subst m; reflexivity); try reflexivity.
  all: exfalso; apply Pos2Z.pos_lt_pos in Hm; lia.
Qed.

(** Scaling by 0x8000, a power of two, is exact. *)
Lemma mul_0x8000_exact (s : bool) (e : Z) :
  -1074 - 15 <= e <= 900 ->
  mul (S754_finite s m e) (of_int 0x8000) = S754_finite s m (e + 15).
Proof.
  intros He. rewrite of_int_0x8000. unfold mul, SFmul.
  rewrite xorb_false_r, Pos2Z.inj_mul.
  change (Zpos 4503599627370496) with (2 ^ 52).
  replace (e + -37) with (e + 15 - 52) by lia.
  apply binary_round_aux_exact; [lia| |unfold prec, emax; lia].
  rewrite normal. unfold fexp, emin, prec, emax. lia.
Qed.

(** Scaling a binary32 sample by 0x7FFF is exact too: the product has at
    most 24 + 15 significant bits, which fit the 53 of a binary64. *)
Lemma mul_0x7FFF_exact (s : bool) (e : Z) :
  (2 ^ 29 | Zpos m) -> -1074 - 14 <= e <= 900 ->
  exists (a : positive) (j : Z),
    mul (S754_finite s m e) (of_int 0x7FFF) = S754_finite s a (e + j) /\
    14 <= j <= 15 /\ Zpos a * 2 ^ j = Zpos m * 32767.
Proof.
  intros [c Hc] He. pose proof normal_mantissa as Hm.
  rewrite of_int_0x7FFF. unfold mul, SFmul. rewrite xorb_false_r, Pos2Z.inj_mul.
  change (2 ^ 29) with 536870912 in Hc.
  assert (shifted : forall (v j : Z),
    0 < v -> 4503599627370496 <= v < 9007199254740992 -> 14 <= j <= 15 ->
    v * 2 ^ (38 + j) = Zpos m * 9006924376834048 ->
    binary_round_aux prec emax s (Zpos m * 9006924376834048) (e + -38) loc_Exact
    = S754_finite s (Z.to_pos v) (e + j)).
  { intros v j Hv Hr Hj Hp. rewrite <- Hp, <- (Z2Pos.id v Hv) at 1.
    replace (e + -38) with (e + j - (38 + j)) by lia.
    apply binary_round_aux_exact; [lia| |unfold prec, emax; lia].
    rewrite (digits2_pos_unique (Z.to_pos v) 53).
    - unfold fexp, emin, prec, emax. lia.
    - rewrite Z2Pos.id by assumption. exact Hr. }
  destruct (Z_lt_le_dec (Zpos m * 32767) 147573952589676412928) as [Hlt|Hge].
  - (* 67 digits: 14 bits are dropped *)
    exists (Z.to_pos (c * 32767 * 32768)), 14.
    assert (Hv : 4503599627370496 <= c * 32767 * 32768 < 9007199254740992) by lia.
    split; [|split; [lia|]].
    + apply shifted; [lia|exact Hv|lia|].
      change (2 ^ (38 + 14)) with 4503599627370496. lia.
    + rewrite Z2Pos.id by lia. change (2 ^ 14) with 16384. lia.
  - (* 68 digits: 15 bits are dropped *)
    exists (Z.to_pos (c * 32767 * 16384)), 15.
    assert (Hv : 4503599627370496 <= c * 32767 * 16384 < 9007199254740992) by lia.
    split; [|split; [lia|]].
    + apply shifted; [lia|exact Hv|lia|].
      change (2 ^ (38 + 15)) with 9007199254740992. lia.
    + rewrite Z2Pos.id by lia. change (2 ^ 15) with 32768. lia.
Qed.

End Normal.

(** The store of a small finite number: no wrap-around. *)
Lemma ToInt16_finite (s : bool) (a : positive) (e : Z) :
  e <= 0 -> Zpos a / 2 ^ (- e) < 32768 ->
  ToInt16 (S754_finite s a e) = cond_Zopp s (Zpos a / 2 ^ (- e)).
Proof.
  intros He Hk. unfold ToInt16, truncate.
  rewrite Z.shiftl_div_pow2 by lia.
  assert (0 <= Zpos a / 2 ^ (- e)) by (apply Z.div_pos; [lia|apply Z.pow_pos_nonneg; lia]).
  generalize dependent (Zpos a / 2 ^ (- e)). intros k Hk Hk0.
  destruct s; cbn [cond_Zopp];
    match goal with |- context [32768 <=? ?x] => destruct (Z.leb_spec 32768 x) end;
    Z.div_mod_to_equations; lia.
Qed.

(** The code on a normal float holding a binary32 value. *)
Lemma pcm_sample_normal (s : bool) (m : positive) (e : Z) :
  binary32_in_64 m e ->
  pcm_sample (Some (S754_finite s m e)) = expected_sample s m e.
Proof.
  intros (Hd & Hdiv & He). pose proof (normal_mantissa m Hd) as Hm.
  unfold pcm_sample, ToNumber, expected_sample. rewrite clamp_normal by exact Hd.
  destruct (Z.leb_spec (-52) e) as [Hle|Hlt].
  - destruct s; vm_compute; reflexivity.
  - rewrite of_int_0.
    assert (Hlt0 : lt (S754_finite s m e) (S754_zero false) = s) by (destruct s; reflexivity).
    rewrite Hlt0. destruct s.
    + rewrite mul_0x8000_exact by (try exact Hd; lia).
      assert (Hq : Zpos m * 32768 / 2 ^ (- e) = Zpos m / 2 ^ (- (e + 15))).
      { replace (- e) with (- (e + 15) + 15) by lia. rewrite Z.pow_add_r by lia.
        change (2 ^ 15) with 32768. apply Z.div_mul_cancel_r; [|lia].
        apply Z.pow_nonzero; lia. }
      rewrite Hq. apply ToInt16_finite; [lia|].
      apply Z.div_lt_upper_bound; [apply Z.pow_pos_nonneg; lia|].
      assert (2 ^ 38 <= 2 ^ (- (e + 15))) by (apply Z.pow_le_mono_r; lia).
      change (2 ^ 38) with 274877906944 in *. lia.
    + destruct (mul_0x7FFF_exact m Hd false e Hdiv ltac:(lia)) as (a & j & Hmul & Hj & Ha).
      rewrite Hmul.
      assert (Hq : Zpos m * 32767 / 2 ^ (- e) = Zpos a / 2 ^ (- (e + j))).
      { rewrite <- Ha. replace (- e) with (- (e + j) + j) by lia. rewrite Z.pow_add_r by lia.
        apply Z.div_mul_cancel_r; apply Z.pow_nonzero; lia. }
      rewrite Hq. rewrite ToInt16_finite; [reflexivity|lia|].
      rewrite <- Hq.
      apply Z.div_lt_upper_bound; [apply Z.pow_pos_nonneg; lia|].
      assert (2 ^ 53 <= 2 ^ (- e)) by (apply Z.pow_le_mono_r; lia).
      change (2 ^ 53) with 9007199254740992 in *. lia.
Qed.

(** *** The rational side *)

Lemma Qtruncate_compat (q q' : Q) : (q == q')%Q -> Qtruncate q = Qtruncate q'.
Proof.
  unfold Qeq, Qtruncate. destruct q as [a d], q' as [a' d']. cbn [Qnum Qden]. intros H.
  rewrite <- (Z.quot_mul_cancel_r a (Zpos d) (Zpos d')) by lia.
  rewrite H, (Z.mul_comm (Zpos d)). apply Z.quot_mul_cancel_r; lia.
Qed.

Lemma clamp_compat (q q' : Q) : (q == q')%Q -> (clamp q == clamp q')%Q.
Proof. intros H. unfold clamp. rewrite H. reflexivity. Qed.

Lemma clamp_high (q : Q) : (1 <= q)%Q -> (clamp q == 1)%Q.
Proof.
  intros H. unfold clamp. rewrite (Q.min_l 1 q) by exact H. apply Q.max_r. discriminate.
Qed.

Lemma clamp_low (q : Q) : (q <= -1)%Q -> (clamp q == -1)%Q.
Proof.
  intros H. unfold clamp. rewrite (Q.min_r 1 q).
  - apply Q.max_l. exact H.
  - eapply Qle_trans; [exact H|discriminate].
Qed.

Lemma clamp_inside (q : Q) : (-1 <= q)%Q -> (q <= 1)%Q -> (clamp q == q)%Q.
Proof.
  intros H1 H2. unfold clamp. rewrite (Q.min_r 1 q) by exact H2. apply Q.max_r. exact H1.
Qed.

Lemma clamp_scale_truncate_eq (q c : Q) :
  (clamp q == c)%Q ->
  clamp_scale_truncate q = Qtruncate (if Qlt_le_dec c 0 then c * 32768 else c * 32767)%Q.
Proof.
  intros H. unfold clamp_scale_truncate.
  destruct (Qlt_le_dec (clamp q) 0) as [Hq|Hq], (Qlt_le_dec c 0) as [Hc|Hc].
  - apply Qtruncate_compat. rewrite H. reflexivity.
  - exfalso. rewrite H in Hq. apply (Qlt_irrefl 0). eapply Qle_lt_trans; eassumption.
  - exfalso. rewrite H in Hq. apply (Qlt_irrefl 0). eapply Qle_lt_trans; eassumption.
  - apply Qtruncate_compat. rewrite H. reflexivity.
Qed.

(** The mapping depends on the value of the rational only. *)
Lemma clamp_scale_truncate_compat (q q' : Q) :
  (q == q')%Q -> clamp_scale_truncate q = clamp_scale_truncate q'.
Proof.
  intros H. rewrite (clamp_scale_truncate_eq q (clamp q')) by (apply clamp_compat, H).
  reflexivity.
Qed.

Lemma clamp_scale_truncate_high (q : Q) : (1 <= q)%Q -> clamp_scale_truncate q = 32767.
Proof.
  intros H. rewrite (clamp_scale_truncate_eq q 1) by (apply clamp_high; exact H).
  destruct (Qlt_le_dec 1 0) as [Hc|Hc]; [discriminate Hc|reflexivity].
Qed.

Lemma clamp_scale_truncate_low (q : Q) : (q <= -1)%Q -> clamp_scale_truncate q = -32768.
Proof.
  intros H. rewrite (clamp_scale_truncate_eq q (-1)) by (apply clamp_low; exact H).
  destruct (Qlt_le_dec (-1) 0) as [Hc|Hc]; [reflexivity|exfalso; apply Hc; reflexivity].
Qed.

(** A fraction [n / d] in [0, 1]. *)
Lemma clamp_scale_truncate_pos (n : Z) (d : positive) :
  0 <= n <= Zpos d -> clamp_scale_truncate (n # d) = n * 32767 / Zpos d.
Proof.
  intros H. rewrite (clamp_scale_truncate_eq (n # d) (n # d)).
  2:{ apply clamp_inside; unfold Qle; cbn [Qnum Qden]; lia. }
  destruct (Qlt_le_dec (n # d) 0) as [Hc|Hc].
  - exfalso. unfold Qlt in Hc. cbn [Qnum Qden] in Hc. lia.
  - unfold Qtruncate, Qmult. cbn [Qnum Qden]. rewrite Pos.mul_1_r.
    apply Z.quot_div_nonneg; lia.
Qed.

(** A fraction [- n / d] in [-1, 0). *)
Lemma clamp_scale_truncate_neg (n : Z) (d : positive) :
  0 < n <= Zpos d -> clamp_scale_truncate (- n # d) = - (n * 32768 / Zpos d).
Proof.
  intros H. rewrite (clamp_scale_truncate_eq (- n # d) (- n # d)).
  2:{ apply clamp_inside; unfold Qle; cbn [Qnum Qden]; lia. }
  destruct (Qlt_le_dec (- n # d) 0) as [Hc|Hc].
  - unfold Qtruncate, Qmult. cbn [Qnum Qden]. rewrite Pos.mul_1_r.
    rewrite Z.mul_opp_l, Z.quot_opp_l by lia. f_equal.
    apply Z.quot_div_nonneg; lia.
  - exfalso. unfold Qle in Hc. cbn [Qnum Qden] in Hc. lia.
Qed.

(** The exact mapping on the value of a normal float. *)
Lemma clamp_scale_truncate_normal (s : bool) (m : positive) (e : Z) :
  Zpos (digits2_pos m) = 53 ->
  clamp_scale_truncate (B2Q (S754_finite s m e)) = expected_sample s m e.
Proof.
  intros Hd. pose proof (normal_mantissa m Hd) as Hm. unfold expected_sample, B2Q.
  destruct (Z.leb_spec (-52) e) as [Hle|Hlt].
  - (* at least 1 in magnitude *)
    assert (Hbig : forall p : positive, Zpos p <= 52 -> Zpos (2 ^ p) <= Zpos m).
    { intros p Hp. rewrite Pos2Z.inj_pow.
      assert (2 ^ Zpos p <= 2 ^ 52) by (apply Z.pow_le_mono_r; lia).
      change (2 ^ 52) with 4503599627370496 in *. lia. }
    destruct s; cbn [cond_Zopp].
    + apply clamp_scale_truncate_low.
      destruct e as [|p|p]; unfold Qle; cbn [Qnum Qden inject_Z].
      * lia.
      * assert (0 < 2 ^ Zpos p) by (apply Z.pow_pos_nonneg; lia). nia.
      * specialize (Hbig p ltac:(lia)). lia.
    + apply clamp_scale_truncate_high.
      destruct e as [|p|p]; unfold Qle; cbn [Qnum Qden inject_Z].
      * lia.
      * assert (0 < 2 ^ Zpos p) by (apply Z.pow_pos_nonneg; lia). nia.
      * specialize (Hbig p ltac:(lia)). lia.
  - (* below 1 in magnitude *)
    destruct e as [|p|p]; try lia.
    assert (Hp : Zpos (2 ^ p) = 2 ^ (- Zneg p)).
    { rewrite Pos2Z.inj_pow. reflexivity. }
    assert (Hsmall : Zpos m <= Zpos (2 ^ p)).
    { rewrite Hp. assert (2 ^ 53 <= 2 ^ (- Zneg p)) by (apply Z.pow_le_mono_r; lia).
      change (2 ^ 53) with 9007199254740992 in *. lia. }
    rewrite <- Hp. destruct s; cbn [cond_Zopp].
    + change (Zneg m) with (- Zpos m). apply clamp_scale_truncate_neg. lia.
    + apply clamp_scale_truncate_pos. lia.
Qed.

(** The value of a float as a fraction over a power of two. *)
Lemma B2Q_fraction (s : bool) (m : positive) (e : Z) :
  (B2Q (S754_finite s m e) ==
   cond_Zopp s (Zpos m * 2 ^ Z.max e 0) # Z.to_pos (2 ^ Z.max (- e) 0))%Q.
Proof.
  unfold B2Q. destruct e as [|p|p].
  - reflexivity.
  - rewrite Z.max_l, Z.max_r by lia. reflexivity.
  - rewrite Z.max_r, Z.max_l by lia. rewrite Z.pow_0_r, Z.mul_1_r.
    change (- Zneg p) with (Zpos p). rewrite <- Pos2Z.inj_pow. reflexivity.
Qed.

Lemma cond_Zopp_mul (s : bool) (a b : Z) : cond_Zopp s a * b = cond_Zopp s (a * b).
Proof. destruct s; cbn [cond_Zopp]; lia. Qed.

(** Moving bits between mantissa and exponent keeps the value. *)
Lemma B2Q_shift (s : bool) (m m' : positive) (e k : Z) :
  0 <= k -> Zpos m' = Zpos m * 2 ^ k ->
  (B2Q (S754_finite s m e) == B2Q (S754_finite s m' (e - k)))%Q.
Proof.
  intros Hk Hm'. rewrite !B2Q_fraction. unfold Qeq. cbn [Qnum Qden].
  rewrite !Z2Pos.id by (apply Z.pow_pos_nonneg; lia).
  rewrite !cond_Zopp_mul. f_equal. rewrite Hm'.
  rewrite <- !Z.mul_assoc. f_equal. rewrite <- !Z.pow_add_r by lia. f_equal. lia.
Qed.

(** C1.  For every finite binary32 sample [x32] read from a channel, the
    16-bit value the encoder stores (computed in binary64, as JavaScript does)
    is the exact one: the value of the sample clamped to [-1, 1], multiplied
    by 32768 if it is negative and by 32767 otherwise, and truncated toward
    zero. *)
Theorem pcm_sample_binary32 (x32 : spec_float) :
  valid_binary 24 128 x32 = true -> is_finite x32 = true ->
  pcm_sample (Some (Float32_to_Number x32)) = clamp_scale_truncate (B2Q x32).
Proof.
  intros Hv Hf. destruct x32 as [s|s| |s m e]; try discriminate Hf.
  - cbn [Float32_to_Number B2Q]. rewrite (clamp_scale_truncate_pos 0 1) by lia.
    destruct s; vm_compute; reflexivity.
  - cbn [valid_binary] in Hv.
    destruct (Float32_to_Number_finite s m e Hv) as (m' & k & Hp & Hk & Hm' & H64).
    rewrite Hp, pcm_sample_normal by exact H64.
    rewrite (clamp_scale_truncate_compat _ _ (B2Q_shift s m m' e k Hk Hm')).
    symmetry. apply clamp_scale_truncate_normal. apply H64.
Qed.

Lemma pcm_sample_binary32_witness :
  valid_binary 24 128 half32 = true /\ is_finite half32 = true /\
  pcm_sample (Some (Float32_to_Number half32)) = clamp_scale_truncate (B2Q half32).
Proof.
  split; [reflexivity|]. split; [reflexivity|].
  apply (pcm_sample_binary32 half32); reflexivity.
Defined.

(** Truncation, not rounding: 0.5 is stored as 16383 (0.5 * 32767 = 16383.5),
    and -0.25 as -8192. *)
Lemma pcm_sample_truncates :
  pcm_sample (Some (Float32_to_Number half32)) = 16383 /\
  Qround_nearest (B2Q half32 * 32767) = 16384 /\
  pcm_sample (Some (Float32_to_Number minus_quarter32)) = -8192.
Proof. vm_compute. repeat split. Qed.

(** Outside the finite samples: infinities saturate, NaN and a read past the
    end of a channel store 0. *)
Lemma pcm_sample_special :
  pcm_sample (Some (S754_infinity false)) = 32767 /\
  pcm_sample (Some (S754_infinity true)) = -32768 /\
  pcm_sample (Some S754_nan) = 0 /\
  pcm_sample None = 0.
Proof. vm_compute. repeat split. Qed.

(** ** Decoding and re-encoding a frame *)

Lemma In_count_up (n : nat) (lo x : Z) :
  lo <= x < lo + Z.of_nat n -> In x (count_up n lo).
Proof.
  revert lo. induction n as [|n IH]; intros lo H; [lia|].
  cbn [count_up]. destruct (Z.eq_dec x lo) as [->|Hne]; [left; reflexivity|].
  right. apply IH. lia.
Qed.

Lemma int16_samples_complete (sample : Z) :
  is_int16 sample = true -> In sample int16_samples.
Proof.
  unfold is_int16. intros H. apply andb_true_iff in H as [H1 H2].
  apply Z.leb_le in H1. apply Z.leb_le in H2.
  apply In_count_up. lia.
Qed.

(** The encoder on a channel element, as truncation of the exact product. *)
Lemma pcm_sample_Float32 (x32 : spec_float) :
  valid_binary 24 128 x32 = true -> is_finite x32 = true ->
  pcm_sample (Some (Float32_to_Number x32)) = clamp_scale_truncate (B2Q x32).
Proof.
  intros Hv Hf. destruct x32 as [s|s| |s m e]; try discriminate Hf.
  - cbn [Float32_to_Number B2Q]. rewrite (clamp_scale_truncate_pos 0 1) by lia.
    destruct s; vm_compute; reflexivity.
  - cbn [valid_binary] in Hv.
    destruct (Float32_to_Number_finite s m e Hv) as (m' & k & Hp & Hk & Hm' & H64).
    rewrite Hp, pcm_sample_normal by exact H64.
    rewrite (clamp_scale_truncate_compat _ _ (B2Q_shift s m m' e k Hk Hm')).
    symmetry. apply clamp_scale_truncate_normal. apply H64.
Qed.

Lemma Math_fround_narrow (x : number) : Math_fround x = Float32_to_Number (narrow x).
Proof. destruct x; reflexivity. Qed.

(** What the check of one sample establishes. *)
Lemma sweep_sample_spec (sample : Z) :
  fst (sweep_sample sample) = true ->
  pcm_sample (Some (decode_sample sample)) = sample /\
  (if sample <=? 0 then roundtrip32 sample = sample
   else sample - 1 <= roundtrip32 sample <= sample) /\
  snd (sweep_sample sample) = (roundtrip32 sample =? sample).
Proof.
  unfold sweep_sample. cbn [fst snd]. intros H.
  apply andb_true_iff in H as [H Hr]. apply andb_true_iff in H as [H Hf].
  apply andb_true_iff in H as [H64 Hv]. apply Z.eqb_eq in H64.
  assert (E : roundtrip32 sample
              = clamp_scale_truncate (B2Q (narrow (decode_sample sample)))).
  { unfold roundtrip32. rewrite Math_fround_narrow. apply pcm_sample_Float32; assumption. }
  rewrite E. split; [exact H64|]. split; [|reflexivity].
  destruct (sample <=? 0).
  - apply Z.eqb_eq, Hr.
  - apply andb_true_iff in Hr as [H1 H2]. apply Z.leb_le in H1. apply Z.leb_le in H2. lia.
Qed.

Lemma sweep_spec (samples : list Z) (ok : bool) (lost k : Z) :
  sweep samples ok lost = (true, k) ->
  ok = true /\ Forall (fun sample => fst (sweep_sample sample) = true) samples /\
  k = lost + lost_samples samples.
Proof.
  revert ok lost. induction samples as [|sample rest IH]; intros ok lost H.
  - cbn in H. injection H as -> ->. repeat split; [constructor|cbn; lia].
  - cbn [sweep] in H. destruct (sweep_sample sample) as [checked same] eqn:E.
    apply IH in H as (Hok & Hrest & Hk). apply andb_true_iff in Hok as [-> ->].
    assert (Hs : fst (sweep_sample sample) = true) by (rewrite E; reflexivity).
    destruct (sweep_sample_spec sample Hs) as (_ & _ & Hsame). rewrite E in Hsame.
    cbn [snd] in Hsame. split; [reflexivity|]. split; [constructor; assumption|].
    cbn [lost_samples]. rewrite <- Hsame. destruct same; lia.
Qed.

(** All 65536 samples, evaluated with the real roundings: every check
    succeeds, and 16639 samples do not come back as they were. *)
Lemma sweep_all : sweep int16_samples true 0 = (true, 16639).
Proof. vm_compute. reflexivity. Qed.

Lemma decoded_sample_spec (sample : Z) :
  is_int16 sample = true ->
  pcm_sample (Some (decode_sample sample)) = sample /\
  (if sample <=? 0 then roundtrip32 sample = sample
   else sample - 1 <= roundtrip32 sample <= sample).
Proof.
  intros H. apply int16_samples_complete, list_elem_of_In in H.
  destruct (sweep_spec _ _ _ _ sweep_all) as (_ & Hall & _).
  rewrite Forall_forall in Hall.
  destruct (sweep_sample_spec sample (Hall _ H)) as (H64 & H32 & _). auto.
Qed.

(** At double precision every sample survives decoding and re-encoding. *)
Lemma pcm_sample_decode_sample (sample : Z) :
  is_int16 sample = true -> pcm_sample (Some (decode_sample sample)) = sample.
Proof. intros H. apply decoded_sample_spec, H. Qed.

(** Read from a [Float32Array], 16639 of the 65536 samples come back one
    lower: 1 as 0 and 100 as 99, for instance (the quotient by 32767 is
    rounded down to binary32 and the product truncated). *)
Lemma roundtrip32_lost :
  lost_samples int16_samples = 16639 /\
  roundtrip32 1 = 0 /\ roundtrip32 100 = 99 /\ roundtrip32 (-100) = -100.
Proof.
  split; [|vm_compute; repeat split].
  destruct (sweep_spec _ _ _ _ sweep_all) as (_ & _ & Hk). lia.
Qed.

(** Re-interleaving the encoded channels of a decoded frame. *)
Lemma interleaved_deinterleave (n : nat) (frame : list Z) :
  length frame = (n * 2)%nat ->
  let '(L, R) := deinterleave frame in
  length L = n /\ length R = n /\
  interleaved (map Math_fround (map decode_sample L))
              (map Math_fround (map decode_sample R)) n
  = map roundtrip32 frame.
Proof.
  revert frame. induction n as [|n IH]; intros frame Hlen.
  - destruct frame; [|discriminate Hlen]. repeat split.
  - destruct frame as [|l [|r rest]]; try discriminate Hlen.
    cbn [deinterleave].
    specialize (IH rest ltac:(simpl in Hlen; lia)).
    destruct (deinterleave rest) as [L R]. destruct IH as (HL & HR & IH).
    cbn [map length]. rewrite interleaved_cons, IH.
    repeat split; [congruence|congruence].
Qed.

Lemma even_length_half (frame : list Z) :
  Nat.odd (length frame) = false -> exists n, length frame = (n * 2)%nat.
Proof.
  intros H. exists (Nat.div2 (length frame)).
  pose proof (Nat.div2_odd (length frame)) as E. rewrite H in E. simpl in E. lia.
Qed.

(** C2, as amended.  For every valid PCM frame (a non-empty, even number of
    16-bit samples), when [decode] (division by 32768.0 of the negative
    samples, by 32767.0 of the others) yields the channels and these are
    [Float32Array]s, as the encoder requires, [process] posts the frame of the
    re-encoded samples, in which every sample that is negative or zero is
    reproduced exactly (the extreme -32768 included) and every positive sample
    [s] comes back as [s] or as [s - 1].  At double precision, before the
    store into the channel, every sample is reproduced exactly. *)
Theorem process_decode (frame : list Z) (L R : Float32Array) :
  Forall (fun sample => is_int16 sample = true) frame ->
  decode32 frame = Some (L, R) ->
  process [[L; R]] = (true, Some (map roundtrip32 frame)) /\
  Forall (fun sample => if sample <=? 0 then roundtrip32 sample = sample
                        else sample - 1 <= roundtrip32 sample <= sample) frame /\
  Forall (fun sample => pcm_sample (Some (decode_sample sample)) = sample) frame.
Proof.
  intros Hok Hdec. split.
  - unfold decode32, decode in Hdec.
    destruct (length frame =? 0)%nat eqn:H0; [discriminate|].
    destruct (Nat.odd (length frame)) eqn:Hodd; [discriminate|]. cbn [orb] in Hdec.
    destruct (even_length_half frame Hodd) as [n Hn].
    pose proof (interleaved_deinterleave n frame Hn) as H.
    destruct (deinterleave frame) as [L' R']. destruct H as (HL & HR & H).
    injection Hdec as <- <-.
    rewrite process_spec. cbn [lookup list_lookup]. unfold second_channel.
    cbn [length Nat.ltb Nat.leb lookup list_lookup default from_option id].
    rewrite !length_map, HL. rewrite H. reflexivity.
  - split; eapply Forall_impl; try exact Hok; intros sample Hs; cbn beta;
      apply decoded_sample_spec, Hs.
Qed.

Lemma process_decode_witness :
  Forall (fun sample => is_int16 sample = true) sample_frame /\
  process [[map Math_fround (map decode_sample [0; -1; -32768]);
            map Math_fround (map decode_sample [1; 32767; 12345])]]
  = (true, Some (map roundtrip32 sample_frame)) /\
  roundtrip32 (-32768) = -32768.
Proof.
  assert (Hok : Forall (fun sample => is_int16 sample = true) sample_frame)
    by (repeat constructor).
  split; [exact Hok|].
  destruct (process_decode sample_frame
              (map Math_fround (map decode_sample [0; -1; -32768]))
              (map Math_fround (map decode_sample [1; 32767; 12345])) Hok eq_refl)
    as (Hp & Hr & _).
  split; [exact Hp|].
  apply (proj1 (Forall_forall _ _) Hr (-32768)). unfold sample_frame.
  apply list_elem_of_In. simpl. tauto.
Defined.

(** C2, as stated, fails through the channels of the encoder: the valid frame
    [1; 100] is decoded, stored as the two [Float32Array]s and re-encoded as
    [0; 99]. *)
Lemma process_decode_loses_one :
  Forall (fun sample => is_int16 sample = true) [1; 100] /\
  decode32 [1; 100]
  = Some ([Math_fround (decode_sample 1)], [Math_fround (decode_sample 100)]) /\
  process [[[Math_fround (decode_sample 1)]; [Math_fround (decode_sample 100)]]]
  = (true, Some [0; 99]).
Proof.
  split; [repeat constructor|]. split; [reflexivity|]. vm_compute. reflexivity.
Qed.

(** ** The level meter *)

Lemma add_60_rounded (x : number) : x <> S754_nan -> rounded (add x (of_int 60)).
Proof.
  intros Hx. rewrite of_int_60. destruct x as [s|s| |s m e]; try contradiction; cbn [add SFadd].
  - vm_compute. reflexivity.
  - exact I.
  - unfold binary_normalize.
    destruct (cond_Zopp s (Zpos (fst (shl_align m e (Z.min e (-47))))) +
              cond_Zopp false (Zpos (fst (shl_align 8444249301319680 (-47) (Z.min e (-47))))));
      [exact I|apply binary_round_rounded|apply binary_round_rounded].
Qed.

Lemma div_eucl_nonneg (a b : Z) : 0 <= a -> 0 < b -> 0 <= fst (Z.div_eucl a b).
Proof.
  intros Ha Hb. change (fst (Z.div_eucl a b)) with (a / b). apply Z.div_pos; assumption.
Qed.

Lemma div_60_rounded (x : number) : rounded x -> rounded (div x (of_int 60)).
Proof.
  intros Hx. rewrite of_int_60. destruct x as [s|s| |s m e]; try contradiction; cbn [div SFdiv].
  - exact I.
  - exact I.
  - unfold SFdiv_core_binary.
    set (m' := match _ with Z0 => Zpos m | Zpos _ => _ | Zneg _ => 0 end).
    assert (Hm' : 0 <= m').
    { unfold m'. destruct (_ - _ - _) as [|p|p]; [lia| |lia]. apply Z.shiftl_nonneg. lia. }
    pose proof (div_eucl_nonneg m' 8444249301319680 Hm' ltac:(lia)) as Hq.
    destruct (Z.div_eucl m' 8444249301319680) as [q r]. cbn [fst] in Hq.
    apply binary_round_aux_rounded. exact Hq.
Qed.

(** The clamp to [0, 1] of a rounded number: its value is that of the number
    itself when it lies in [0, 1], of the nearer end otherwise, and it is [+0],
    [1], or a positive number below 1. *)
Lemma clamp01_cases (r : number) :
  rounded r ->
  let n := Math_max (of_int 0) (Math_min (of_int 1) r) in
  B2Q n = B2Q (if lt r (of_int 0) then of_int 0
               else if lt (of_int 1) r then of_int 1 else r) /\
  (n = S754_zero false \/ n = of_int 1 \/
   exists m e, n = S754_finite false m e /\ e <= -52 /\ Zpos m < 2 ^ (- e)).
Proof.
  intros Hr. rewrite of_int_0, of_int_1. cbn zeta.
  destruct r as [s|s| |s m e]; try contradiction.
  - destruct s; (split; [reflexivity|left; reflexivity]).
  - destruct s; (split; [reflexivity|]); [left; reflexivity|right; left; reflexivity].
  - cbn [rounded] in Hr. change (2 ^ 53) with 9007199254740992 in Hr.
    destruct s; [split; [reflexivity|left; reflexivity]|].
    unfold Math_min, Math_max, lt, SFltb, SFcompare.
    change (Pos.compare_cont Eq) with Pos.compare.
    destruct (Z.compare_spec (-52) e) as [He|He|He].
    + subst e. destruct (Pos.compare_spec 4503599627370496 m) as [Hm|Hm|Hm].
      * subst m. split; [reflexivity|right; left; reflexivity].
      * split; [reflexivity|right; left; reflexivity].
      * split; [reflexivity|right; right]. exists m, (-52). apply Pos2Z.pos_lt_pos in Hm.
        split; [reflexivity|split; [lia|exact Hm]].
    + split; [reflexivity|right; left; reflexivity].
    + split; [reflexivity|right; right]. exists m, e. split; [reflexivity|split; [lia|]].
      assert (2 ^ 53 <= 2 ^ (- e)) by (apply Z.pow_le_mono_r; lia).
      change (2 ^ 53) with 9007199254740992 in *. lia.
Qed.

(** The width of the bar: the canvas width times a fraction below 1, rounded,
    does not pass the canvas width. *)
Lemma mul_canvas_width (m : positive) (e : Z) :
  e <= -52 -> Zpos m < 2 ^ (- e) ->
  mul (of_int canvas_width) (S754_finite false m e) = S754_zero false \/
  exists (mw : positive) (ew : Z),
    mul (of_int canvas_width) (S754_finite false m e) = S754_finite false mw ew /\
    ew <= 0 /\ Zpos mw <= 600 * 2 ^ (- ew).
Proof.
  intros He Hm. rewrite of_int_canvas_width. unfold mul, SFmul. cbn [xorb].
  rewrite Pos2Z.inj_mul, Z.add_comm.
  set (mx := Zpos 5277655813324800 * Zpos m). set (ex := e + -43).
  assert (Hmx : 0 <= mx) by (unfold mx; lia).
  assert (Hbound : mx < 600 * 2 ^ (- ex)).
  { unfold mx, ex. replace (- (e + -43)) with (43 + - e) by lia.
    rewrite Z.pow_add_r by lia. change (2 ^ 43) with 8796093022208.
    pose proof (pow2_pos (- e) ltac:(lia)). nia. }
  assert (Hex : ex <= -95) by (unfold ex; lia). clearbody mx ex.
  destruct (binary_round_aux_spec false mx ex loc_Exact Hmx) as (m1 & Hm1 & ->).
  set (n1 := Z.max (fexp prec emax (Zdigits2 mx + ex) - ex) 0) in *.
  set (e1 := ex + n1) in *.
  assert (Hd : Zdigits2 mx <= 11 + - ex)
    by (apply (Zdigits2_scaled mx 600); lia).
  assert (He1 : e1 <= -42 /\ 0 <= n1) by (unfold e1, n1, fexp, emin, prec, emax in *; lia).
  assert (Hq1 : 0 <= mx / 2 ^ n1 < 600 * 2 ^ (- e1)).
  { split; [apply Z.div_pos; [lia|apply pow2_pos; lia]|].
    apply Z.div_lt_upper_bound; [apply pow2_pos; lia|].
    replace (2 ^ n1 * (600 * 2 ^ (- e1))) with (600 * (2 ^ n1 * 2 ^ (- e1))) by lia.
    rewrite <- Z.pow_add_r by lia. replace (n1 + - e1) with (- ex) by (unfold e1; lia).
    exact Hbound. }
  assert (Hm1b : 0 <= m1 <= 600 * 2 ^ (- e1)) by lia.
  set (n2 := Z.max (fexp prec emax (Zdigits2 m1 + e1) - e1) 0) in *.
  assert (Hd1 : Zdigits2 m1 <= 11 + - e1) by (apply (Zdigits2_scaled m1 600); lia).
  assert (He2 : e1 + n2 <= -42 /\ 0 <= n2) by (unfold n2, fexp, emin, prec, emax in *; lia).
  assert (Hq2 : 0 <= m1 / 2 ^ n2 <= 600 * 2 ^ (- (e1 + n2))).
  { split; [apply Z.div_pos; [lia|apply pow2_pos; lia]|].
    apply Z.div_le_upper_bound; [apply pow2_pos; lia|].
    replace (2 ^ n2 * (600 * 2 ^ (- (e1 + n2))))
      with (600 * (2 ^ n2 * 2 ^ (- (e1 + n2)))) by lia.
    rewrite <- Z.pow_add_r by lia. replace (n2 + - (e1 + n2)) with (- e1) by lia. lia. }
  destruct (m1 / 2 ^ n2) as [|q|q]; [left; reflexivity| |lia].
  right. exists q, (e1 + n2).
  assert (Hle : (e1 + n2 <=? emax - prec) = true) by (apply Z.leb_le; unfold emax, prec; lia).
  rewrite Hle. split; [reflexivity|split; [lia|apply Hq2]].
Qed.

Lemma B2Q_fraction_bounds (m : positive) (e c : Z) :
  e <= 0 -> Zpos m <= c * 2 ^ (- e) ->
  (0 <= B2Q (S754_finite false m e) <= inject_Z c)%Q.
Proof.
  intros He Hm. unfold B2Q, Qle.
  destruct e as [|p|p]; try lia; cbn [cond_Zopp inject_Z Qnum Qden].
  - cbn in Hm. lia.
  - rewrite Pos2Z.inj_pow. change (- Zneg p) with (Zpos p) in Hm. lia.
Qed.

(** C10.  For every finite [dbLevel], in binary64 arithmetic: the rectangle
    drawn is [fillRect(0, 0, width, height)] with [width] the product of the
    canvas width and the fraction [normalized], and [normalized] the clamp to
    [0, 1] of the quotient [(dbLevel + 60) / 60]: it has the value of the
    quotient when that lies in [0, 1], and of 0 below and 1 above.  Both are
    finite numbers, [normalized] between 0 and 1 and [width] between 0 and the
    canvas width. *)
Theorem VuMeter_bar_within_canvas (dbLevel : number) :
  is_finite dbLevel = true ->
  let quotient := div (add dbLevel (of_int 60)) (of_int 60) in
  let normalized := Math_max (of_int 0) (Math_min (of_int 1) quotient) in
  let width := mul (of_int canvas_width) normalized in
  VuMeter_bar dbLevel canvas_width canvas_height
  = (of_int 0, of_int 0, width, of_int canvas_height) /\
  B2Q normalized = B2Q (if lt quotient (of_int 0) then of_int 0
                        else if lt (of_int 1) quotient then of_int 1 else quotient) /\
  is_finite normalized = true /\ (0 <= B2Q normalized <= 1)%Q /\
  is_finite width = true /\ (0 <= B2Q width <= inject_Z canvas_width)%Q.
Proof.
  intros Hfin quotient normalized width.
  assert (Hq : rounded quotient).
  { apply div_60_rounded, add_60_rounded. intros ->. discriminate Hfin. }
  destruct (clamp01_cases quotient Hq) as [Hval Hcases].
  subst width normalized. cbv zeta in Hval, Hcases.
  split; [reflexivity|]. split; [exact Hval|].
  destruct Hcases as [Hn|[Hn|(m & e & Hn & He & Hm)]]; rewrite Hn.
  - split; [reflexivity|]. split; [split; discriminate|].
    split; [reflexivity|]. vm_compute. split; discriminate.
  - split; [reflexivity|]. split; [split; discriminate|].
    split; [reflexivity|]. vm_compute. split; discriminate.
  - split; [reflexivity|]. split; [apply (B2Q_fraction_bounds m e 1); lia|].
    destruct (mul_canvas_width m e He Hm) as [Hw|(mw & ew & Hw & Hew & Hmw)]; rewrite Hw.
    + split; [reflexivity|split; discriminate].
    + split; [reflexivity|]. apply B2Q_fraction_bounds; assumption.
Qed.

Lemma VuMeter_bar_within_canvas_witness :
  is_finite (of_int (-30)) = true /\
  VuMeter_bar (of_int (-30)) canvas_width canvas_height
  = (of_int 0, of_int 0, of_int 300, of_int canvas_height) /\
  (0 <= B2Q (of_int 300) <= inject_Z canvas_width)%Q.
Proof.
  split; [reflexivity|].
  destruct (VuMeter_bar_within_canvas (of_int (-30)) eq_refl)
    as (Hbar & _ & _ & _ & _ & Hw).
  split; [exact Hbar|exact Hw].
Defined.

(** The meter at -30 dB, at -90 dB and at +12 dB: half the track, nothing,
    the whole track. *)
Lemma VuMeter_bar_examples :
  VuMeter_bar (of_int (-30)) canvas_width canvas_height
  = (of_int 0, of_int 0, of_int 300, of_int 60) /\
  VuMeter_bar (of_int (-90)) canvas_width canvas_height
  = (of_int 0, of_int 0, of_int 0, of_int 60) /\
  VuMeter_bar (of_int 12) canvas_width canvas_height
  = (of_int 0, of_int 0, of_int 600, of_int 60).
Proof. vm_compute. repeat split. Qed.

(** * Further properties

    ** The encoder outside the channel values, and its order *)

Lemma canonical_ge_one (m : positive) (e : Z) :
  bounded prec emax m e = true ->
  (forall p, e = Zneg p -> Zpos (2 ^ p) <= Zpos m) ->
  Zpos (digits2_pos m) = 53 /\ -52 <= e.
Proof.
  unfold bounded, canonical_mantissa, fexp, emin, prec, emax. intros Hb Hge.
  apply andb_true_iff in Hb as [Hc _]. apply Z.eqb_eq in Hc.
  pose proof (digits2_pos_bounds m) as [_ Hhi].
  assert (Hd : Zpos (digits2_pos m) <= 53) by lia.
  assert (He : -52 <= e).
  { destruct e as [|p|p]; try lia. specialize (Hge p eq_refl).
    rewrite Pos2Z.inj_pow in Hge.
    destruct (Z_le_gt_dec (Zpos p) 52) as [|Hgt]; [lia|exfalso].
    assert (2 ^ Zpos (digits2_pos m) <= 2 ^ Zpos p) by (apply Z.pow_le_mono_r; lia). lia. }
  split; [lia|exact He].
Qed.

(** X1.  Hard clipping: every binary64 number at or above 1.0 is stored as 32767,
    every one at or below -1.0 as -32768; the store never wraps around. *)
Theorem pcm_sample_clips (x : number) :
  valid_binary prec emax x = true ->
  ((1 <= B2Q x)%Q -> pcm_sample (Some x) = 32767) /\
  ((B2Q x <= -1)%Q -> pcm_sample (Some x) = -32768).
Proof.
  intros Hv. destruct x as [s|s| |s m e]; try (split; intros H; exfalso; revert H; discriminate).
  - split; intros H; exfalso; apply H; reflexivity.
  - split; intros H; exfalso; apply H; reflexivity.
  - split; intros H; exfalso; apply H; reflexivity.
  - cbn [valid_binary] in Hv. split; intros H.
    + assert (Hs : s = false).
      { destruct s; [exfalso|reflexivity]. revert H. unfold B2Q, Qle.
        destruct e as [|p|p]; cbn [cond_Zopp inject_Z Qnum Qden]; intros H.
        - lia.
        - assert (0 < 2 ^ Zpos p) by (apply Z.pow_pos_nonneg; lia). nia.
        - lia. }
      subst s. destruct (canonical_ge_one m e Hv) as [Hd He].
      { intros p ->. revert H. unfold B2Q, Qle. cbn [cond_Zopp inject_Z Qnum Qden]. lia. }
      unfold pcm_sample, ToNumber. rewrite clamp_normal by exact Hd.
      destruct (Z.leb_spec (-52) e); [|lia]. vm_compute. reflexivity.
    + assert (Hs : s = true).
      { destruct s; [reflexivity|exfalso]. revert H. unfold B2Q, Qle.
        destruct e as [|p|p]; cbn [cond_Zopp inject_Z Qnum Qden]; intros H.
        - lia.
        - assert (0 < 2 ^ Zpos p) by (apply Z.pow_pos_nonneg; lia). nia.
        - lia. }
      subst s. destruct (canonical_ge_one m e Hv) as [Hd He].
      { intros p ->. revert H. unfold B2Q, Qle. cbn [cond_Zopp inject_Z Qnum Qden]. lia. }
      unfold pcm_sample, ToNumber. rewrite clamp_normal by exact Hd.
      destruct (Z.leb_spec (-52) e); [|lia]. vm_compute. reflexivity.
Qed.

Lemma pcm_sample_clips_witness : pcm_sample (Some (of_int 2)) = 32767.
Proof.
  apply (proj1 (pcm_sample_clips (of_int 2) eq_refl)).
  vm_compute. discriminate.
Defined.

Lemma Qtruncate_le (q q' : Q) : (q <= q')%Q -> Qtruncate q <= Qtruncate q'.
Proof.
  unfold Qle, Qtruncate. destruct q as [a d], q' as [a' d']. cbn [Qnum Qden]. intros H.
  destruct (Z_lt_le_dec a 0) as [Ha|Ha], (Z_lt_le_dec a' 0) as [Ha'|Ha'].
  - replace a with (- - a) by lia. replace a' with (- - a') by lia.
    rewrite (Z.quot_opp_l (- a)), (Z.quot_opp_l (- a')) by lia.
    rewrite !Z.quot_div_nonneg by lia.
    apply Z.opp_le_mono. rewrite !Z.opp_involutive.
    apply Z.div_le_lower_bound; [lia|].
    pose proof (Z.mul_div_le (- a') (Zpos d') ltac:(lia)).
    assert (0 <= - a' / Zpos d') by (apply Z.div_pos; lia). nia.
  - replace a with (- - a) by lia.
    rewrite (Z.quot_opp_l (- a)) by lia. rewrite !Z.quot_div_nonneg by lia.
    assert (0 <= - a / Zpos d) by (apply Z.div_pos; lia).
    assert (0 <= a' / Zpos d') by (apply Z.div_pos; lia). lia.
  - exfalso. nia.
  - rewrite !Z.quot_div_nonneg by lia.
    apply Z.div_le_lower_bound; [lia|].
    pose proof (Z.mul_div_le a (Zpos d) ltac:(lia)).
    assert (0 <= a / Zpos d) by (apply Z.div_pos; lia). nia.
Qed.

Lemma clamp_le (q q' : Q) : (q <= q')%Q -> (clamp q <= clamp q')%Q.
Proof.
  intros H. unfold clamp. apply Q.max_le_compat_l, Q.min_le_compat_l, H.
Qed.

Lemma clamp_scale_truncate_le (q q' : Q) :
  (q <= q')%Q -> clamp_scale_truncate q <= clamp_scale_truncate q'.
Proof.
  intros H. apply clamp_le in H. unfold clamp_scale_truncate. apply Qtruncate_le.
  destruct (Qlt_le_dec (clamp q) 0) as [Hq|Hq], (Qlt_le_dec (clamp q') 0) as [Hq'|Hq'].
  - apply Qmult_le_compat_r; [exact H|discriminate].
  - apply Qle_trans with 0%Q.
    + apply Qlt_le_weak in Hq. rewrite <- (Qmult_0_l 32768).
      apply Qmult_le_compat_r; [exact Hq|discriminate].
    + apply Qmult_le_0_compat; [exact Hq'|discriminate].
  - exfalso. apply (Qlt_irrefl 0). apply Qle_lt_trans with (clamp q'); [|exact Hq'].
    apply Qle_trans with (clamp q); assumption.
  - apply Qmult_le_compat_r; [exact H|discriminate].
Qed.

(** X2.  The encoder preserves the order of the samples: a louder sample is never
    stored as a smaller value, and zero is stored as zero, so the sign of a
    sample is never flipped. *)
Theorem pcm_sample_monotone (x32 y32 : spec_float) :
  valid_binary 24 128 x32 = true -> is_finite x32 = true ->
  valid_binary 24 128 y32 = true -> is_finite y32 = true ->
  (B2Q x32 <= B2Q y32)%Q ->
  pcm_sample (Some (Float32_to_Number x32)) <= pcm_sample (Some (Float32_to_Number y32)) /\
  ((B2Q x32 <= 0)%Q -> pcm_sample (Some (Float32_to_Number x32)) <= 0) /\
  ((0 <= B2Q y32)%Q -> 0 <= pcm_sample (Some (Float32_to_Number y32))).
Proof.
  intros Hvx Hfx Hvy Hfy H.
  rewrite !pcm_sample_Float32 by assumption.
  assert (H0 : clamp_scale_truncate 0 = 0) by reflexivity.
  split; [apply clamp_scale_truncate_le, H|]. split; intros Hs; rewrite <- H0.
  - apply clamp_scale_truncate_le, Hs.
  - apply clamp_scale_truncate_le, Hs.
Qed.

Lemma pcm_sample_monotone_witness :
  pcm_sample (Some (Float32_to_Number minus_quarter32))
  <= pcm_sample (Some (Float32_to_Number half32)).
Proof.
  refine (proj1 (pcm_sample_monotone minus_quarter32 half32 eq_refl eq_refl eq_refl eq_refl _)).
  vm_compute. discriminate.
Defined.

(** X3.  With channels of unequal length the two capture paths differ: the
    ScriptProcessor handler sends nothing, the worklet still posts a buffer of
    2 * N samples in which the R slots past the end of the short channel are 0. *)
Theorem unequal_channels (inputL inputR : Float32Array) (h : Hook) :
  length inputL <> length inputR ->
  onaudioprocess [inputL; inputR] h = h /\
  exists pcm : list Z,
    process [[inputL; inputR]] = (true, Some pcm) /\
    length pcm = (2 * length inputL)%nat /\
    forall i, (i < length inputL)%nat ->
              pcm !! (2 * i)%nat = Some (pcm_sample (inputL !! i)) /\
              ((length inputR <= i)%nat -> pcm !! (2 * i + 1)%nat = Some 0).
Proof.
  intros Hne. split.
  - rewrite onaudioprocess_spec. cbn [lookup list_lookup]. unfold second_channel.
    cbn [length Nat.ltb Nat.leb lookup list_lookup default from_option id].
    destruct (open_socket h); [|reflexivity].
    destruct (Nat.eqb_spec (length inputL) (length inputR)); [contradiction|reflexivity].
  - exists (interleaved inputL inputR (length inputL)). split; [|split].
    + rewrite process_spec. reflexivity.
    + rewrite length_interleaved. lia.
    + intros i Hi. destruct (interleaved_lookup inputL inputR (length inputL) i Hi) as [HL HR].
      split; [exact HL|]. intros Hshort. rewrite HR.
      rewrite (lookup_ge_None_2 inputR i) by lia. reflexivity.
Qed.

Lemma unequal_channels_witness :
  onaudioprocess [[of_int 1; of_int 0]; [of_int 1]] useAudioStream = useAudioStream /\
  exists pcm : list Z,
    process [[[of_int 1; of_int 0]; [of_int 1]]] = (true, Some pcm) /\
    length pcm = 4%nat.
Proof.
  destruct (unequal_channels [of_int 1; of_int 0] [of_int 1] useAudioStream)
    as [Hs (pcm & Hp & Hl & _)].
  - cbn. lia.
  - split; [exact Hs|]. exists pcm. split; [exact Hp|exact Hl].
Defined.

(** X4.  [process] always returns [true] (the processor stays alive), and posts
    nothing exactly when there is no input or the input has no channel. *)
Theorem process_without_input (inputs : list (list Float32Array)) :
  fst (process inputs) = true /\
  (snd (process inputs) = None <->
   match inputs with [] => True | input :: _ => input = [] end).
Proof.
  destruct inputs as [|input rest]; [split; [reflexivity|split; auto]|].
  rewrite process_spec. destruct input as [|inputL more]; cbn.
  - split; [reflexivity|split; auto].
  - split; [reflexivity|split; discriminate].
Qed.

(** ** The hook: what it puts on the wire *)

Lemma or_default_truthy (v : option number) (d : Z) :
  number_truthy (of_int d) = true -> number_truthy (or_default v d) = true.
Proof.
  intros Hd. unfold or_default. destruct v as [x|]; [|exact Hd].
  destruct (number_truthy x) eqn:E; [exact E|exact Hd].
Qed.

Lemma session_document_control (action : string) (h : Hook) :
  (action = "init" \/ action = "start_record")%string ->
  is_control_document (session_document action h).
Proof.
  intros Ha. left. exists action, (or_default (sampleRate <$> audioContextRef h) 44100),
    (or_default (channelCount <$> audioContextRef h) 2).
  split; [exact Ha|]. split; [apply or_default_truthy; reflexivity|].
  split; [apply or_default_truthy; reflexivity|reflexivity].
Qed.

Lemma interleaved_wire (inputL inputR : Float32Array) (n : nat) :
  wire_format (Binary (interleaved inputL inputR n)).
Proof.
  split; [|apply interleaved_int16].
  rewrite length_interleaved, Nat.even_mul. apply orb_true_r.
Qed.

Lemma send_wire (i : nat) (m : message) (h : Hook) :
  wire_format m -> wire_inv h -> wire_inv (send i m h).
Proof.
  unfold wire_inv, send. intros Hm H.
  destruct (sockets h !! i) as [ws|] eqn:E; [|exact H].
  destruct (readyState ws) eqn:R; try exact H. cbn.
  apply Forall_insert; [exact H|]. cbn.
  apply Forall_app. split; [|repeat constructor; exact Hm].
  exact (proj1 (Forall_lookup _ _) H i ws E).
Qed.

Lemma onaudioprocess_wire (input : list Float32Array) (h : Hook) :
  wire_inv h -> wire_inv (onaudioprocess input h).
Proof.
  intros H. rewrite onaudioprocess_spec. split_cases; try exact H.
  apply send_wire; [apply interleaved_wire|exact H].
Qed.

Lemma worklet_block_wire (input : list Float32Array) (h : Hook) :
  wire_inv h -> wire_inv (worklet_block input h).
Proof.
  intros H. unfold worklet_block. rewrite process_spec. unfold port_onmessage.
  destruct (input !! 0%nat) as [inputL|]; [|exact H].
  destruct (open_socket h); [|exact H].
  apply send_wire; [apply interleaved_wire|exact H].
Qed.

Lemma step_wire (rev : Revision) (h : Hook) (ev : event) :
  wire_inv h -> wire_inv (step rev h ev).
Proof.
  intros H. destruct ev; cbn [step].
  - unfold connectWebSocket. destruct (open_socket h); [exact H|].
    unfold wire_inv in *. cbn. apply Forall_app. split; [exact H|]. repeat constructor.
  - unfold wire_inv in *. destruct (socketRef h) as [i|]; cbn; [|exact H].
    apply Forall_alter; [exact H|]. intros ws _ Hws.
    unfold close. destruct (readyState ws); exact Hws.
  - destruct (sockets h !! i) as [ws|] eqn:E; [|exact H].
    destruct (readyState ws) eqn:R; try exact H.
    unfold onopen. apply send_wire; [apply session_document_control; left; reflexivity|].
    unfold wire_inv in *. cbn. apply Forall_insert; [exact H|]. cbn.
    exact (proj1 (Forall_lookup _ _) H i ws E).
  - destruct (sockets h !! i) as [ws|] eqn:E; [|exact H].
    assert (Hc : wire_inv (onclose (set_sockets
                              (<[i:=set_readyState CLOSED ws]> (sockets h)) h))).
    { unfold wire_inv in *. cbn. apply Forall_insert; [exact H|]. cbn.
      exact (proj1 (Forall_lookup _ _) H i ws E). }
    destruct (readyState ws); try exact Hc. exact H.
  - destruct (sockets h !! i) as [ws|]; [|exact H].
    destruct (readyState ws); try exact H; unfold wire_inv; rewrite onmessage_sockets; exact H.
  - destruct (socketRef h); [exact H|].
    unfold connectWebSocket. destruct (open_socket h); [exact H|].
    unfold wire_inv in *. cbn. apply Forall_app. split; [exact H|]. repeat constructor.
  - destruct rev; [|destruct loaded]; exact H.
  - destruct (capturing h); [|exact H].
    destruct rev; [apply onaudioprocess_wire|apply worklet_block_wire]; exact H.
  - unfold startRecording. destruct (open_socket h); [|exact H].
    unfold wire_inv. cbn. apply send_wire; [|exact H].
    apply session_document_control. right. reflexivity.
  - unfold stopRecording. destruct (open_socket h); [|exact H].
    apply send_wire; [|exact H]. right. left. reflexivity.
  - unfold setSettings. destruct (open_socket h); [|exact H].
    apply send_wire; [|exact H]. right. right. eexists _, _, _, _. reflexivity.
Qed.

Lemma run_wire (rev : Revision) (evs : list event) : wire_inv (run rev evs).
Proof.
  induction evs as [|ev evs IH] using rev_ind.
  - constructor.
  - rewrite run_app. apply step_wire, IH.
Qed.

(** X5.  Every audio frame the hook has sent, in any state it can reach, holds an
    even number of samples, each in the 16-bit range. *)
Theorem sent_frames_are_stereo_int16 (rev : Revision) (evs : list event)
    (ws : WebSocket) (pcm : list Z) :
  In ws (sockets (run rev evs)) -> In (Binary pcm) (sent ws) ->
  Nat.even (length pcm) = true /\ Forall (fun s => is_int16 s = true) pcm.
Proof.
  intros Hws Hm. pose proof (run_wire rev evs) as H. unfold wire_inv in H.
  rewrite Forall_forall in H. apply list_elem_of_In in Hws. specialize (H ws Hws).
  rewrite Forall_forall in H. apply list_elem_of_In in Hm. exact (H _ Hm).
Qed.

Lemma sent_frames_are_stereo_int16_witness :
  Nat.even (length [16383; 16383]) = true /\
  Forall (fun s => is_int16 s = true) [16383; 16383].
Proof.
  apply (sent_frames_are_stereo_int16 ScriptProcessor trace_capture
           (mkWebSocket OPEN [Text init_defaults; Binary [16383; 16383]]) [16383; 16383]).
  - vm_compute. left. reflexivity.
  - right. left. reflexivity.
Defined.

(** X6.  Every text message the hook has sent is one of the four control documents. *)
Theorem sent_documents_are_control (rev : Revision) (evs : list event)
    (ws : WebSocket) (v : json) :
  In ws (sockets (run rev evs)) -> In (Text v) (sent ws) -> is_control_document v.
Proof.
  intros Hws Hm. pose proof (run_wire rev evs) as H. unfold wire_inv in H.
  rewrite Forall_forall in H. apply list_elem_of_In in Hws. specialize (H ws Hws).
  rewrite Forall_forall in H. apply list_elem_of_In in Hm. exact (H _ Hm).
Qed.

Lemma sent_documents_are_control_witness : is_control_document init_defaults.
Proof.
  apply (sent_documents_are_control ScriptProcessor trace_capture
           (mkWebSocket OPEN [Text init_defaults; Binary [16383; 16383]]) init_defaults).
  - vm_compute. left. reflexivity.
  - left. reflexivity.
Defined.

(** ** The hook: which socket it talks to *)

Lemma send_shape (i : nat) (m : message) (h : Hook) :
  socketRef (send i m h) = socketRef h /\
  length (sockets (send i m h)) = length (sockets h).
Proof.
  unfold send. destruct (sockets h !! i) as [ws|]; [|split; reflexivity].
  destruct (readyState ws); cbn; rewrite ?length_insert; split; reflexivity.
Qed.

(** Every event either is a call of [connectWebSocket] or keeps the ref and the
    number of sockets. *)
Lemma step_shape (rev : Revision) (h : Hook) (ev : event) :
  ((ev = Mount \/ ev = StartAudio /\ socketRef h = None) /\
   step rev h ev = connectWebSocket h) \/
  (socketRef (step rev h ev) = socketRef h /\
   length (sockets (step rev h ev)) = length (sockets h)).
Proof.
  destruct ev; cbn [step]; try (left; split; [left; reflexivity|reflexivity]).
  - right. destruct (socketRef h) eqn:E; cbn; rewrite ?length_alter, ?E; split; reflexivity.
  - right. destruct (sockets h !! i) as [ws|]; [|split; reflexivity].
    destruct (readyState ws); try (split; reflexivity).
    unfold onopen. destruct (send_shape i (Text (session_document "init"
      (setIsConnected true (set_sockets (<[i:=set_readyState OPEN ws]> (sockets h)) h))))
      (setIsConnected true (set_sockets (<[i:=set_readyState OPEN ws]> (sockets h)) h)))
      as [-> ->]. cbn. rewrite length_insert. split; reflexivity.
  - right. destruct (sockets h !! i) as [ws|]; [|split; reflexivity].
    destruct (readyState ws); cbn; rewrite ?length_insert; split; reflexivity.
  - right. destruct (sockets h !! i) as [ws|]; [|split; reflexivity].
    destruct (readyState ws); try (split; reflexivity).
    all: rewrite onmessage_sockets; unfold onmessage; split_cases; split; reflexivity.
  - destruct (socketRef h) eqn:E; [right; rewrite E; split; reflexivity|left; auto].
  - right. destruct rev; [|destruct loaded]; split; reflexivity.
  - right. destruct (capturing h); [|split; reflexivity]. destruct rev.
    + rewrite onaudioprocess_spec. split_cases; try (split; reflexivity); apply send_shape.
    + unfold worklet_block, port_onmessage. split_cases; try (split; reflexivity);
        apply send_shape.
  - right. unfold startRecording. destruct (open_socket h) as [i|]; [|split; reflexivity].
    cbn. apply send_shape.
  - right. unfold stopRecording. destruct (open_socket h) as [i|]; [|split; reflexivity].
    apply send_shape.
  - right. unfold setSettings. destruct (open_socket h) as [i|]; [|split; reflexivity].
    apply send_shape.
Qed.

Lemma connectWebSocket_current_is_last (h : Hook) :
  current_is_last h -> current_is_last (connectWebSocket h).
Proof.
  unfold current_is_last, connectWebSocket. intros H.
  destruct (open_socket h); [exact H|]. cbn. rewrite length_app. cbn. lia.
Qed.

Lemma step_current_is_last (rev : Revision) (h : Hook) (ev : event) :
  current_is_last h -> current_is_last (step rev h ev).
Proof.
  intros H. destruct (step_shape rev h ev) as [[_ ->]|[Hr Hl]].
  - apply connectWebSocket_current_is_last, H.
  - unfold current_is_last in *. rewrite Hr, Hl. destruct (socketRef h); [exact H|].
    rewrite H in Hl. destruct (sockets (step rev h ev)); [reflexivity|discriminate Hl].
Qed.

Lemma run_current_is_last (rev : Revision) (evs : list event) :
  current_is_last (run rev evs).
Proof.
  induction evs as [|ev evs IH] using rev_ind.
  - reflexivity.
  - rewrite run_app. apply step_current_is_last, IH.
Qed.

Lemma step_socketRef_set (rev : Revision) (h : Hook) (ev : event) :
  socketRef h <> None -> socketRef (step rev h ev) <> None.
Proof.
  intros H. destruct (step_shape rev h ev) as [[_ ->]|[-> _]]; [|exact H].
  unfold connectWebSocket. destruct (open_socket h); [exact H|discriminate].
Qed.

Lemma run_Mount_socketRef (rev : Revision) (evs : list event) :
  socketRef (run rev (Mount :: evs)) <> None.
Proof.
  induction evs as [|ev evs IH] using rev_ind.
  - discriminate.
  - rewrite app_comm_cons, run_app. apply step_socketRef_set, IH.
Qed.

(** X7.  The hook talks to the socket it created last: in every reachable state
    [socketRef.current] is null exactly when no socket was ever created, and
    otherwise is the newest socket; once the mount effect has run it is never
    null again, so [startAudio] never opens a second connection. *)
Theorem socketRef_is_newest_socket (rev : Revision) (evs : list event) :
  match socketRef (run rev evs) with
  | None => sockets (run rev evs) = []
  | Some i => S i = length (sockets (run rev evs))
  end /\
  socketRef (run rev (Mount :: evs)) <> None /\
  step rev (run rev (Mount :: evs)) StartAudio = run rev (Mount :: evs).
Proof.
  split; [apply run_current_is_last|]. split; [apply run_Mount_socketRef|].
  cbn [step]. pose proof (run_Mount_socketRef rev evs) as H.
  destruct (socketRef (run rev (Mount :: evs))); [reflexivity|contradiction].
Qed.

(** X8.  No automatic reconnection: once a socket exists, only the mount effect
    creates another; every other event leaves [socketRef.current] and the
    number of sockets as they are. *)
Theorem only_mount_reconnects (rev : Revision) (h : Hook) (ev : event) :
  socketRef h <> None -> ev <> Mount ->
  socketRef (step rev h ev) = socketRef h /\
  length (sockets (step rev h ev)) = length (sockets h).
Proof.
  intros Href Hev. destruct (step_shape rev h ev) as [[[->|[_ Hn]] _]|H]; [| |exact H];
    contradiction.
Qed.

Lemma only_mount_reconnects_witness :
  length (sockets (step ScriptProcessor (run ScriptProcessor [Mount; WsOpen 0; WsClose 0])
                        StartAudio)) = 1%nat.
Proof.
  apply (only_mount_reconnects ScriptProcessor
           (run ScriptProcessor [Mount; WsOpen 0; WsClose 0]) StartAudio); discriminate.
Defined.

(** ** The hook: before the microphone, and the state cells *)

Lemma send_text_no_frame (i : nat) (v : json) (h : Hook) :
  nothing_captured h -> nothing_captured (send i (Text v) h).
Proof.
  unfold nothing_captured, send. intros (Hc & Hn & H).
  destruct (sockets h !! i) as [ws|] eqn:E; [|auto].
  destruct (readyState ws); auto. cbn. repeat split; try assumption.
  apply Forall_insert; [exact H|]. cbn. apply Forall_app. split; [|repeat constructor].
  exact (proj1 (Forall_lookup _ _) H i ws E).
Qed.

Lemma connectWebSocket_no_frame (h : Hook) :
  nothing_captured h -> nothing_captured (connectWebSocket h).
Proof.
  unfold nothing_captured, connectWebSocket. intros (Hc & Hn & H).
  destruct (open_socket h); [auto|]. cbn. repeat split; try assumption.
  apply Forall_app. split; [exact H|]. repeat constructor.
Qed.

Lemma step_no_frame (rev : Revision) (h : Hook) (ev : event) :
  is_MediaGranted ev = false -> nothing_captured h -> nothing_captured (step rev h ev).
Proof.
  intros Hev H. pose proof H as (Hc & Hn & Hf).
  destruct ev; try discriminate Hev; cbn [step].
  - apply connectWebSocket_no_frame, H.
  - unfold nothing_captured. destruct (socketRef h) as [i|]; cbn; [|auto].
    repeat split; try assumption. apply Forall_alter; [exact Hf|]. intros ws _ Hws.
    unfold close. destruct (readyState ws); exact Hws.
  - destruct (sockets h !! i) as [ws|] eqn:E; [|exact H].
    destruct (readyState ws); try exact H. unfold onopen. apply send_text_no_frame.
    unfold nothing_captured. cbn. repeat split; try assumption.
    apply Forall_insert; [exact Hf|]. cbn. exact (proj1 (Forall_lookup _ _) Hf i ws E).
  - destruct (sockets h !! i) as [ws|] eqn:E; [|exact H].
    assert (Hx : nothing_captured (onclose (set_sockets
                    (<[i:=set_readyState CLOSED ws]> (sockets h)) h))).
    { unfold nothing_captured. cbn. repeat split; try assumption.
      apply Forall_insert; [exact Hf|]. cbn. exact (proj1 (Forall_lookup _ _) Hf i ws E). }
    destruct (readyState ws); try exact Hx. exact H.
  - destruct (sockets h !! i) as [ws|]; [|exact H].
    destruct (readyState ws); try exact H.
    all: unfold nothing_captured; rewrite onmessage_sockets.
    all: unfold onmessage; split_cases; cbn; auto.
  - destruct (socketRef h); [exact H|]. apply connectWebSocket_no_frame, H.
  - rewrite Hn. exact H.
  - unfold startRecording. destruct (open_socket h) as [i|]; [|exact H].
    pose proof (send_text_no_frame i (session_document "start_record" h) h H) as (A & B & C).
    unfold nothing_captured. cbn. auto.
  - unfold stopRecording. destruct (open_socket h) as [i|]; [|exact H].
    apply send_text_no_frame, H.
  - unfold setSettings. destruct (open_socket h) as [i|]; [|exact H].
    apply send_text_no_frame, H.
Qed.

Lemma run_no_frame (rev : Revision) (evs : list event) :
  forallb (fun ev => negb (is_MediaGranted ev)) evs = true ->
  nothing_captured (run rev evs).
Proof.
  induction evs as [|ev evs IH] using rev_ind; intros Hevs.
  - repeat split. constructor.
  - rewrite forallb_app in Hevs. apply andb_true_iff in Hevs as [Hevs Hev].
    cbn in Hev. rewrite andb_true_r in Hev. apply negb_true_iff in Hev.
    rewrite run_app. apply step_no_frame; auto.
Qed.

(** X10.  A socket that opens before the audio context exists announces the
    defaults: [init] carries sample_rate 44100 and channels 2. *)
Theorem init_before_audio_context_carries_defaults (rev : Revision) (evs : list event)
    (i : nat) (ws : WebSocket) :
  forallb (fun ev => negb (is_MediaGranted ev)) evs = true ->
  sockets (run rev evs) !! i = Some ws -> readyState ws = CONNECTING ->
  sockets (step rev (run rev evs) (WsOpen i)) !! i =
  Some (mkWebSocket OPEN
          [Text (JObj [("action", JStr "init"); ("sample_rate", JNum (of_int 44100));
                       ("channels", JNum (of_int 2))]%string)]).
Proof.
  intros Hevs E R. destruct (run_no_frame rev evs Hevs) as (Hctx & _ & _).
  pose proof (proj1 (Forall_lookup _ _) (run_inv rev evs) i ws E) as Hws.
  pose proof (socket_inv_connecting ws Hws R) as Hsent.
  cbn [step]. rewrite E, R. unfold onopen, send. cbn.
  rewrite list_lookup_insert_eq by (eapply lookup_lt_Some; exact E). cbn.
  rewrite list_insert_insert_eq, list_lookup_insert_eq by (eapply lookup_lt_Some; exact E).
  rewrite Hsent. unfold session_document. cbn. rewrite Hctx. reflexivity.
Qed.

Lemma init_before_audio_context_carries_defaults_witness :
  sockets (step AudioWorklet (run AudioWorklet [Mount]) (WsOpen 0)) !! 0%nat =
  Some (mkWebSocket OPEN
          [Text (JObj [("action", JStr "init"); ("sample_rate", JNum (of_int 44100));
                       ("channels", JNum (of_int 2))]%string)]).
Proof.
  apply (init_before_audio_context_carries_defaults AudioWorklet [Mount] 0
           (mkWebSocket CONNECTING [])); reflexivity.
Defined.

(** X11.  Once isRecording is true, only an incoming message changes it:
    [stopRecording], the closing of the socket, the unmount and every other
    event leave it true. *)
Theorem isRecording_stays_until_message (rev : Revision) (h : Hook) (ev : event) :
  isRecording h = true -> is_WsMessage ev = false ->
  isRecording (step rev h ev) = true.
Proof.
  intros Hrec Hev. destruct ev; try discriminate Hev.
  all: unfold_handlers; split_cases; cbn; first [assumption|reflexivity].
Qed.

Lemma isRecording_stays_until_message_witness :
  isRecording (step ScriptProcessor (run ScriptProcessor trace_startRecording) StopRecording)
  = true.
Proof.
  apply (isRecording_stays_until_message ScriptProcessor
           (run ScriptProcessor trace_startRecording) StopRecording).
  - vm_compute. reflexivity.
  - reflexivity.
Defined.

(** X12.  A message that does not parse, is [null], is not an object, or whose
    type is neither [meter] nor [recording_saved] changes nothing. *)
Theorem onmessage_ignores_other_messages (data : option json) (h : Hook) :
  is_string (message_type data) "meter" = false ->
  is_string (message_type data) "recording_saved" = false ->
  onmessage data h = h.
Proof.
  intros Hm Hr. unfold onmessage. destruct data as [[| | | | |fields]|]; try reflexivity.
  cbn [property]. cbn [message_type] in Hm, Hr. rewrite Hm, Hr. reflexivity.
Qed.

Lemma onmessage_ignores_other_messages_witness :
  onmessage (Some (JObj [("type", JStr "pong")]%string)) useAudioStream = useAudioStream.
Proof.
  apply (onmessage_ignores_other_messages
           (Some (JObj [("type", JStr "pong")]%string)) useAudioStream); reflexivity.
Defined.

(** ** The hook: one event, one socket *)

Lemma send_log (j : nat) (m : message) (h : Hook) (i : nat) (ws : WebSocket) :
  sockets h !! i = Some ws ->
  sockets (send j m h) !! i = Some ws \/
  (j = i /\ readyState ws = OPEN /\
   sockets (send j m h) !! i = Some (mkWebSocket OPEN (sent ws ++ [m]))).
Proof.
  intros E. unfold send. destruct (sockets h !! j) as [wj|] eqn:Ej; [|left; exact E].
  destruct (readyState wj) eqn:R; try (left; exact E). cbn.
  destruct (Nat.eq_dec j i) as [->|Hne].
  - right. rewrite E in Ej. injection Ej as <-. split; [reflexivity|]. split; [exact R|].
    apply list_lookup_insert_eq. eapply lookup_lt_Some, E.
  - left. rewrite list_lookup_insert_ne by exact Hne. exact E.
Qed.

Lemma send_current_log (rev : Revision) (h : Hook) (ev : event) (j : nat) (m : message)
    (i : nat) (ws : WebSocket) :
  transmits ev = true -> open_socket h = Some j -> sockets h !! i = Some ws ->
  exists ws', sockets (send j m h) !! i = Some ws' /\
    (lifecycle (readyState ws) <= lifecycle (readyState ws'))%nat /\
    (sent ws' = sent ws \/
     exists m, sent ws' = sent ws ++ [m] /\ readyState ws' = OPEN /\
       (ev = WsOpen i /\ readyState ws = CONNECTING \/
        transmits ev = true /\ socketRef h = Some i /\ readyState ws = OPEN)).
Proof.
  intros Hev Hopen E. apply open_socket_Some in Hopen as [Href _].
  destruct (send_log j m h i ws E) as [H|(-> & R & H)].
  - exists ws. split; [exact H|]. split; [lia|left; reflexivity].
  - eexists. split; [exact H|]. split; [rewrite R; cbn; lia|]. right. exists m. cbn. auto 10.
Qed.

Lemma same_log (rev : Revision) (h : Hook) (ev : event) (i : nat) (ws ws' : WebSocket) :
  sockets (step rev h ev) !! i = Some ws' ->
  (lifecycle (readyState ws) <= lifecycle (readyState ws'))%nat ->
  sent ws' = sent ws -> log_step rev h ev i ws.
Proof. intros H Hr Hs. exists ws'. split; [exact H|]. split; [exact Hr|left; exact Hs]. Qed.

Lemma connectWebSocket_lookup (h : Hook) (i : nat) (ws : WebSocket) :
  sockets h !! i = Some ws -> sockets (connectWebSocket h) !! i = Some ws.
Proof.
  intros E. unfold connectWebSocket. destruct (open_socket h); [exact E|]. cbn.
  apply lookup_app_l_Some, E.
Qed.

Lemma onopen_sockets (i : nat) (w0 : WebSocket) (h : Hook) :
  sockets h !! i = Some w0 ->
  exists m, sockets (onopen i (set_sockets (<[i := set_readyState OPEN w0]> (sockets h)) h))
            = <[i := mkWebSocket OPEN (sent w0 ++ [m])]> (sockets h).
Proof.
  intros E. unfold onopen. eexists.
  erewrite send_open; [|cbn; apply list_lookup_insert_eq; eapply lookup_lt_Some, E|reflexivity].
  cbn. rewrite list_insert_insert_eq. reflexivity.
Qed.

Lemma step_log (rev : Revision) (h : Hook) (ev : event) (i : nat) (ws : WebSocket) :
  sockets h !! i = Some ws -> log_step rev h ev i ws.
Proof.
  intros E.
  assert (Hsend : forall j m, transmits ev = true -> open_socket h = Some j ->
            step rev h ev = send j m h \/ sockets (step rev h ev) = sockets (send j m h) ->
            log_step rev h ev i ws).
  { intros j m Hev Hopen Hstep.
    destruct (send_current_log rev h ev j m i ws Hev Hopen E) as (ws' & H & Hcases).
    exists ws'. split; [|exact Hcases]. destruct Hstep as [->| ->]; exact H. }
  assert (Hsame : sockets (step rev h ev) = sockets h -> log_step rev h ev i ws).
  { intros Hs. apply (same_log _ _ _ _ _ ws); [rewrite Hs; exact E|lia|reflexivity]. }
  destruct ev.
  - apply (same_log _ _ _ _ _ ws); [apply connectWebSocket_lookup, E|lia|reflexivity].
  - destruct (socketRef h) as [j|] eqn:Er; [|apply Hsame; cbn [step]; rewrite Er; reflexivity].
    destruct (Nat.eq_dec j i) as [->|Hne].
    + apply (same_log _ _ _ _ _ (close ws)).
      * cbn [step]. rewrite Er. cbn. rewrite list_lookup_alter_eq, E. reflexivity.
      * unfold close. destruct (readyState ws) eqn:R; cbn; rewrite ?R; cbn; lia.
      * unfold close. destruct (readyState ws); reflexivity.
    + apply (same_log _ _ _ _ _ ws); [|lia|reflexivity].
      cbn [step]. rewrite Er. cbn. rewrite list_lookup_alter_ne by exact Hne. exact E.
  - destruct (sockets h !! i0) as [w0|] eqn:E0; [|apply Hsame; cbn [step]; rewrite E0; reflexivity].
    destruct (readyState w0) eqn:R0.
    2-4: apply Hsame; cbn [step]; rewrite E0, R0; reflexivity.
    destruct (onopen_sockets i0 w0 h E0) as [m Hm].
    unfold log_step. cbn [step]. rewrite E0, R0, Hm.
    destruct (Nat.eq_dec i0 i) as [->|Hne].
    + rewrite E in E0. injection E0 as <-. eexists. split.
      * apply list_lookup_insert_eq. eapply lookup_lt_Some, E.
      * split; [rewrite R0; cbn; lia|]. right. exists m. cbn. auto.
    + exists ws. split; [|split; [lia|left; reflexivity]].
      rewrite list_lookup_insert_ne by exact Hne. exact E.
  - destruct (sockets h !! i0) as [w0|] eqn:E0; [|apply Hsame; cbn [step]; rewrite E0; reflexivity].
    destruct (readyState w0) eqn:R0.
    4: apply Hsame; cbn [step]; rewrite E0, R0; reflexivity.
    all: destruct (Nat.eq_dec i0 i) as [->|Hne];
      [rewrite E in E0; injection E0 as <-;
       apply (same_log _ _ _ _ _ (set_readyState CLOSED ws));
       [cbn [step]; rewrite E, R0; cbn; apply list_lookup_insert_eq; eapply lookup_lt_Some, E
       |rewrite R0; cbn; lia|reflexivity]
      |apply (same_log _ _ _ _ _ ws); [|lia|reflexivity];
       cbn [step]; rewrite E0, R0; cbn; rewrite list_lookup_insert_ne by exact Hne; exact E].
  - apply Hsame. cbn [step]. destruct (sockets h !! i0) as [w0|]; [|reflexivity].
    destruct (readyState w0); try reflexivity; apply onmessage_sockets.
  - destruct (socketRef h) eqn:Er; [apply Hsame; cbn [step]; rewrite Er; reflexivity|].
    apply (same_log _ _ _ _ _ ws); [|lia|reflexivity].
    cbn [step]. rewrite Er. apply connectWebSocket_lookup, E.
  - apply Hsame. cbn [step]. destruct rev; [|destruct loaded]; reflexivity.
  - cbn [step] in *. destruct (capturing h); [|apply Hsame; reflexivity]. destruct rev.
    + rewrite onaudioprocess_spec in *. destruct (open_socket h) as [j|] eqn:Ho; [|apply Hsame; reflexivity].
      destruct (input !! 0%nat) as [inputL|]; [|apply Hsame; reflexivity].
      destruct (_ =? _)%nat; [|apply Hsame; reflexivity].
      eapply Hsend; [reflexivity|reflexivity|left; reflexivity].
    + unfold worklet_block, port_onmessage in *.
      destruct (process [input]) as [b [data|]]; [|apply Hsame; reflexivity].
      destruct (open_socket h) as [j|] eqn:Ho; [|apply Hsame; reflexivity].
      eapply Hsend; [reflexivity|reflexivity|left; reflexivity].
  - cbn [step] in *. unfold startRecording in *.
    destruct (open_socket h) as [j|] eqn:Ho; [|apply Hsame; reflexivity].
    eapply Hsend; [reflexivity|reflexivity|right; reflexivity].
  - cbn [step] in *. unfold stopRecording in *.
    destruct (open_socket h) as [j|] eqn:Ho; [|apply Hsame; reflexivity].
    eapply Hsend; [reflexivity|reflexivity|left; reflexivity].
  - cbn [step] in *. unfold setSettings in *.
    destruct (open_socket h) as [j|] eqn:Ho; [|apply Hsame; reflexivity].
    eapply Hsend; [reflexivity|reflexivity|left; reflexivity].
Qed.

(** X13.  One event changes the log of a socket by at most one message, appended at
    the end, and only in two ways: the [init] document when the socket opens,
    or a transmission of the hook on [socketRef.current] while that is open.
    The [readyState] of a socket never moves back. *)
Theorem one_message_per_event (rev : Revision) (h : Hook) (ev : event) (i : nat)
    (ws : WebSocket) :
  sockets h !! i = Some ws ->
  exists ws', sockets (step rev h ev) !! i = Some ws' /\
    (lifecycle (readyState ws) <= lifecycle (readyState ws'))%nat /\
    (sent ws' = sent ws \/
     exists m, sent ws' = sent ws ++ [m] /\ readyState ws' = OPEN /\
       (ev = WsOpen i /\ readyState ws = CONNECTING \/
        transmits ev = true /\ socketRef h = Some i /\ readyState ws = OPEN)).
Proof. apply step_log. Qed.

Lemma one_message_per_event_witness :
  exists ws', sockets (step ScriptProcessor (run ScriptProcessor [Mount]) (WsOpen 0)) !! 0%nat
              = Some ws' /\
    (lifecycle CONNECTING <= lifecycle (readyState ws'))%nat.
Proof.
  destruct (one_message_per_event ScriptProcessor (run ScriptProcessor [Mount]) (WsOpen 0) 0
              (mkWebSocket CONNECTING []) eq_refl) as (ws' & E & Hr & _).
  exists ws'. split; [exact E|exact Hr].
Defined.

(** Replacing a socket by one with the same frames, or with a text message
    more, adds no frame. *)
Lemma insert_frames (l : list WebSocket) (j i : nat) (w ws' : WebSocket) (pcm : list Z) :
  (forall w0, l !! j = Some w0 -> In (Binary pcm) (sent w) -> In (Binary pcm) (sent w0)) ->
  <[j := w]> l !! i = Some ws' -> In (Binary pcm) (sent ws') ->
  exists ws, l !! i = Some ws /\ In (Binary pcm) (sent ws).
Proof.
  intros Hw E Hin. apply list_lookup_insert_Some in E as [(-> & -> & Hlt)|[_ E]].
  - apply lookup_lt_is_Some in Hlt as [w0 E0]. exists w0. split; [exact E0|]. auto.
  - exists ws'. auto.
Qed.

Lemma send_text_frames (j : nat) (v : json) (h : Hook) (i : nat) (ws' : WebSocket)
    (pcm : list Z) :
  sockets (send j (Text v) h) !! i = Some ws' -> In (Binary pcm) (sent ws') ->
  exists ws, sockets h !! i = Some ws /\ In (Binary pcm) (sent ws).
Proof.
  unfold send. destruct (sockets h !! j) as [wj|] eqn:Ej; [|eauto].
  destruct (readyState wj); eauto. cbn. apply insert_frames.
  intros w0 E0 Hin. rewrite Ej in E0. injection E0 as <-. cbn in Hin.
  apply in_app_or in Hin as [Hin|[Hin|[]]]; [exact Hin|discriminate Hin].
Qed.

Lemma connectWebSocket_frames (h : Hook) (i : nat) (ws' : WebSocket) (pcm : list Z) :
  sockets (connectWebSocket h) !! i = Some ws' -> In (Binary pcm) (sent ws') ->
  exists ws, sockets h !! i = Some ws /\ In (Binary pcm) (sent ws).
Proof.
  unfold connectWebSocket. destruct (open_socket h); [eauto|]. cbn. intros E Hin.
  apply lookup_app_Some in E as [E|[_ E]]; [eauto|].
  apply list_lookup_singleton_Some in E as [_ <-]. destruct Hin.
Qed.

(** X9.  Audio frames come from audio blocks only: whatever the state of the
    hook, an event other than the delivery of a block (the opening or closing
    of a socket, a message, the mount and its cleanup, [startAudio],
    [startRecording], [stopRecording], [setSettings]) puts no binary frame on
    any socket; every frame found in a log afterwards was there before. *)
Theorem frames_come_from_audio_blocks (rev : Revision) (h : Hook) (ev : event) (i : nat)
    (ws' : WebSocket) (pcm : list Z) :
  (forall input, ev <> AudioBlock input) ->
  sockets (step rev h ev) !! i = Some ws' -> In (Binary pcm) (sent ws') ->
  exists ws, sockets h !! i = Some ws /\ In (Binary pcm) (sent ws).
Proof.
  intros Hev. destruct ev; cbn [step].
  - apply connectWebSocket_frames.
  - destruct (socketRef h) as [j|]; cbn; [|eauto]. intros E Hin.
    destruct (Nat.eq_dec j i) as [->|Hne].
    + rewrite list_lookup_alter_eq in E. destruct (sockets h !! i) as [ws|]; [|discriminate E].
      injection E as <-. exists ws. split; [reflexivity|].
      unfold close in Hin. destruct (readyState ws); exact Hin.
    + rewrite list_lookup_alter_ne in E by exact Hne. eauto.
  - destruct (sockets h !! i0) as [w0|] eqn:E0; [|eauto].
    destruct (readyState w0); eauto. unfold onopen. intros E Hin.
    apply send_text_frames with (pcm := pcm) in E; [|exact Hin].
    destruct E as (ws & E & Hin'). cbn in E. revert E Hin'. apply insert_frames.
    intros w1 E1 H. rewrite E0 in E1. injection E1 as <-. exact H.
  - destruct (sockets h !! i0) as [w0|] eqn:E0; [|eauto].
    destruct (readyState w0); eauto; cbn; apply insert_frames.
    all: intros w1 E1 H; rewrite E0 in E1; injection E1 as <-; exact H.
  - destruct (sockets h !! i0) as [w0|]; [|eauto].
    destruct (readyState w0); rewrite ?onmessage_sockets; eauto.
  - destruct (socketRef h); [eauto|]. apply connectWebSocket_frames.
  - destruct rev; [|destruct loaded]; cbn; eauto.
  - exfalso. exact (Hev input eq_refl).
  - unfold startRecording. destruct (open_socket h) as [j|]; [|eauto].
    cbn. apply send_text_frames.
  - unfold stopRecording. destruct (open_socket h) as [j|]; [|eauto].
    apply send_text_frames.
  - unfold setSettings. destruct (open_socket h) as [j|]; [|eauto].
    apply send_text_frames.
Qed.

Lemma frames_come_from_audio_blocks_witness :
  exists ws,
    sockets (run ScriptProcessor trace_capture) !! 0%nat = Some ws /\
    In (Binary [16383; 16383]) (sent ws).
Proof.
  apply (frames_come_from_audio_blocks ScriptProcessor (run ScriptProcessor trace_capture)
           StopRecording 0
           (mkWebSocket OPEN [Text init_defaults; Binary [16383; 16383];
                              Text (JObj [("action", JStr "stop_record")]%string)])
           [16383; 16383]).
  - discriminate.
  - vm_compute. reflexivity.
  - right. left. reflexivity.
Defined.

(** X14.  A socket that is closing or closed stays so and transmits nothing more,
    whatever happens afterwards. *)
Theorem closed_socket_is_silent (rev : Revision) (evs : list event) (h : Hook) (i : nat)
    (ws : WebSocket) :
  sockets h !! i = Some ws -> (2 <= lifecycle (readyState ws))%nat ->
  exists ws', sockets (foldl (step rev) h evs) !! i = Some ws' /\
    (2 <= lifecycle (readyState ws'))%nat /\ sent ws' = sent ws.
Proof.
  revert h ws. induction evs as [|ev evs IH]; intros h ws E Hr.
  - exists ws. auto.
  - cbn [foldl]. destruct (step_log rev h ev i ws E) as (w1 & E1 & Hr1 & Hcases).
    assert (Hs1 : sent w1 = sent ws).
    { destruct Hcases as [Hs|(m & _ & _ & [[_ R]|(_ & _ & R)])]; [exact Hs| |];
        rewrite R in Hr; cbn in Hr; lia. }
    destruct (IH (step rev h ev) w1 E1 ltac:(lia)) as (w2 & E2 & Hr2 & Hs2).
    exists w2. split; [exact E2|]. split; [exact Hr2|congruence].
Qed.

Lemma closed_socket_is_silent_witness :
  exists ws',
    sockets (foldl (step ScriptProcessor) (run ScriptProcessor [Mount; WsOpen 0; Unmount])
               [Mount; StartRecording; WsClose 0]) !! 0%nat = Some ws' /\
    sent ws' = [Text init_defaults].
Proof.
  destruct (closed_socket_is_silent ScriptProcessor [Mount; StartRecording; WsClose 0]
              (run ScriptProcessor [Mount; WsOpen 0; Unmount]) 0
              (mkWebSocket CLOSING [Text init_defaults]))
    as (ws' & E & _ & Hs).
  - vm_compute. reflexivity.
  - cbn. lia.
  - exists ws'. split; [exact E|exact Hs].
Defined.

(** X15.  The cleanup of the effect: after it the hook transmits nothing and builds
    no frame, until the effect runs again. *)
Theorem unmount_silences (rev : Revision) (h : Hook) (ev : event) :
  transmits ev = true ->
  step rev (step rev h Unmount) ev = step rev h Unmount.
Proof.
  intros Hev. set (h' := step rev h Unmount).
  assert (Hopen : open_socket h' = None).
  { unfold h', open_socket. cbn [step]. destruct (socketRef h) as [j|] eqn:Er; cbn; rewrite Er; [|reflexivity].
    rewrite list_lookup_alter_eq. destruct (sockets h !! j) as [w|]; [|reflexivity]. cbn.
    unfold close. destruct (readyState w) eqn:R; cbn; rewrite ?R; reflexivity. }
  assert (Hcap : capturing h' = false) by reflexivity.
  destruct ev; try discriminate Hev; cbn [step].
  - rewrite Hcap. reflexivity.
  - unfold startRecording. rewrite Hopen. reflexivity.
  - unfold stopRecording. rewrite Hopen. reflexivity.
  - unfold setSettings. rewrite Hopen. reflexivity.
Qed.

Lemma unmount_silences_witness :
  step ScriptProcessor (step ScriptProcessor (run ScriptProcessor [Mount; WsOpen 0]) Unmount)
       StartRecording
  = step ScriptProcessor (run ScriptProcessor [Mount; WsOpen 0]) Unmount.
Proof.
  apply (unmount_silences ScriptProcessor (run ScriptProcessor [Mount; WsOpen 0])
           StartRecording).
  reflexivity.
Defined.

(** ** The hook: the recording and connection flags *)

(** What a socket has transmitted stays in its log. *)
Lemma step_keeps_log (rev : Revision) (h : Hook) (ev : event) (i : nat) (ws : WebSocket)
    (m : message) :
  sockets h !! i = Some ws -> In m (sent ws) ->
  exists ws', sockets (step rev h ev) !! i = Some ws' /\ In m (sent ws').
Proof.
  intros E Hm. destruct (step_log rev h ev i ws E) as (ws' & E' & _ & Hcases).
  exists ws'. split; [exact E'|].
  destruct Hcases as [->|(m' & -> & _)]; [exact Hm|]. apply in_or_app. left. exact Hm.
Qed.

Lemma onmessage_isRecording (data : option json) (h : Hook) :
  isRecording (onmessage data h) = true -> isRecording h = true.
Proof.
  unfold onmessage. split_cases; cbn; auto; discriminate.
Qed.

Lemma startRecording_sent (h : Hook) :
  isRecording (startRecording h) = true -> isRecording h = true \/
  start_record_sent (startRecording h).
Proof.
  unfold startRecording. destruct (open_socket h) as [i|] eqn:E; [|left; assumption].
  intros _. right. apply open_socket_Some in E as (_ & ws & Hws & R).
  rewrite (send_open h i ws _ Hws R). exists i. eexists. eexists. cbn.
  split; [apply list_lookup_insert_eq; eapply lookup_lt_Some, Hws|].
  split; [cbn; apply in_or_app; right; left; reflexivity|].
  eexists _, _. reflexivity.
Qed.

Lemma step_start_record_sent (rev : Revision) (h : Hook) (ev : event) :
  (isRecording h = true -> start_record_sent h) ->
  isRecording (step rev h ev) = true -> start_record_sent (step rev h ev).
Proof.
  intros IH Hrec.
  assert (Hkeep : isRecording h = true -> start_record_sent (step rev h ev)).
  { intros Hh. destruct (IH Hh) as (i & ws & m & E & Hm & Hd).
    destruct (step_keeps_log rev h ev i ws m E Hm) as (ws' & E' & Hm').
    exists i, ws', m. auto. }
  destruct (isRecording h) eqn:Hh; [apply Hkeep; reflexivity|].
  destruct (is_WsMessage ev) eqn:Hmsg.
  - exfalso. destruct ev; try discriminate Hmsg. cbn [step] in Hrec.
    destruct (sockets h !! i) as [ws|]; [|congruence].
    destruct (readyState ws); try congruence.
    all: apply onmessage_isRecording in Hrec; congruence.
  - destruct (is_StartRecording ev) eqn:Hsr.
    + destruct ev; try discriminate Hsr. cbn [step] in *.
      destruct (startRecording_sent h Hrec) as [H|H]; [congruence|exact H].
    + rewrite (step_isRecording rev h ev Hmsg Hsr Hh) in Hrec. discriminate Hrec.
Qed.

Lemma run_start_record_sent (rev : Revision) (evs : list event) :
  isRecording (run rev evs) = true -> start_record_sent (run rev evs).
Proof.
  induction evs as [|ev evs IH] using rev_ind.
  - discriminate.
  - rewrite run_app. apply step_start_record_sent, IH.
Qed.

(** X16.  The hook never reports a recording it has not asked for: in every state it
    can reach with [isRecording] true, some socket has transmitted a
    [start_record] document. *)
Theorem isRecording_implies_start_record_sent (rev : Revision) (evs : list event) :
  isRecording (run rev evs) = true ->
  exists (i : nat) (ws : WebSocket) (sample_rate channels : number),
    sockets (run rev evs) !! i = Some ws /\
    In (Text (JObj [("action", JStr "start_record"); ("sample_rate", JNum sample_rate);
                    ("channels", JNum channels)]%string)) (sent ws).
Proof.
  intros H. destruct (run_start_record_sent rev evs H) as (i & ws & m & E & Hm & sr & ch & ->).
  exists i, ws, sr, ch. auto.
Qed.

Lemma isRecording_implies_start_record_sent_witness :
  exists (i : nat) (ws : WebSocket) (sample_rate channels : number),
    sockets (run ScriptProcessor trace_startRecording) !! i = Some ws /\
    In (Text (JObj [("action", JStr "start_record"); ("sample_rate", JNum sample_rate);
                    ("channels", JNum channels)]%string)) (sent ws).
Proof.
  apply (isRecording_implies_start_record_sent ScriptProcessor trace_startRecording).
  vm_compute. reflexivity.
Defined.

Lemma onmessage_isConnected (data : option json) (h : Hook) :
  isConnected (onmessage data h) = isConnected h.
Proof. unfold onmessage. split_cases; reflexivity. Qed.

Lemma send_isConnected (i : nat) (m : message) (h : Hook) :
  isConnected (send i m h) = isConnected h.
Proof. unfold send. split_cases; reflexivity. Qed.

(** Only the opening of a socket sets [isConnected]. *)
Lemma step_isConnected (rev : Revision) (h : Hook) (ev : event) :
  isConnected h = false -> isConnected (step rev h ev) = true ->
  exists i ws, ev = WsOpen i /\ sockets h !! i = Some ws /\ readyState ws = CONNECTING.
Proof.
  intros Hh Hs. destruct ev; cbn [step] in Hs.
  - unfold connectWebSocket in Hs. destruct (open_socket h); cbn in Hs; congruence.
  - destruct (socketRef h); cbn in Hs; congruence.
  - destruct (sockets h !! i) as [ws|] eqn:E; [|congruence].
    destruct (readyState ws) eqn:R; try congruence. eauto.
  - destruct (sockets h !! i) as [ws|]; [|congruence].
    destruct (readyState ws); cbn in Hs; congruence.
  - destruct (sockets h !! i) as [ws|]; [|congruence].
    destruct (readyState ws); rewrite ?onmessage_isConnected in Hs; congruence.
  - destruct (socketRef h); [congruence|].
    unfold connectWebSocket in Hs. destruct (open_socket h); cbn in Hs; congruence.
  - destruct rev; [|destruct loaded]; cbn in Hs; congruence.
  - destruct (capturing h); [|congruence]. destruct rev.
    + rewrite onaudioprocess_spec in Hs. revert Hs.
      split_cases; rewrite ?send_isConnected; congruence.
    + unfold worklet_block, port_onmessage in Hs. revert Hs.
      split_cases; rewrite ?send_isConnected; congruence.
  - unfold startRecording in Hs. revert Hs.
    split_cases; cbn; rewrite ?send_isConnected; congruence.
  - unfold stopRecording in Hs. revert Hs.
    split_cases; rewrite ?send_isConnected; congruence.
  - unfold setSettings in Hs. revert Hs.
    split_cases; rewrite ?send_isConnected; congruence.
Qed.

Lemma step_has_opened (rev : Revision) (h : Hook) (ev : event) :
  (isConnected h = true -> has_opened h) ->
  isConnected (step rev h ev) = true -> has_opened (step rev h ev).
Proof.
  intros IH Hs. destruct (isConnected h) eqn:Hh.
  - destruct (IH eq_refl) as (i & ws & m & E & Hm).
    destruct (step_keeps_log rev h ev i ws m E Hm) as (ws' & E' & Hm').
    exists i, ws', m. auto.
  - destruct (step_isConnected rev h ev Hh Hs) as (i & ws & -> & E & R).
    destruct (onopen_sockets i ws h E) as [m Hm].
    exists i. eexists. exists m. cbn [step]. rewrite E, R, Hm.
    split; [apply list_lookup_insert_eq; eapply lookup_lt_Some, E|].
    cbn. apply in_or_app. right. left. reflexivity.
Qed.

Lemma run_has_opened (rev : Revision) (evs : list event) :
  isConnected (run rev evs) = true -> has_opened (run rev evs).
Proof.
  induction evs as [|ev evs IH] using rev_ind.
  - discriminate.
  - rewrite run_app. apply step_has_opened, IH.
Qed.

(** X17.  [isConnected] is never true before a connection was established: in every
    reachable state in which it is true, some socket has opened and
    transmitted, first of all, its [init] document. *)
Theorem isConnected_implies_init_sent (rev : Revision) (evs : list event) :
  isConnected (run rev evs) = true ->
  exists (i : nat) (ws : WebSocket) (sample_rate channels : number) (rest : list message),
    sockets (run rev evs) !! i = Some ws /\ readyState ws <> CONNECTING /\
    sent ws = Text (JObj [("action", JStr "init"); ("sample_rate", JNum sample_rate);
                          ("channels", JNum channels)]%string) :: rest.
Proof.
  intros H. destruct (run_has_opened rev evs H) as (i & ws & m & E & Hm).
  pose proof (proj1 (Forall_lookup _ _) (run_inv rev evs) i ws E) as Hws.
  unfold socket_inv, init_first in Hws.
  destruct (sent ws) as [|m0 rest] eqn:Es; [contradiction|].
  destruct Hws as [(sr & ch & ->) Hr]. exists i, ws, sr, ch, rest. auto.
Qed.

Lemma isConnected_implies_init_sent_witness :
  exists (i : nat) (ws : WebSocket) (sample_rate channels : number) (rest : list message),
    sockets (run AudioWorklet [Mount; WsOpen 0]) !! i = Some ws /\
    readyState ws <> CONNECTING /\
    sent ws = Text (JObj [("action", JStr "init"); ("sample_rate", JNum sample_rate);
                          ("channels", JNum channels)]%string) :: rest.
Proof.
  apply (isConnected_implies_init_sent AudioWorklet [Mount; WsOpen 0]).
  vm_compute. reflexivity.
Defined.

(** The converse fails: the [close] event of a socket replaced after a
    re-mount clears [isConnected] while the current socket is open. *)
Lemma stale_close_clears_isConnected :
  let h := run ScriptProcessor [Mount; WsOpen 0; Unmount; Mount; WsOpen 1; WsClose 0] in
  isConnected h = false /\ open_socket h = Some 1%nat.
Proof. vm_compute. split; reflexivity. Qed.

(** ** Bounds through the binary64 operations *)

Lemma shr_neg (mrs : shr_record) (e n : Z) : n <= 0 -> shr mrs e n = (mrs, e).
Proof. intros Hn. destruct n as [|p|p]; try lia; reflexivity. Qed.

(** An exact mantissa whose low bits are zero is shifted without loss. *)
Lemma binary_round_aux_spec_exact (sx : bool) (mx ex : Z) :
  0 <= mx ->
  let n1 := Z.max (fexp prec emax (Zdigits2 mx + ex) - ex) 0 in
  let e1 := ex + n1 in
  mx mod 2 ^ n1 = 0 ->
  let m1 := mx / 2 ^ n1 in
  let n2 := Z.max (fexp prec emax (Zdigits2 m1 + e1) - e1) 0 in
  binary_round_aux prec emax sx mx ex loc_Exact =
  match m1 / 2 ^ n2 with
  | Z0 => S754_zero sx
  | Zpos m => if e1 + n2 <=? emax - prec then S754_finite sx m (e1 + n2)
              else S754_infinity sx
  | Zneg _ => S754_nan
  end.
Proof.
  intros Hmx n1 e1 Hdiv m1 n2. unfold binary_round_aux, shr_fexp.
  assert (Hn1 : 0 <= n1) by (unfold n1; lia).
  assert (Hm1 : 0 <= m1) by (apply Z.div_pos; [lia|apply Z.pow_pos_nonneg; lia]).
  assert (Hmx' : mx = m1 * 2 ^ n1).
  { unfold m1. pose proof (Z.div_mod mx (2 ^ n1)) as H.
    rewrite Hdiv in H. rewrite Z.mul_comm. rewrite H at 1; [lia|].
    pose proof (Z.pow_pos_nonneg 2 n1). lia. }
  assert (E1 : shr (shr_record_of_loc mx loc_Exact) ex
                 (fexp prec emax (Zdigits2 mx + ex) - ex)
               = (Build_shr_record m1 false false, e1)).
  { cbn [shr_record_of_loc].
    destruct (Z_le_gt_dec (fexp prec emax (Zdigits2 mx + ex) - ex) 0) as [Hle|Hgt].
    - rewrite shr_neg by exact Hle. unfold e1, m1, n1. rewrite Z.max_r by exact Hle.
      rewrite Z.pow_0_r, Z.div_1_r, Z.add_0_r. reflexivity.
    - assert (En : n1 = fexp prec emax (Zdigits2 mx + ex) - ex) by (unfold n1; lia).
      rewrite <- En. rewrite Hmx' at 1. rewrite shr_exact by lia. reflexivity. }
  rewrite E1. cbn [shr_m loc_of_shr_record round_nearest_even shr_record_of_loc].
  pose proof (shr_m_spec (shr_record_of_loc m1 loc_Exact) e1
                (fexp prec emax (Zdigits2 m1 + e1) - e1)) as H2.
  rewrite shr_record_of_loc_m in H2. specialize (H2 Hm1).
  cbn [shr_record_of_loc] in H2.
  destruct (shr {| shr_m := m1; shr_r := false; shr_s := false |} e1
              (fexp prec emax (Zdigits2 m1 + e1) - e1)) as [mrs2 e2] eqn:E2.
  cbn [fst snd] in H2. destruct H2 as [Hm2 He2].
  fold n2 in Hm2, He2. rewrite Hm2, He2. reflexivity.
Qed.

(** A bound of the form [c * 2 ^ k], [c <= 2 ^ 52], bounds the digits. *)
Lemma Zdigits2_small (m c k : Z) :
  0 <= m -> 0 <= k -> c <= 2 ^ 52 -> m <= c * 2 ^ k -> Zdigits2 m <= 53 + k.
Proof.
  intros Hm Hk Hc Hle. apply Zdigits2_le; [lia|lia|].
  rewrite Z.pow_add_r by lia. change (2 ^ 53) with (2 * 2 ^ 52).
  pose proof (pow2_pos k Hk). change (2 ^ 52) with 4503599627370496 in *. nia.
Qed.

(** Rounding keeps a number between two small integers: the bounds are on the
    grid of every exponent that can come out. *)
Lemma round_between (lo hi : Z) (mx ex : Z) (lx : location) :
  0 <= lo -> hi <= 2 ^ 52 -> ex <= 0 ->
  lo * 2 ^ (- ex) <= mx ->
  (mx < hi * 2 ^ (- ex) \/ lx = loc_Exact /\ mx <= hi * 2 ^ (- ex)) ->
  between lo hi (binary_round_aux prec emax false mx ex lx).
Proof.
  intros Hlo Hhi Hex Hlow Hup.
  assert (Hp : 0 < 2 ^ (- ex)) by (apply pow2_pos; lia).
  assert (Hmx : 0 <= mx) by nia.
  assert (Hle : mx <= hi * 2 ^ (- ex)) by (destruct Hup as [H|[_ H]]; lia).
  assert (Hd : Zdigits2 mx <= 53 + - ex) by (apply (Zdigits2_small mx hi); lia).
  pose proof (Zdigits2_bound mx Hmx) as [Hd0 _].
  set (n1 := Z.max (fexp prec emax (Zdigits2 mx + ex) - ex) 0).
  set (e1 := ex + n1).
  assert (He1 : e1 <= 0 /\ 0 <= n1 /\ n1 <= - ex)
    by (unfold e1, n1, fexp, emin, prec, emax in *; lia).
  assert (Hpn : 0 < 2 ^ n1) by (apply pow2_pos; lia).
  assert (Hpe : 0 < 2 ^ (- e1)) by (apply pow2_pos; lia).
  assert (Hsplit : 2 ^ (- ex) = 2 ^ n1 * 2 ^ (- e1)).
  { rewrite <- Z.pow_add_r by lia. f_equal. unfold e1. lia. }
  assert (Hstage2 : forall m1, lo * 2 ^ (- e1) <= m1 <= hi * 2 ^ (- e1) ->
            between lo hi
              match m1 / 2 ^ Z.max (fexp prec emax (Zdigits2 m1 + e1) - e1) 0 with
              | Z0 => S754_zero false
              | Zpos m => if e1 + Z.max (fexp prec emax (Zdigits2 m1 + e1) - e1) 0
                             <=? emax - prec
                          then S754_finite false m
                                 (e1 + Z.max (fexp prec emax (Zdigits2 m1 + e1) - e1) 0)
                          else S754_infinity false
              | Zneg _ => S754_nan
              end).
  { intros m1 Hm1. assert (Hm1pos : 0 <= m1) by nia.
    set (n2 := Z.max (fexp prec emax (Zdigits2 m1 + e1) - e1) 0).
    assert (Hd1 : Zdigits2 m1 <= 53 + - e1) by (apply (Zdigits2_small m1 hi); lia).
    pose proof (Zdigits2_bound m1 Hm1pos) as [Hd10 _].
    assert (He2 : e1 + n2 <= 0 /\ 0 <= n2 /\ n2 <= - e1)
      by (unfold n2, fexp, emin, prec, emax in *; lia).
    assert (Hpn2 : 0 < 2 ^ n2) by (apply pow2_pos; lia).
    assert (Hpe2 : 0 < 2 ^ (- (e1 + n2))) by (apply pow2_pos; lia).
    assert (Hsplit2 : 2 ^ (- e1) = 2 ^ n2 * 2 ^ (- (e1 + n2))).
    { rewrite <- Z.pow_add_r by lia. f_equal. lia. }
    assert (Hq2 : lo * 2 ^ (- (e1 + n2)) <= m1 / 2 ^ n2 <= hi * 2 ^ (- (e1 + n2))).
    { split.
      - apply Z.div_le_lower_bound; [lia|]. rewrite Hsplit2 in Hm1. lia.
      - apply Z.div_le_upper_bound; [lia|]. rewrite Hsplit2 in Hm1. lia. }
    destruct (m1 / 2 ^ n2) as [|q|q].
    - cbn [between]. nia.
    - assert (Hb : (e1 + n2 <=? emax - prec) = true)
        by (apply Z.leb_le; unfold emax, prec; lia).
      rewrite Hb. cbn [between cond_Zopp]. split; [lia|exact Hq2].
    - exfalso. nia. }
  assert (Hstrict : mx < hi * 2 ^ (- ex) ->
                    between lo hi (binary_round_aux prec emax false mx ex lx)).
  { intros Hlt. destruct (binary_round_aux_spec false mx ex lx Hmx) as (m1 & Hm1 & ->).
    fold n1 in Hm1 |- *. fold e1. apply Hstage2.
    assert (Hq1 : lo * 2 ^ (- e1) <= mx / 2 ^ n1 < hi * 2 ^ (- e1)).
    { split.
      - apply Z.div_le_lower_bound; [lia|]. rewrite Hsplit in Hlow. lia.
      - apply Z.div_lt_upper_bound; [lia|]. rewrite Hsplit in Hlt. lia. }
    lia. }
  destruct Hup as [Hlt|[-> Hle']]; [exact (Hstrict Hlt)|].
  destruct (Z_lt_le_dec mx (hi * 2 ^ (- ex))) as [Hlt|Hge]; [exact (Hstrict Hlt)|].
  assert (Heq : mx = hi * 2 ^ (- e1) * 2 ^ n1) by (rewrite Hsplit in *; lia).
  rewrite binary_round_aux_spec_exact; fold n1; fold e1.
  - apply Hstage2. rewrite Heq, Z.div_mul by lia.
    split; [|lia]. apply Z.mul_le_mono_nonneg_r; [lia|].
    apply Z.mul_le_mono_pos_r with (p := 2 ^ (- ex)); lia.
  - exact Hmx.
  - rewrite Heq. apply Z.mod_mul. lia.
Qed.

Lemma between_weaken (lo hi lo' hi' : Z) (x : number) :
  lo' <= lo -> hi <= hi' -> between lo hi x -> between lo' hi' x.
Proof.
  intros Hlo Hhi. destruct x as [s|s| |s m e]; cbn [between]; try tauto; [lia|].
  intros [He H]. split; [exact He|]. pose proof (pow2_pos (- e) ltac:(lia)). nia.
Qed.

Lemma between_nonneg (lo hi : Z) (s : bool) (m : positive) (e : Z) :
  0 <= lo -> between lo hi (S754_finite s m e) -> s = false.
Proof.
  intros Hlo [He H]. destruct s; [exfalso|reflexivity]. cbn [cond_Zopp] in H.
  pose proof (pow2_pos (- e) ltac:(lia)). nia.
Qed.

Lemma shl_align_fst (mx : positive) (ex ez : Z) :
  ez <= ex -> Zpos (fst (shl_align mx ex ez)) = Zpos mx * 2 ^ (ex - ez).
Proof.
  intros H. unfold shl_align. destruct (ez - ex) as [|d|d] eqn:E; cbn [fst].
  - replace (ex - ez) with 0 by lia. lia.
  - lia.
  - rewrite Pos_iter_xO. f_equal. f_equal. lia.
Qed.

Lemma shl_align_spec (mx : positive) (ex ex' : Z) :
  snd (shl_align mx ex ex') <= ex /\
  Zpos (fst (shl_align mx ex ex')) = Zpos mx * 2 ^ (ex - snd (shl_align mx ex ex')).
Proof.
  unfold shl_align. destruct (ex' - ex) as [|d|d] eqn:E; cbn [fst snd].
  - rewrite Z.sub_diag. split; lia.
  - rewrite Z.sub_diag. split; lia.
  - split; [lia|]. rewrite Pos_iter_xO. f_equal. f_equal. lia.
Qed.

Lemma binary_round_between (lo hi : Z) (mx : positive) (ex : Z) :
  0 <= lo -> hi <= 2 ^ 52 -> ex <= 0 ->
  lo * 2 ^ (- ex) <= Zpos mx <= hi * 2 ^ (- ex) ->
  between lo hi (binary_round prec emax false mx ex).
Proof.
  intros Hlo Hhi Hex Hm. unfold binary_round.
  pose proof (shl_align_spec mx ex (fexp prec emax (Zpos (digits2_pos mx) + ex))) as [He Hz].
  destruct (shl_align mx ex _) as [mz ez]. cbn [fst snd] in He, Hz.
  assert (Hs : 2 ^ (- ez) = 2 ^ (- ex) * 2 ^ (ex - ez))
    by (rewrite <- Z.pow_add_r by lia; f_equal; lia).
  pose proof (pow2_pos (ex - ez) ltac:(lia)).
  apply round_between; try lia.
  - rewrite Hz, Hs. nia.
  - right. split; [reflexivity|]. rewrite Hz, Hs. nia.
Qed.

Lemma normalize_between (lo hi m e : Z) :
  0 <= lo -> hi <= 2 ^ 52 -> e <= 0 ->
  lo * 2 ^ (- e) <= m <= hi * 2 ^ (- e) ->
  between lo hi (binary_normalize prec emax m e false).
Proof.
  intros Hlo Hhi He Hm. pose proof (pow2_pos (- e) ltac:(lia)).
  destruct m as [|p|p]; cbn [binary_normalize].
  - cbn [between]. nia.
  - apply binary_round_between; assumption.
  - exfalso. nia.
Qed.

(** The scaled bounds of a finite number, at a lower exponent. *)
Lemma between_align (lo hi : Z) (s : bool) (m : positive) (e ez : Z) :
  between lo hi (S754_finite s m e) -> ez <= e ->
  lo * 2 ^ (- ez) <= cond_Zopp s (Zpos (fst (shl_align m e ez))) <= hi * 2 ^ (- ez).
Proof.
  intros [He H] Hz. rewrite shl_align_fst by exact Hz.
  assert (Hs : 2 ^ (- ez) = 2 ^ (- e) * 2 ^ (e - ez))
    by (rewrite <- Z.pow_add_r by lia; f_equal; lia).
  pose proof (pow2_pos (e - ez) ltac:(lia)).
  rewrite Hs, <- cond_Zopp_mul. nia.
Qed.

Lemma add_between (a b c d : Z) (x y : number) :
  between a b x -> between c d y -> 0 <= a + c -> b + d <= 2 ^ 52 ->
  between (a + c) (b + d) (add x y).
Proof.
  intros Hx Hy Hlo Hhi. destruct x as [sx|sx| |sx mx ex]; try contradiction;
    destruct y as [sy|sy| |sy my ey]; try contradiction; cbn [add SFadd].
  - cbn [between] in *. destruct sx, sy; cbn [between]; lia.
  - cbn [between] in Hx. apply (between_weaken c d); [lia|lia|exact Hy].
  - cbn [between] in Hy. apply (between_weaken a b); [lia|lia|exact Hx].
  - pose proof (between_align _ _ _ _ _ (Z.min ex ey) Hx ltac:(lia)) as H1.
    pose proof (between_align _ _ _ _ _ (Z.min ex ey) Hy ltac:(lia)) as H2.
    destruct Hx as [Hex _]. apply normalize_between; try lia.
Qed.

Lemma sub_between (a b c d : Z) (x y : number) :
  between a b x -> between c d y -> 0 <= a - d -> b - c <= 2 ^ 52 ->
  between (a - d) (b - c) (sub x y).
Proof.
  intros Hx Hy Hlo Hhi. destruct x as [sx|sx| |sx mx ex]; try contradiction;
    destruct y as [sy|sy| |sy my ey]; try contradiction; cbn [sub SFsub].
  - cbn [between] in *. destruct sx, sy; cbn [between]; lia.
  - cbn [between] in Hx. destruct Hy as [He Hy]. split; [exact He|].
    pose proof (pow2_pos (- ey) ltac:(lia)). destruct sy; cbn [negb cond_Zopp] in *; nia.
  - cbn [between] in Hy. apply (between_weaken a b); [lia|lia|exact Hx].
  - pose proof (between_align _ _ _ _ _ (Z.min ex ey) Hx ltac:(lia)) as H1.
    pose proof (between_align _ _ _ _ _ (Z.min ex ey) Hy ltac:(lia)) as H2.
    destruct Hx as [Hex _]. apply normalize_between; try lia.
Qed.

Lemma mul_between (b d : Z) (x y : number) :
  between 0 b x -> between 0 d y -> b * d <= 2 ^ 52 ->
  between 0 (b * d) (mul x y).
Proof.
  intros Hx Hy Hhi. destruct x as [sx|sx| |sx mx ex]; try contradiction;
    destruct y as [sy|sy| |sy my ey]; try contradiction; cbn [mul SFmul].
  - cbn [between] in *. split; [lia|apply Z.mul_nonneg_nonneg; lia].
  - cbn [between] in Hx. destruct Hy as [He Hy]. pose proof (pow2_pos (- ey) ltac:(lia)).
    assert (0 <= d) by (destruct sy; cbn [cond_Zopp] in Hy; nia). cbn [between].
    split; [lia|apply Z.mul_nonneg_nonneg; lia].
  - cbn [between] in Hy. destruct Hx as [He Hx]. pose proof (pow2_pos (- ex) ltac:(lia)).
    assert (0 <= b) by (destruct sx; cbn [cond_Zopp] in Hx; nia). cbn [between].
    split; [lia|apply Z.mul_nonneg_nonneg; lia].
  - pose proof (between_nonneg 0 b sx mx ex ltac:(lia) Hx) as ->.
    pose proof (between_nonneg 0 d sy my ey ltac:(lia) Hy) as ->.
    destruct Hx as [Hex Hx], Hy as [Hey Hy]. cbn [cond_Zopp xorb] in *.
    pose proof (pow2_pos (- ex) ltac:(lia)). pose proof (pow2_pos (- ey) ltac:(lia)).
    assert (Hs : 2 ^ (- (ex + ey)) = 2 ^ (- ex) * 2 ^ (- ey))
      by (rewrite <- Z.pow_add_r by lia; f_equal; lia).
    apply round_between; try lia.
    right. split; [reflexivity|]. rewrite Pos2Z.inj_mul, Hs. nia.
Qed.

Lemma new_location_0 (n : Z) : new_location n 0 = loc_Exact.
Proof. unfold new_location. destruct (Z.even n); reflexivity. Qed.

(** Division by a positive integer [c], given as the finite number [y]. *)
Lemma div_between (c l h : Z) (x : number) (my : positive) (ey : Z) :
  between (c * l) (c * h) x -> ey <= 0 -> Zpos my = c * 2 ^ (- ey) ->
  0 <= l -> c * h <= 2 ^ 52 -> h <= 2 ^ 52 ->
  between l h (div x (S754_finite false my ey)).
Proof.
  intros Hx Hey Hmy Hl Hch Hh. pose proof (pow2_pos (- ey) ltac:(lia)) as Hpy.
  assert (Hc : 0 < c) by nia.
  destruct x as [sx|sx| |sx mx ex]; try contradiction; cbn [div SFdiv].
  - cbn [between] in *. nia.
  - pose proof (between_nonneg (c * l) (c * h) sx mx ex ltac:(nia) Hx) as ->.
    destruct Hx as [Hex Hx]. cbn [cond_Zopp xorb] in *.
    pose proof (pow2_pos (- ex) ltac:(lia)) as Hpx.
    unfold SFdiv_core_binary.
    set (e' := Z.min (fexp prec emax (Zdigits2 (Zpos mx) + ex - (Zdigits2 (Zpos my) + ey)))
                     (ex - ey)).
    set (s := ex - ey - e').
    assert (Hd1 : Zdigits2 (Zpos mx) <= 53 + - ex)
      by (apply (Zdigits2_small (Zpos mx) (c * h)); lia).
    assert (Hd2 : - ey < Zdigits2 (Zpos my)).
    { cbn [Zdigits2]. pose proof (digits2_pos_bounds my) as [_ Hup].
      destruct (Z_lt_le_dec (- ey) (Zpos (digits2_pos my))) as [|Hge]; [assumption|exfalso].
      assert (2 ^ Zpos (digits2_pos my) <= 2 ^ (- ey)) by (apply Z.pow_le_mono_r; lia).
      nia. }
    assert (He' : e' <= 0 /\ 0 <= s) by (unfold s, e', fexp, emin, prec, emax in *; lia).
    set (m' := match s with 0 => Zpos mx | Zpos _ => Z.shiftl (Zpos mx) s | Zneg _ => 0 end).
    assert (Hm' : m' = Zpos mx * 2 ^ s).
    { unfold m'. destruct s as [|p|p] eqn:Es; [lia| |lia]. apply Z.shiftl_mul_pow2. lia. }
    pose proof (pow2_pos s ltac:(lia)) as Hps.
    pose proof (pow2_pos (- e') ltac:(lia)) as Hpe.
    assert (Hs : 2 ^ (- ex) * 2 ^ s = 2 ^ (- e') * 2 ^ (- ey)).
    { rewrite <- !Z.pow_add_r by lia. f_equal. unfold s. lia. }
    pose proof (Z_div_mod m' (Zpos my) ltac:(lia)) as Hdm.
    destruct (Z.div_eucl m' (Zpos my)) as [q r]. destruct Hdm as [Hq Hr].
    assert (Hlow : l * 2 ^ (- e') * Zpos my <= m').
    { rewrite Hm', Hmy.
      replace (l * 2 ^ (- e') * (c * 2 ^ (- ey))) with (c * l * (2 ^ (- e') * 2 ^ (- ey))) by lia.
      rewrite <- Hs. nia. }
    assert (Hup : m' <= h * 2 ^ (- e') * Zpos my).
    { rewrite Hm', Hmy.
      replace (h * 2 ^ (- e') * (c * 2 ^ (- ey))) with (c * h * (2 ^ (- e') * 2 ^ (- ey))) by lia.
      rewrite <- Hs. nia. }
    apply round_between; try lia.
    + nia.
    + destruct (Z_lt_le_dec q (h * 2 ^ (- e'))) as [Hlt|Hge]; [left; exact Hlt|right].
      assert (r = 0) by nia. subst r. split; [apply new_location_0|nia].
Qed.

(** The scaled bounds against the value as a rational. *)
Lemma between_B2Q (lo hi : Z) (x : number) :
  between lo hi x ->
  is_finite x = true /\ (inject_Z lo <= B2Q x <= inject_Z hi)%Q.
Proof.
  destruct x as [s|s| |s m e]; cbn [between]; try contradiction.
  - intros H. split; [reflexivity|]. unfold B2Q, Qle. cbn. lia.
  - intros [He H]. split; [reflexivity|]. unfold B2Q, Qle.
    destruct e as [|p|p]; try lia; cbn [inject_Z Qnum Qden].
    + cbn in H. rewrite Z.mul_1_r. destruct s; cbn [cond_Zopp] in *; lia.
    + change (- Zneg p) with (Zpos p) in H. rewrite Pos2Z.inj_pow. lia.
Qed.

Lemma B2Q_between (lo hi : Z) (x : number) :
  is_finite x = true -> -1 <= lo -> hi <= 1 ->
  (inject_Z lo <= B2Q x <= inject_Z hi)%Q -> between lo hi x.
Proof.
  intros Hf Hlo Hhi. destruct x as [s|s| |s m e]; try discriminate Hf; cbn [between].
  - unfold B2Q, Qle. cbn. lia.
  - unfold B2Q, Qle. destruct e as [|p|p]; cbn [inject_Z Qnum Qden].
    + intros H. split; [lia|]. cbn. destruct s; cbn [cond_Zopp] in *; lia.
    + intros H. exfalso. assert (2 <= 2 ^ Zpos p).
      { change 2 with (2 ^ 1) at 1. apply Z.pow_le_mono_r; lia. }
      destruct s; cbn [cond_Zopp] in *; nia.
    + intros H. split; [lia|]. change (- Zneg p) with (Zpos p).
      rewrite Pos2Z.inj_pow in H. lia.
Qed.

(** ** The ends of the level meter *)

Lemma binary_round_aux_sign (sx : bool) (mx ex : Z) (lx : location) :
  0 <= mx ->
  match binary_round_aux prec emax sx mx ex lx with
  | S754_zero s | S754_infinity s | S754_finite s _ _ => s = sx
  | S754_nan => False
  end.
Proof.
  intros Hmx. destruct (binary_round_aux_spec sx mx ex lx Hmx) as (m1 & Hm1 & ->).
  assert (Hm1pos : 0 <= m1).
  { assert (0 <= mx / 2 ^ Z.max (fexp prec emax (Zdigits2 mx + ex) - ex) 0)
      by (apply Z.div_pos; [lia|apply Z.pow_pos_nonneg; lia]). lia. }
  match goal with |- context [m1 / 2 ^ ?n] =>
    assert (Hq : 0 <= m1 / 2 ^ n) by (apply Z.div_pos; [lia|apply Z.pow_pos_nonneg; lia]);
    destruct (m1 / 2 ^ n) as [|q|q]; [reflexivity| |lia]
  end.
  match goal with |- context [if ?b then _ else _] => destruct b; reflexivity end.
Qed.

Lemma binary_round_nonpositive (m : positive) (e : Z) :
  nonpositive (binary_round prec emax true m e).
Proof.
  unfold binary_round. destruct (shl_align m e _) as [mz ez].
  pose proof (binary_round_aux_sign true (Zpos mz) ez loc_Exact ltac:(lia)) as H.
  destruct (binary_round_aux prec emax true (Zpos mz) ez loc_Exact) as [s|s| |s m' e'];
    try contradiction; subst s; exact I.
Qed.

(** The value of a finite number against an integer, on integers. *)
Lemma B2Q_le_int (s : bool) (m : positive) (e c : Z) :
  (B2Q (S754_finite s m e) <= inject_Z c)%Q <->
  cond_Zopp s (Zpos m) * 2 ^ Z.max e 0 <= c * 2 ^ Z.max (- e) 0.
Proof.
  rewrite B2Q_fraction. unfold Qle. cbn [inject_Z Qnum Qden].
  rewrite Z2Pos.id by (apply pow2_pos; lia). rewrite Z.mul_1_r, <- cond_Zopp_mul. reflexivity.
Qed.

Lemma B2Q_ge_int (s : bool) (m : positive) (e c : Z) :
  (inject_Z c <= B2Q (S754_finite s m e))%Q <->
  c * 2 ^ Z.max (- e) 0 <= cond_Zopp s (Zpos m) * 2 ^ Z.max e 0.
Proof.
  rewrite B2Q_fraction. unfold Qle. cbn [inject_Z Qnum Qden].
  rewrite Z2Pos.id by (apply pow2_pos; lia). rewrite Z.mul_1_r, <- cond_Zopp_mul. reflexivity.
Qed.

Lemma add_60_nonpositive (x : number) :
  x = S754_infinity true \/ is_finite x = true /\ (B2Q x <= -60)%Q ->
  nonpositive (add x (of_int 60)).
Proof.
  rewrite of_int_60. intros [->|[Hf Hv]]; [exact I|].
  destruct x as [s|s| |s m e]; try discriminate Hf.
  - exfalso. revert Hv. unfold B2Q, Qle. cbn. lia.
  - apply (B2Q_le_int s m e (-60)) in Hv. cbn [add SFadd].
    set (ez := Z.min e (-47)).
    rewrite !shl_align_fst by (unfold ez; lia).
    assert (Hs : s = true).
    { destruct s; [reflexivity|exfalso]. cbn [cond_Zopp] in Hv.
      pose proof (pow2_pos (Z.max e 0) ltac:(lia)). pose proof (pow2_pos (Z.max (- e) 0) ltac:(lia)).
      nia. }
    subst s. cbn [cond_Zopp] in *.
    assert (Hsum : - (Zpos m * 2 ^ (e - ez)) + 8444249301319680 * 2 ^ (-47 - ez) <= 0).
    { pose proof (pow2_pos (-47 - ez) ltac:(unfold ez; lia)) as Hp.
      destruct (Z_le_gt_dec e 0) as [He|He].
      - rewrite Z.max_r, Z.max_l in Hv by lia. rewrite Z.pow_0_r in Hv.
        assert (E1 : 2 ^ (- ez) = 2 ^ (- e) * 2 ^ (e - ez))
          by (rewrite <- Z.pow_add_r by (unfold ez; lia); f_equal; lia).
        assert (E2 : 2 ^ (- ez) = 2 ^ 47 * 2 ^ (-47 - ez))
          by (rewrite <- Z.pow_add_r by (unfold ez; lia); f_equal; lia).
        change (2 ^ 47) with 140737488355328 in E2.
        pose proof (pow2_pos (e - ez) ltac:(unfold ez; lia)).
        pose proof (pow2_pos (- e) ltac:(lia)). nia.
      - rewrite Z.max_l, Z.max_r in Hv by lia. rewrite Z.pow_0_r in Hv.
        assert (Ez : ez = -47) by (unfold ez; lia). rewrite Ez.
        replace (-47 - -47) with 0 by lia. rewrite Z.pow_0_r.
        replace (e - -47) with (e + 47) by lia. rewrite Z.pow_add_r by lia.
        change (2 ^ 47) with 140737488355328. nia. }
    destruct (- (Zpos m * 2 ^ (e - ez)) + 8444249301319680 * 2 ^ (-47 - ez)) as [|p|p];
      cbn [binary_normalize]; [exact I|lia|apply binary_round_nonpositive].
Qed.

Lemma div_60_nonpositive (x : number) :
  nonpositive x -> nonpositive (div x (of_int 60)).
Proof.
  rewrite of_int_60. destruct x as [s|[]| |[] m e]; cbn [nonpositive div SFdiv];
    intros H; try contradiction; try exact I.
  unfold SFdiv_core_binary.
    set (m' := match _ with Z0 => Zpos m | Zpos _ => _ | Zneg _ => 0 end).
    assert (Hm' : 0 <= m').
    { unfold m'. destruct (_ - _ - _) as [|p|p]; [lia| |lia]. apply Z.shiftl_nonneg. lia. }
    pose proof (div_eucl_nonneg m' 8444249301319680 Hm' ltac:(lia)) as Hq.
    destruct (Z.div_eucl m' 8444249301319680) as [q r]. cbn [fst xorb] in *.
    pose proof (binary_round_aux_sign true q
                  (Z.min (fexp prec emax (Zdigits2 (Zpos m) + e -
                                          (Zdigits2 8444249301319680 + -47))) (e - -47))
                  (new_location 8444249301319680 r) Hq) as Hs.
  destruct (binary_round_aux _ _ _ _ _ _) as [s|s| |s m2 e2]; try contradiction;
    subst s; exact I.
Qed.

Lemma clamp_nonpositive (x : number) :
  nonpositive x -> Math_max (of_int 0) (Math_min (of_int 1) x) = S754_zero false.
Proof.
  rewrite of_int_0, of_int_1. destruct x as [[]|[]| |[] m e]; cbn [nonpositive];
    intros H; try contradiction; reflexivity.
Qed.

(** *** Lower bounds *)

Lemma Zdigits2_lower (m : Z) : 0 < m -> 2 ^ (Zdigits2 m - 1) <= m.
Proof.
  intros Hm. destruct m as [|p|p]; try lia. cbn [Zdigits2].
  apply (digits2_pos_bounds p).
Qed.

(** A right shift up to the exponent of the format keeps a lower bound that
    has at most 53 bits. *)
Lemma shift_scaled_le (lo m e : Z) :
  0 < lo <= 2 ^ 52 -> 0 <= m -> scaled_le lo m e ->
  let n := Z.max (fexp prec emax (Zdigits2 m + e) - e) 0 in
  scaled_le lo (m / 2 ^ n) (e + n).
Proof.
  intros Hlo Hm0 H n.
  assert (Hm : 0 < m).
  { unfold scaled_le in H. destruct (Z.leb_spec e 0).
    - pose proof (pow2_pos (- e) ltac:(lia)). nia.
    - pose proof (pow2_pos e ltac:(lia)). nia. }
  destruct (Z_le_gt_dec (fexp prec emax (Zdigits2 m + e) - e) 0) as [Hn|Hn].
  { unfold n. rewrite Z.max_r by exact Hn. rewrite Z.pow_0_r, Z.div_1_r, Z.add_0_r. exact H. }
  assert (En : n = fexp prec emax (Zdigits2 m + e) - e) by (unfold n; lia).
  pose proof (pow2_pos n ltac:(lia)) as Hpn.
  unfold scaled_le in *. destruct (Z.leb_spec (e + n) 0) as [He'|He'].
  - destruct (Z.leb_spec e 0); [|lia].
    apply Z.div_le_lower_bound; [lia|].
    assert (Hs : 2 ^ (- e) = 2 ^ n * 2 ^ (- (e + n)))
      by (rewrite <- Z.pow_add_r by lia; f_equal; lia).
    rewrite Hs in H. lia.
  - assert (Hd : n = Zdigits2 m - 53) by (unfold fexp, emin, prec, emax in *; lia).
    pose proof (Zdigits2_lower m Hm) as Hlow.
    assert (Hq : 2 ^ 52 <= m / 2 ^ n).
    { apply Z.div_le_lower_bound; [lia|]. rewrite <- Z.pow_add_r by lia.
      replace (n + 52) with (Zdigits2 m - 1) by lia. exact Hlow. }
    assert (1 <= 2 ^ (e + n)) by (pose proof (pow2_pos (e + n) ltac:(lia)); lia).
    nia.
Qed.

Lemma scaled_le_mono (lo m m' e : Z) : m <= m' -> scaled_le lo m e -> scaled_le lo m' e.
Proof.
  unfold scaled_le. intros Hm. destruct (Z.leb_spec e 0); [lia|].
  pose proof (pow2_pos e ltac:(lia)). nia.
Qed.

Lemma round_at_least (lo mx ex : Z) (lx : location) :
  0 < lo <= 2 ^ 52 -> 0 <= mx -> scaled_le lo mx ex ->
  at_least lo (binary_round_aux prec emax false mx ex lx).
Proof.
  intros Hlo Hmx H. destruct (binary_round_aux_spec false mx ex lx Hmx) as (m1 & Hm1 & ->).
  pose proof (shift_scaled_le lo mx ex Hlo Hmx H) as H1. cbn zeta in H1.
  set (n1 := Z.max (fexp prec emax (Zdigits2 mx + ex) - ex) 0) in *.
  set (e1 := ex + n1) in *.
  assert (Hq1 : 0 <= mx / 2 ^ n1) by (apply Z.div_pos; [lia|apply pow2_pos; unfold n1; lia]).
  assert (H1' : scaled_le lo m1 e1) by (apply (scaled_le_mono lo (mx / 2 ^ n1)); [lia|exact H1]).
  pose proof (shift_scaled_le lo m1 e1 Hlo ltac:(lia) H1') as H2. cbn zeta in H2.
  set (n2 := Z.max (fexp prec emax (Zdigits2 m1 + e1) - e1) 0) in *.
  assert (Hq2 : 0 <= m1 / 2 ^ n2) by (apply Z.div_pos; [lia|apply pow2_pos; unfold n2; lia]).
  destruct (m1 / 2 ^ n2) as [|q|q]; [|destruct (_ <=? _); [exact H2|exact I]|lia].
  exfalso. unfold scaled_le in H2. destruct (Z.leb_spec (e1 + n2) 0).
  - pose proof (pow2_pos (- (e1 + n2)) ltac:(lia)). nia.
  - lia.
Qed.

Lemma binary_round_at_least (lo : Z) (mx : positive) (ex : Z) :
  0 < lo <= 2 ^ 52 -> ex <= 0 -> lo * 2 ^ (- ex) <= Zpos mx ->
  at_least lo (binary_round prec emax false mx ex).
Proof.
  intros Hlo Hex Hm. unfold binary_round.
  pose proof (shl_align_spec mx ex (fexp prec emax (Zpos (digits2_pos mx) + ex))) as [He Hz].
  destruct (shl_align mx ex _) as [mz ez]. cbn [fst snd] in He, Hz.
  apply round_at_least; [exact Hlo|lia|].
  unfold scaled_le. destruct (Z.leb_spec ez 0); [|lia].
  assert (Hs : 2 ^ (- ez) = 2 ^ (- ex) * 2 ^ (ex - ez))
    by (rewrite <- Z.pow_add_r by lia; f_equal; lia).
  pose proof (pow2_pos (ex - ez) ltac:(lia)). rewrite Hz, Hs. nia.
Qed.

Lemma add_60_at_least (x : number) :
  x = S754_infinity false \/ is_finite x = true /\ (0 <= B2Q x)%Q ->
  at_least 60 (add x (of_int 60)).
Proof.
  rewrite of_int_60. intros [->|[Hf Hv]]; [exact I|].
  destruct x as [s|s| |s m e]; try discriminate Hf.
  - cbn. unfold scaled_le. cbn. lia.
  - apply (B2Q_ge_int s m e 0) in Hv. cbn [add SFadd].
    set (ez := Z.min e (-47)).
    rewrite !shl_align_fst by (unfold ez; lia).
    assert (Hs : s = false).
    { destruct s; [exfalso|reflexivity]. cbn [cond_Zopp] in Hv.
      pose proof (pow2_pos (Z.max e 0) ltac:(lia)). nia. }
    subst s. cbn [cond_Zopp] in *.
    pose proof (pow2_pos (e - ez) ltac:(unfold ez; lia)) as Hp1.
    pose proof (pow2_pos (-47 - ez) ltac:(unfold ez; lia)) as Hp2.
    assert (E2 : 2 ^ (- ez) = 2 ^ 47 * 2 ^ (-47 - ez))
      by (rewrite <- Z.pow_add_r by (unfold ez; lia); f_equal; lia).
    change (2 ^ 47) with 140737488355328 in E2.
    assert (Hsum : 60 * 2 ^ (- ez) <=
                   Zpos m * 2 ^ (e - ez) + 8444249301319680 * 2 ^ (-47 - ez)) by nia.
    destruct (Zpos m * 2 ^ (e - ez) + 8444249301319680 * 2 ^ (-47 - ez)) as [|p|p] eqn:E;
      [nia| |nia].
    cbn [binary_normalize]. apply binary_round_at_least; [cbn; lia|unfold ez; lia|exact Hsum].
Qed.

Lemma div_60_at_least (x : number) :
  at_least 60 x -> at_least 1 (div x (of_int 60)).
Proof.
  rewrite of_int_60. destruct x as [s|[]| |[] m e]; cbn [at_least];
    intros H; try contradiction; [exact I|]. cbn [div SFdiv xorb].
    unfold SFdiv_core_binary.
    change (Zdigits2 8444249301319680) with 53.
    set (e' := Z.min (fexp prec emax (Zdigits2 (Zpos m) + e - (53 + -47))) (e - -47)).
    set (s := e - -47 - e').
    assert (Hs0 : 0 <= s) by (unfold s, e'; lia).
    set (m' := match s with 0 => Zpos m | Zpos _ => Z.shiftl (Zpos m) s | Zneg _ => 0 end).
    assert (Hm' : m' = Zpos m * 2 ^ s).
    { unfold m'. destruct s as [|p|p] eqn:Es; [lia| |lia]. apply Z.shiftl_mul_pow2. lia. }
    pose proof (pow2_pos s Hs0) as Hps.
    pose proof (Z_div_mod m' 8444249301319680 ltac:(lia)) as Hdm.
    destruct (Z.div_eucl m' 8444249301319680) as [q r]. destruct Hdm as [Hq Hr].
    assert (Hq0 : 0 <= q) by nia.
    apply round_at_least; [cbn; lia|exact Hq0|].
    unfold scaled_le in *. destruct (Z.leb_spec e' 0) as [He'|He'].
    + assert (Hlow : 2 ^ (- e') * 8444249301319680 <= m').
      { rewrite Hm'. destruct (Z.leb_spec e 0) as [He|He].
        - assert (E : 2 ^ (- e) * 2 ^ s = 2 ^ 47 * 2 ^ (- e')).
          { rewrite <- !Z.pow_add_r by lia. f_equal. unfold s. lia. }
          change (2 ^ 47) with 140737488355328 in E.
          pose proof (pow2_pos (- e) ltac:(lia)). pose proof (pow2_pos (- e') ltac:(lia)). nia.
        - assert (E : 2 ^ s = 2 ^ e * (2 ^ 47 * 2 ^ (- e'))).
          { rewrite <- !Z.pow_add_r by lia. f_equal. unfold s. lia. }
          change (2 ^ 47) with 140737488355328 in E.
          pose proof (pow2_pos e ltac:(lia)). pose proof (pow2_pos (- e') ltac:(lia)). nia. }
      nia.
    + assert (Hd : 106 - Zdigits2 (Zpos m) <= s)
        by (unfold s, e', fexp, emin, prec, emax in *; lia).
      pose proof (Zdigits2_lower (Zpos m) ltac:(lia)) as Hlow.
      pose proof (Zdigits2_bound (Zpos m) ltac:(lia)) as [Hd0 _].
      assert (Hbig : 2 ^ 105 <= m').
      { rewrite Hm'. destruct (Z_le_gt_dec (Zdigits2 (Zpos m)) 106) as [Hle|Hgt].
        - assert (2 ^ (106 - Zdigits2 (Zpos m)) <= 2 ^ s) by (apply Z.pow_le_mono_r; lia).
          assert (0 < Zdigits2 (Zpos m)) by (cbn [Zdigits2]; lia).
          assert (E : 2 ^ 105 = 2 ^ (Zdigits2 (Zpos m) - 1) * 2 ^ (106 - Zdigits2 (Zpos m))).
          { rewrite <- Z.pow_add_r by lia. f_equal. lia. }
          rewrite E. apply Z.mul_le_mono_nonneg; try lia; apply Z.pow_nonneg; lia.
        - assert (2 ^ 105 <= 2 ^ (Zdigits2 (Zpos m) - 1)) by (apply Z.pow_le_mono_r; lia).
          nia. }
      change (2 ^ 105) with 40564819207303340847894502572032 in Hbig.
      assert (1 <= q) by nia. pose proof (pow2_pos e' ltac:(lia)). nia.
Qed.

Lemma clamp_at_least (x : number) :
  at_least 1 x -> rounded x -> Math_max (of_int 0) (Math_min (of_int 1) x) = of_int 1.
Proof.
  rewrite of_int_0, of_int_1. destruct x as [s|[]| |[] m e]; cbn [at_least];
    intros H Hr; try contradiction; [reflexivity|]. cbn [rounded] in Hr.
    change (2 ^ 53) with 9007199254740992 in Hr.
    assert (He : -52 <= e).
    { unfold scaled_le in H. destruct (Z.leb_spec e 0); [|lia].
      destruct (Z_le_gt_dec (-52) e) as [|Hgt]; [assumption|exfalso].
      assert (2 ^ 53 <= 2 ^ (- e)) by (apply Z.pow_le_mono_r; lia).
      change (2 ^ 53) with 9007199254740992 in *. lia. }
    unfold Math_min, Math_max, SFcompare. change (Pos.compare_cont Eq) with Pos.compare.
    destruct (Z.compare_spec (-52) e) as [E|E|E]; [|reflexivity|lia].
    subst e. unfold scaled_le in H. cbn in H.
    destruct (Pos.compare_spec 4503599627370496 m) as [Hm|Hm|Hm].
    + subst m. reflexivity.
    + reflexivity.
    + exfalso. apply Pos2Z.pos_lt_pos in Hm. lia.
Qed.

(** X18.  The ends of the scale: at -60 dB and below (down to -Infinity) the bar is
    empty, its width exactly 0; at 0 dB and above (up to +Infinity) it fills
    the track, its width exactly the canvas width. *)
Theorem VuMeter_bar_saturates (dbLevel : number) :
  (dbLevel = S754_infinity true \/ is_finite dbLevel = true /\ (B2Q dbLevel <= -60)%Q ->
   VuMeter_bar dbLevel canvas_width canvas_height
   = (of_int 0, of_int 0, of_int 0, of_int canvas_height)) /\
  (dbLevel = S754_infinity false \/ is_finite dbLevel = true /\ (0 <= B2Q dbLevel)%Q ->
   VuMeter_bar dbLevel canvas_width canvas_height
   = (of_int 0, of_int 0, of_int canvas_width, of_int canvas_height)).
Proof.
  unfold VuMeter_bar, VuMeter_normalized. split; intros H.
  - rewrite clamp_nonpositive by (apply div_60_nonpositive, add_60_nonpositive, H).
    vm_compute. reflexivity.
  - rewrite clamp_at_least.
    + vm_compute. reflexivity.
    + apply div_60_at_least, add_60_at_least, H.
    + apply div_60_rounded, add_60_rounded. destruct H as [->|[Hf _]]; [discriminate|].
      intros ->. discriminate Hf.
Qed.

Lemma VuMeter_bar_saturates_witness :
  VuMeter_bar (of_int (-100)) canvas_width canvas_height
  = (of_int 0, of_int 0, of_int 0, of_int canvas_height) /\
  VuMeter_bar (of_int 3) canvas_width canvas_height
  = (of_int 0, of_int 0, of_int canvas_width, of_int canvas_height).
Proof.
  split.
  - apply (proj1 (VuMeter_bar_saturates (of_int (-100)))).
    right. split; [reflexivity|]. vm_compute. discriminate.
  - apply (proj2 (VuMeter_bar_saturates (of_int 3))).
    right. split; [reflexivity|]. vm_compute. discriminate.
Defined.

(** ** The spectrum bars and the panning indicator *)

(** An integer literal lies between itself and itself. *)
Lemma between_1 : between 1 1 (of_int 1).
Proof. vm_compute. repeat split; discriminate. Qed.
Lemma between_20 : between 20 20 (of_int 20).
Proof. vm_compute. repeat split; discriminate. Qed.
Lemma between_100 : between 100 100 (of_int 100).
Proof. vm_compute. repeat split; discriminate. Qed.
Lemma between_560 : between 560 560 (of_int 560).
Proof. vm_compute. repeat split; discriminate. Qed.

(** X19.  The guard of line 27 and the bars of lines 32-44: nothing is drawn for
    absent or empty data (so the division by [data.length] never divides by
    zero), otherwise one bar per element; and the bar of a magnitude between 0
    and 1 stays on the canvas vertically, its height and its top edge being
    finite numbers between 0 and the canvas height. *)
Theorem SpectrumAnalyzer_bars_within_canvas (data : option (list number)) :
  length (SpectrumAnalyzer_bars data spectrum_width spectrum_height)
  = length (default [] data) /\
  forall (i : nat) (value : number),
    default [] data !! i = Some value ->
    is_finite value = true -> (0 <= B2Q value <= 1)%Q ->
    exists x y w barHeight : number,
      SpectrumAnalyzer_bars data spectrum_width spectrum_height !! i
      = Some (x, y, w, barHeight) /\
      is_finite barHeight = true /\
      (0 <= B2Q barHeight <= inject_Z spectrum_height)%Q /\
      is_finite y = true /\ (0 <= B2Q y <= inject_Z spectrum_height)%Q.
Proof.
  destruct data as [data|]; [|split; [reflexivity|intros i value Hi; discriminate Hi]].
  cbn [default from_option id]. unfold SpectrumAnalyzer_bars.
  destruct (Nat.eqb_spec (length data) 0) as [Hz|_].
  { split; [symmetry; exact Hz|]. intros i value Hi. apply lookup_lt_Some in Hi. lia. }
  cbn zeta. split; [apply length_imap|]. intros i value Hi Hf Hv.
  rewrite list_lookup_imap, Hi. cbn [fmap option_fmap option_map].
  unfold SpectrumAnalyzer_bar. do 4 eexists. split; [reflexivity|].
  assert (Hval : between 0 1 value) by (apply B2Q_between; [exact Hf|lia|lia|exact Hv]).
  assert (Hbar : between 0 100 (mul value (of_int spectrum_height))).
  { apply (mul_between 1 100); [exact Hval| |cbn; lia].
    apply (between_weaken 100 100); [lia|lia|exact between_100]. }
  assert (Hy : between 0 100 (sub (of_int spectrum_height) (mul value (of_int spectrum_height)))).
  { apply (sub_between 100 100 0 100); [exact between_100|exact Hbar|lia|cbn; lia]. }
  apply between_B2Q in Hbar as [Hb1 Hb2]. apply between_B2Q in Hy as [Hy1 Hy2].
  auto.
Qed.

Lemma SpectrumAnalyzer_bars_within_canvas_witness :
  exists x y w barHeight : number,
    SpectrumAnalyzer_bars (Some [of_int 1; of_int 0]) spectrum_width spectrum_height !! 0%nat
    = Some (x, y, w, barHeight) /\
    (0 <= B2Q barHeight <= inject_Z spectrum_height)%Q /\
    (0 <= B2Q y <= inject_Z spectrum_height)%Q.
Proof.
  destruct (proj2 (SpectrumAnalyzer_bars_within_canvas (Some [of_int 1; of_int 0]))
              0%nat (of_int 1) eq_refl eq_refl)
    as (x & y & w & barHeight & E & _ & Hb & _ & Hy).
  - vm_compute. split; discriminate.
  - exists x, y, w, barHeight. split; [exact E|]. split; [exact Hb|exact Hy].
Defined.

(** X20.  The indicator stays on the track: for a panning between -1 and 1 its
    centre is at a finite abscissa between 20 and 580, on the middle line. *)
Theorem PanningViewer_indicator_on_track (pan : number) :
  is_finite pan = true -> (-1 <= B2Q pan <= 1)%Q ->
  exists x : number,
    PanningViewer_indicator pan panning_width panning_height
    = (x, of_int 25, of_int 6, of_int 0, mul (of_int 2) Math_PI) /\
    is_finite x = true /\ (20 <= B2Q x <= 580)%Q.
Proof.
  intros Hf Hv. unfold PanningViewer_indicator.
  assert (Htrack : sub (of_int panning_width) (mul (of_int 2) (of_int 20)) = of_int 560)
    by (vm_compute; reflexivity).
  assert (Hy : div (of_int panning_height) (of_int 2) = of_int 25)
    by (vm_compute; reflexivity).
  cbv zeta. rewrite Htrack, Hy. eexists. split; [reflexivity|].
  assert (Hpan : between (-1) 1 pan) by (apply B2Q_between; [exact Hf|lia|lia|exact Hv]).
  assert (Hsum : between 0 2 (add pan (of_int 1))).
  { apply (add_between (-1) 1 1 1); [exact Hpan|exact between_1|lia|cbn; lia]. }
  assert (Hnorm : between 0 1 (div (add pan (of_int 1)) (of_int 2))).
  { change (of_int 2) with (S754_finite false 4503599627370496 (-51)).
    apply (div_between 2 0 1); [exact Hsum|lia|reflexivity|lia|cbn; lia|cbn; lia]. }
  assert (Hmul : between 0 560 (mul (div (add pan (of_int 1)) (of_int 2)) (of_int 560))).
  { apply (mul_between 1 560); [exact Hnorm| |cbn; lia].
    apply (between_weaken 560 560); [lia|lia|exact between_560]. }
  assert (Hx : between 20 580
                 (add (of_int 20) (mul (div (add pan (of_int 1)) (of_int 2)) (of_int 560)))).
  { apply (add_between 20 20 0 560); [exact between_20|exact Hmul|lia|cbn; lia]. }
  apply between_B2Q in Hx. exact Hx.
Qed.

Lemma PanningViewer_indicator_on_track_witness :
  exists x : number,
    PanningViewer_indicator (of_int 0) panning_width panning_height
    = (x, of_int 25, of_int 6, of_int 0, mul (of_int 2) Math_PI) /\
    (20 <= B2Q x <= 580)%Q.
Proof.
  destruct (PanningViewer_indicator_on_track (of_int 0) eq_refl) as (x & E & _ & Hx).
  - vm_compute. split; discriminate.
  - exists x. split; [exact E|exact Hx].
Defined.

(** The indicator at the ends and in the middle of the scale: at 20, 300 and
    580 of the 600 pixels. *)
Lemma PanningViewer_indicator_examples :
  fst (fst (fst (fst (PanningViewer_indicator (of_int (-1)) panning_width panning_height))))
  = of_int 20 /\
  fst (fst (fst (fst (PanningViewer_indicator (of_int 0) panning_width panning_height))))
  = of_int 300 /\
  fst (fst (fst (fst (PanningViewer_indicator (of_int 1) panning_width panning_height))))
  = of_int 580.
Proof. vm_compute. repeat split. Qed.
